(** * DocParser: [main.js] and [matching_utils.js]

    A shallow embedding of the program of [src/main.js], followed by the
    properties the specification states about it and by further properties
    of the code: the detection normalizer and reading-order sequencer
    ([processPage]), the text extraction ([extractTextFromRegion],
    [extractTextWithRetry], [initializeOCRWorker]), the export assembler
    ([saveBoundingBoxesToJson]), the hierarchy builder
    ([buildDocumentHierarchy]), the conversion of the PDF into page images
    ([tryPdfPoppler], [convertPdfToImages]), the annotated image
    ([createAnnotatedImage]) and the two matching utilities ([fuzzyMatch],
    [cosineSimilarity]).

    - JavaScript numbers are IEEE 754 binary64 values: they are modelled by
      Rocq's primitive [float]s, whose operations are the same correctly
      rounded ones.  Counters that the program only ever increments by one
      (page numbers, array indices, reading orders) are modelled in [Z].
    - What the program reads from its collaborators is an input of the
      model: the image size, the processor's reshaped size, the detector's
      predictions and the clock are fields of [PageInput]; the OCR worker
      is a function [recognize], which [recognize_region] refines by the
      crop of the region; the PDF converter, the directory listing
      and the functions of the [natural] library are variables of the
      sections that use them.
    - The heading nodes of the hierarchy are objects that are shared and
      grow after they have been inserted: they live in a heap, and the
      hierarchy returned is read out of it.
    - The labels are the values of [id2label] and ["Unknown"], the only
      strings the program ever uses as labels: they form an enumeration,
      [label_name] giving the string. *)

From Stdlib Require Import ZArith Ascii String Floats Lia Permutation Sorted.
From stdpp Require Import base list sorting strings pretty.

Set Warnings "-inexact-float,-register-all".
Open Scope Z_scope.

(** ** JavaScript primitives used by the program *)
Module JS.

Definition number := float.

(** The number closest to the integer [n] ([n] itself up to 2^53). *)
Definition of_integer (n : Z) : number :=
  SF2Prim (binary_normalize prec emax n 0 false).

(** [Math.round(x)]: the integral number closest to [x], ties towards
    +Infinity; non-finite and integral arguments are returned unchanged,
    and a result of zero keeps the sign of [x]. *)
Definition Math_round (x : number) : number :=
  match Prim2SF x with
  | S754_finite s m e =>
      if 0 <=? e then x
      else
        let d := 2 ^ (- e) in
        let sm := if s then Z.neg m else Z.pos m in
        let n := (2 * sm + d) / (2 * d) in
        if n =? 0 then (if s then neg_zero else zero) else of_integer n
  | _ => x
  end.

Definition Math_abs (x : number) : number := PrimFloat.abs x.

(** The text [Number.prototype.toFixed] produces, kept structured:
    [FixedDigits neg n f] stands for the decimal digits of [n] with a point
    before the last [f] of them, after a minus sign when [neg]. *)
Inductive fixed_string :=
| FixedNaN
| FixedInfinity (neg : bool)
| FixedDigits (neg : bool) (n : Z) (fractionDigits : nat)
| FixedToString (x : number).

(** The integer [n] for which [n / 10^f - m * 2^e] is as close to zero as
    possible, the larger one when there are two (step 9.a of
    Number.prototype.toFixed). *)
Definition fixed_digits (m : positive) (e : Z) (f : nat) : Z :=
  let scaled := Z.pos m * 10 ^ Z.of_nat f in
  if 0 <=? e then scaled * 2 ^ e
  else (2 * scaled + 2 ^ (- e)) / (2 * 2 ^ (- e)).

(** [x.toFixed(f)]. *)
Definition toFixed (x : number) (f : nat) : fixed_string :=
  match Prim2SF x with
  | S754_nan => FixedNaN
  | S754_infinity s => FixedInfinity s
  | S754_zero _ => FixedDigits false 0 f
  | S754_finite s m e =>
      if (1e21 <=? Math_abs x)%float then FixedToString x
      else FixedDigits s (fixed_digits m e f) f
  end.

(** [parseFloat] on the texts [toFixed] produces: the number closest to the
    decimal, ties to even. *)
Definition parseFloat (s : fixed_string) : number :=
  match s with
  | FixedNaN => nan
  | FixedInfinity neg => if neg then neg_infinity else infinity
  | FixedToString x => x
  | FixedDigits neg n f =>
      match n with
      | Z.pos p =>
          SF2Prim (SFdiv prec emax (S754_finite neg p 0)
                     (S754_finite false (Z.to_pos (10 ^ Z.of_nat f)) 0))
      | _ => if neg then neg_zero else zero
      end
  end.

(** [s.includes(pat)]. *)
Fixpoint includes (pat s : string) : bool :=
  if String.prefix pat s then true
  else match s with
       | EmptyString => false
       | String _ s' => includes pat s'
       end.

(** [s.replace(pat, rep)] for a string pattern: only the first occurrence
    is replaced. *)
Fixpoint replace (pat rep s : string) : string :=
  if String.prefix pat s
  then rep +:+ String.substring (String.length pat)
                 (String.length s - String.length pat) s
  else match s with
       | EmptyString => EmptyString
       | String c s' => String c (replace pat rep s')
       end.

(** [s.toLowerCase()] on ASCII text. *)
Definition lower_ascii (c : ascii) : ascii :=
  let n := Ascii.nat_of_ascii c in
  if ((65 <=? n) && (n <=? 90))%nat then Ascii.ascii_of_nat (n + 32) else c.

Fixpoint toLowerCase (s : string) : string :=
  match s with
  | EmptyString => EmptyString
  | String c s' => String (lower_ascii c) (toLowerCase s')
  end.

(** [parseInt(s)] on a string of decimal digits (the program only applies
    it to what is left of ["H1"] .. ["H4"] once the ["H"] is removed):
    the value of the leading digits, [None] (NaN) when there is none. *)
Definition digit_value (c : ascii) : option Z :=
  let n := Ascii.nat_of_ascii c in
  if ((48 <=? n) && (n <=? 57))%nat then Some (Z.of_nat (n - 48)) else None.

Fixpoint parse_digits (acc : option Z) (s : string) : option Z :=
  match s with
  | EmptyString => acc
  | String c s' =>
      match digit_value c with
      | Some d => parse_digits (Some (10 * default 0 acc + d)) s'
      | None => acc
      end
  end.

Definition parseInt (s : string) : option Z := parse_digits None s.

(** [a >= b] on numbers that may be NaN. *)
Definition num_ge (a b : option Z) : bool :=
  match a, b with
  | Some x, Some y => y <=? x
  | _, _ => false
  end.

(** [path.join(dir, file)] on the program's paths, which have no [..]
    segment and no doubled separator: the two joined by a separator,
    without the leading [./] that normalization drops. *)
Definition path_join (dir file : string) : string :=
  let joined := dir +:+ "/" +:+ file in
  if String.prefix "./" joined
  then String.substring 2 (String.length joined - 2) joined
  else joined.

(** [Array.prototype.sort(comparefn)], seen through the one question it
    asks of the comparator, whether [comparefn(a, b) < 0]: a stable
    insertion sort.  ECMAScript requires the sort to be stable; for a
    comparator that is a consistent ordering this is the order every engine
    produces.  For another one ECMAScript leaves the order to the engine,
    and the order computed here need not be the engine's: what is proved
    about the order of a sorted array is proved of arrays the comparator
    orders consistently, or of every arrangement of the array. *)
Section Sort.
Context {A : Type} (before : A -> A -> bool).

Fixpoint sort_insert (x : A) (l : list A) : list A :=
  match l with
  | [] => [x]
  | y :: l' => if before x y then x :: l else y :: sort_insert x l'
  end.

Definition Array_sort (l : list A) : list A :=
  fold_left (fun acc x => sort_insert x acc) l [].
End Sort.

(** [array.forEach((x, index) => ...)] used to rewrite each element. *)
Definition mapi {A B : Type} (f : A -> Z -> B) (l : list A) : list B :=
  imap (fun i x => f x (Z.of_nat i)) l.

End JS.
Import JS.

(** ** Configuration and static tables *)

Definition CONFIDENCE_THRESHOLD : number := 0.50%float.
Definition ANNOTATED_DIR : string := "./output/annotated_frames".

(** The layout classes: the values of [id2label], and ["Unknown"]. *)
Inductive Label :=
| Caption | Footnote | Formula | ListItem | PageFooter | PageHeader
| Picture | SectionHeader | Table | Text | Title | Unknown.

#[global] Instance Label_eq_dec : EqDecision Label.
Proof. solve_decision. Defined.

(** The string a label is in the program. *)
Definition label_name (l : Label) : string :=
  match l with
  | Caption => "Caption" | Footnote => "Footnote" | Formula => "Formula"
  | ListItem => "List-item" | PageFooter => "Page-footer"
  | PageHeader => "Page-header" | Picture => "Picture"
  | SectionHeader => "Section-header" | Table => "Table" | Text => "Text"
  | Title => "Title" | Unknown => "Unknown"
  end.

(** [id2label[id]]: the class id is a number read from the detector's
    output tensor; [None] is [undefined]. *)
Definition id2label (id : number) : option Label :=
  if (id =? 0)%float then Some Caption
  else if (id =? 1)%float then Some Footnote
  else if (id =? 2)%float then Some Formula
  else if (id =? 3)%float then Some ListItem
  else if (id =? 4)%float then Some PageFooter
  else if (id =? 5)%float then Some PageHeader
  else if (id =? 6)%float then Some Picture
  else if (id =? 7)%float then Some SectionHeader
  else if (id =? 8)%float then Some Table
  else if (id =? 9)%float then Some Text
  else if (id =? 10)%float then Some Title
  else None.

(** [headingLevels[label]] of [buildDocumentHierarchy]. *)
Definition headingLevels (l : Label) : option string :=
  match l with
  | Title => Some "H1"
  | SectionHeader => Some "H2"
  | PageHeader => Some "H3"
  | Caption => Some "H4"
  | _ => None
  end.

(** ** Data model *)

(** A four-element array literal ([bbox], [bbox_normalized]) and a
    two-element one ([center]). *)
Definition array4 : Type := number * number * number * number.
Definition array2 : Type := number * number.

(** One raw prediction [[xmin, ymin, xmax, ymax, score, id]]. *)
Record Prediction := mkPrediction {
  p_xmin : number; p_ymin : number; p_xmax : number; p_ymax : number;
  p_score : number; p_id : number
}.

(** A detection object of [processPage].  [reading_order] is [None] until
    the [forEach] that follows the sort sets the property. *)
Record Detection := mkDetection {
  d_id : string;
  d_bbox : array4;
  d_bbox_normalized : array4;
  d_label : Label;
  d_confidence : number;
  d_area : number;
  d_center : array2;
  d_width : number;
  d_height : number;
  d_extractedText : string;
  d_reading_order : option Z
}.

Definition set_reading_order (d : Detection) (r : Z) : Detection :=
  mkDetection (d_id d) (d_bbox d) (d_bbox_normalized d) (d_label d)
    (d_confidence d) (d_area d) (d_center d) (d_width d) (d_height d)
    (d_extractedText d) (Some r).

(** What [processPage] reads from its collaborators: the image, the
    processor's reshaped size, the model's predictions, and the clock. *)
Record PageInput := mkPageInput {
  imagePath : string;
  image_width : number;
  image_height : number;
  newHeight : number;
  newWidth : number;
  predictions : list Prediction;
  elapsed : number
}.

(** The object [processPage] returns. *)
Record PageResult := mkPageResult {
  r_pageNumber : Z;
  r_processingTime : number;
  r_detections : list Detection;
  r_annotatedPath : string;
  r_sourceImagePath : string;
  r_imageWidth : number;
  r_imageHeight : number
}.

(** ** Text extraction *)
Section Pipeline.

(** [OCR_CONFIG.enabled && ocrWorker]: whether a worker is available. *)
Variable ocr_ready : bool.
(** The crop, recognition and whitespace clean-up of
    [extractTextFromRegion] for the given attempt: the cleaned text, or
    [None] when an exception is thrown on the way. *)
Variable recognize : string -> array4 -> Label -> nat -> option string.

Definition extractTextFromRegion
    (path : string) (bbox : array4) (elementType : Label) (attempt : nat)
    : string :=
  if negb ocr_ready
  then "[" +:+ label_name elementType +:+ " content - OCR not available]"
  else if decide (elementType = Picture)
  then "[" +:+ label_name elementType +:+ " - image content]"
  else match recognize path bbox elementType attempt with
       | Some cleanedText =>
           if (0 <? String.length cleanedText)%nat then cleanedText
           else "[" +:+ label_name elementType +:+ " - text extraction failed]"
       | None => "[" +:+ label_name elementType +:+ " - OCR error]"
       end.

(** The retry loop, [attempt] running from its current value while
    [remaining] attempts are left. *)
Fixpoint extractText_attempts
    (path : string) (bbox : array4) (elementType : Label)
    (attempt remaining : nat) : string :=
  match remaining with
  | O => "[" +:+ label_name elementType +:+ " content (Page)]"
  | S remaining' =>
      let text := extractTextFromRegion path bbox elementType attempt in
      if negb (String.eqb text "")
         && negb (includes "extraction failed" text)
         && negb (includes "OCR error" text)
      then text
      else extractText_attempts path bbox elementType (S attempt) remaining'
  end.

Definition extractTextWithRetry
    (path : string) (bbox : array4) (elementType : Label) : string :=
  extractText_attempts path bbox elementType 1 2.

(** ** Normalizer and sequencer: [processPage] *)
Local Open Scope float_scope.

(** The body of the [for ... of predictions] loop: [None] is [continue]. *)
Definition normalize
    (inp : PageInput) (pageNumber : Z) (count : nat) (p : Prediction)
    : option Detection :=
  let xs := image_width inp / newWidth inp in
  let ys := image_height inp / newHeight inp in
  if p_score p <? CONFIDENCE_THRESHOLD then None
  else
    let b0 := Math_round (p_xmin p * xs) in
    let b1 := Math_round (p_ymin p * ys) in
    let b2 := Math_round (p_xmax p * xs) in
    let b3 := Math_round (p_ymax p * ys) in
    let bbox := (b0, b1, b2, b3) in
    let label := default Unknown (id2label (p_id p)) in
    let extractedText := extractTextWithRetry (imagePath inp) bbox label in
    Some {|
      d_id := "page" +:+ pretty pageNumber +:+ "_detection"
                +:+ pretty (Z.of_nat count + 1)%Z;
      d_bbox := bbox;
      d_bbox_normalized :=
        (parseFloat (toFixed (b0 / image_width inp) 4),
         parseFloat (toFixed (b1 / image_height inp) 4),
         parseFloat (toFixed (b2 / image_width inp) 4),
         parseFloat (toFixed (b3 / image_height inp) 4));
      d_label := label;
      d_confidence := parseFloat (toFixed (p_score p) 3);
      d_area := Math_round ((b2 - b0) * (b3 - b1));
      d_center := (Math_round ((b0 + b2) / 2), Math_round ((b1 + b3) / 2));
      d_width := Math_round (b2 - b0);
      d_height := Math_round (b3 - b1);
      d_extractedText := extractedText;
      d_reading_order := None
    |}.

Definition push_detection
    (inp : PageInput) (pageNumber : Z)
    (detections : list Detection) (p : Prediction) : list Detection :=
  match normalize inp pageNumber (length detections) p with
  | Some detection => detections ++ [detection]
  | None => detections
  end.

(** The comparator of the reading-order sort. *)
Definition reading_cmp (a b : Detection) : number :=
  let yDiff := snd (d_center a) - snd (d_center b) in
  if 20 <? Math_abs yDiff then yDiff
  else fst (d_center a) - fst (d_center b).

Definition reading_before (a b : Detection) : bool :=
  reading_cmp a b <? 0.

Definition processPage (inp : PageInput) (pageNumber : Z) : PageResult :=
  let detections := fold_left (push_detection inp pageNumber) (predictions inp) [] in
  let detections := Array_sort reading_before detections in
  let detections := mapi (fun detection index =>
                            set_reading_order detection (index + 1)%Z)
                         detections in
  {| r_pageNumber := pageNumber;
     r_processingTime := elapsed inp;
     r_detections := detections;
     r_annotatedPath :=
       path_join ANNOTATED_DIR ("page_" +:+ pretty pageNumber +:+ "_annotated.png");
     r_sourceImagePath := imagePath inp;
     r_imageWidth := image_width inp;
     r_imageHeight := image_height inp |}.

End Pipeline.

(** ** Hierarchy builder: [buildDocumentHierarchy] *)

(** A detection of [allDetections]: the page's detection object spread
    into a new object with the page context. *)
Record EnrichedDetection := mkEnriched {
  e_detection : Detection;
  e_pageNumber : Z;
  e_sourceImagePath : string;
  e_annotatedImagePath : string;
  e_pageWidth : number;
  e_pageHeight : number
}.

(** The fields of a heading node other than [children].  The default
    section has no [bbox], [bbox_normalized] or [confidence]. *)
Record HeadingInfo := mkHeading {
  h_id : string;
  h_title : string;
  h_level : string;
  h_page : Z;
  h_bbox : option array4;
  h_bbox_normalized : option array4;
  h_confidence : option number
}.

Record ContentNode := mkContent {
  c_id : string;
  c_type : string;
  c_content : string;
  c_bbox : array4;
  c_bbox_normalized : array4;
  c_page : Z;
  c_confidence : number;
  c_width : number;
  c_height : number;
  c_area : number;
  c_reading_order : option Z
}.

(** Heading nodes are objects that [hierarchy], [headingStack] and their
    parent's [children] all refer to, and that grow through any of these
    references: they live in a heap, at the address they were allocated
    at.  Content nodes are never written after their creation. *)
Inductive Child :=
| ChildContent (c : ContentNode)
| ChildHeading (ref : nat).

Abbreviation Cell := (HeadingInfo * list Child)%type.

(** The state of the [forEach] of [buildDocumentHierarchy].  The array
    [headingStack] is kept top first: [push] is cons, [pop] is tail, and
    [headingStack[headingStack.length - 1]] is the head. *)
Record Builder := mkBuilder {
  heap : list Cell;
  hierarchy : list nat;
  headingStack : list nat
}.

Definition levelNum (level : string) : option Z :=
  parseInt (replace "H" "" level).

Definition level_at (hp : list Cell) (a : nat) : option Z :=
  match hp !! a with
  | Some cell => levelNum (h_level cell.1)
  | None => None
  end.

(** The [while] loop: pop while the top's level is [>= levelNum]. *)
Fixpoint pop_headings (hp : list Cell) (lvl : option Z) (stack : list nat)
    : list nat :=
  match stack with
  | [] => []
  | top :: rest =>
      if num_ge (level_at hp top) lvl then pop_headings hp lvl rest else stack
  end.

(** [node.children.push(c)] for the node at address [a]. *)
Definition push_child (a : nat) (c : Child) (hp : list Cell) : list Cell :=
  alter (fun cell => (cell.1, cell.2 ++ [c])) a hp.

(** [extractedText || fallback]: the empty string is the one falsy string. *)
Definition or_fallback (extractedText fallback : string) : string :=
  if String.eqb extractedText "" then fallback else extractedText.

Definition headingNode (level : string) (d : EnrichedDetection) : HeadingInfo :=
  let det := e_detection d in
  {| h_id := d_id det;
     h_title := or_fallback (d_extractedText det)
                  (label_name (d_label det) +:+ " (Page "
                     +:+ pretty (e_pageNumber d) +:+ ")");
     h_level := level;
     h_page := e_pageNumber d;
     h_bbox := Some (d_bbox det);
     h_bbox_normalized := Some (d_bbox_normalized det);
     h_confidence := Some (d_confidence det) |}.

Definition contentNode (d : EnrichedDetection) : ContentNode :=
  let det := e_detection d in
  {| c_id := d_id det;
     c_type := replace "-" "_" (toLowerCase (label_name (d_label det)));
     c_content := or_fallback (d_extractedText det)
                    (label_name (d_label det) +:+ " content (Page "
                       +:+ pretty (e_pageNumber d) +:+ ")");
     c_bbox := d_bbox det;
     c_bbox_normalized := d_bbox_normalized det;
     c_page := e_pageNumber d;
     c_confidence := d_confidence det;
     c_width := d_width det;
     c_height := d_height det;
     c_area := d_area det;
     c_reading_order := d_reading_order det |}.

Definition defaultSection (pageNumber : Z) : HeadingInfo :=
  {| h_id := "default_section_page_" +:+ pretty pageNumber;
     h_title := "Content (Page " +:+ pretty pageNumber +:+ ")";
     h_level := "H1";
     h_page := pageNumber;
     h_bbox := None;
     h_bbox_normalized := None;
     h_confidence := None |}.

(** The body of [sortedDetections.forEach]. *)
Definition place (b : Builder) (d : EnrichedDetection) : Builder :=
  match headingLevels (d_label (e_detection d)) with
  | Some level =>
      let node := length (heap b) in
      let hp := heap b ++ [(headingNode level d, [])] in
      match pop_headings hp (levelNum level) (headingStack b) with
      | [] =>
          {| heap := hp;
             hierarchy := hierarchy b ++ [node];
             headingStack := [node] |}
      | top :: rest =>
          {| heap := push_child top (ChildHeading node) hp;
             hierarchy := hierarchy b;
             headingStack := node :: top :: rest |}
      end
  | None =>
      match headingStack b with
      | top :: _ =>
          {| heap := push_child top (ChildContent (contentNode d)) (heap b);
             hierarchy := hierarchy b;
             headingStack := headingStack b |}
      | [] =>
          let node := length (heap b) in
          {| heap := heap b ++ [(defaultSection (e_pageNumber d),
                                 [ChildContent (contentNode d)])];
             hierarchy := hierarchy b ++ [node];
             headingStack := [node] |}
      end
  end.

(** The comparator of the sort by page and reading order; [None] is NaN
    (a [reading_order] that was never set). *)
Definition document_cmp (a b : EnrichedDetection) : option Z :=
  if negb (e_pageNumber a =? e_pageNumber b)
  then Some (e_pageNumber a - e_pageNumber b)
  else match d_reading_order (e_detection a), d_reading_order (e_detection b) with
       | Some ra, Some rb => Some (ra - rb)
       | _, _ => None
       end.

Definition document_before (a b : EnrichedDetection) : bool :=
  match document_cmp a b with
  | Some v => v <? 0
  | None => false
  end.

(** The value the returned [hierarchy] serializes to: the referenced
    objects, read out of the heap. *)
Inductive Node :=
| ContentLeaf (c : ContentNode)
| Heading (h : HeadingInfo) (children : list Node).

(** The nodes of the cells at addresses [base], [base + 1], ...  A child
    reference always points to a cell allocated after its parent
    (lemma [place_keeps_wf] below), so the children of a cell are found
    among the nodes of the later cells. *)
Fixpoint read_cells (base : nat) (cells : list Cell) : list Node :=
  match cells with
  | [] => []
  | (info, children) :: rest =>
      let later := read_cells (S base) rest in
      Heading info
        (omap (fun c =>
                 match c with
                 | ChildContent c => Some (ContentLeaf c)
                 | ChildHeading a =>
                     if decide (base < a)%nat then later !! (a - S base)%nat
                     else None
                 end) children)
      :: later
  end.

Definition read_hierarchy (b : Builder) : list Node :=
  let nodes := read_cells 0 (heap b) in
  omap (fun a => nodes !! a) (hierarchy b).

Definition empty_builder : Builder := mkBuilder [] [] [].

(** [buildDocumentHierarchy(detections)]: the first component is the
    array [detections] as the call leaves it (the sort is in place), the
    second the returned hierarchy. *)
Definition buildDocumentHierarchy (detections : list EnrichedDetection)
    : list EnrichedDetection * list Node :=
  let sortedDetections := Array_sort document_before detections in
  (sortedDetections,
   read_hierarchy (fold_left place sortedDetections empty_builder)).

(** ** Export assembler: [saveBoundingBoxesToJson] *)

(** An element of [pages[i].detections]: [{...det, pageNumber}]. *)
Record PageDetection := mkPageDetection {
  pd_detection : Detection;
  pd_pageNumber : Z
}.

Record PageView := mkPageView {
  pv_pageNumber : Z;
  pv_processingTime : number;
  pv_sourceImagePath : string;
  pv_annotatedImagePath : string;
  pv_imageWidth : number;
  pv_imageHeight : number;
  pv_detectionsCount : Z;
  pv_detections : list PageDetection
}.

Record Suggestion := mkSuggestion {
  s_id : string;
  s_pageNumber : Z;
  s_bbox : array4;
  s_bbox_normalized : array4;
  s_priority : string;
  s_processingNote : option string
}.

Record Suggestions := mkSuggestions {
  textElements : list Suggestion;
  titleElements : list Suggestion;
  tableElements : list Suggestion;
  listElements : list Suggestion
}.

(** [metadata], without [processedAt] and [pdfPath] (the clock and the
    command line). *)
Record Metadata := mkMetadata {
  totalPages : Z;
  totalDetections : Z;
  processingTime : number;
  averageTimePerPage : fixed_string;
  confidence_threshold : number;
  elementTypeCounts : list (Label * Z)
}.

Record JsonOutput := mkJsonOutput {
  metadata : Metadata;
  documentStructure : list Node;
  allDetections : list EnrichedDetection;
  pages : list PageView;
  ocrProcessingSuggestions : Suggestions
}.

(** One line of [detections_summary.csv], as the values its template
    interpolates. *)
Record CsvRow := mkCsvRow {
  csv_page : Z;
  csv_label : string;
  csv_confidence : number;
  csv_bbox : array4;
  csv_width : number;
  csv_height : number;
  csv_area : number;
  csv_reading_order : option Z
}.

Definition enrich (pageResult : PageResult) (detection : Detection)
    : EnrichedDetection :=
  {| e_detection := detection;
     e_pageNumber := r_pageNumber pageResult;
     e_sourceImagePath := r_sourceImagePath pageResult;
     e_annotatedImagePath := r_annotatedPath pageResult;
     e_pageWidth := r_imageWidth pageResult;
     e_pageHeight := r_imageHeight pageResult |}.

(** [elementsByType]: an object used as a map from label to array, its
    keys in insertion order. *)
Definition ByType : Type := list (Label * list EnrichedDetection).

Fixpoint by_type_get (m : ByType) (l : Label) : option (list EnrichedDetection) :=
  match m with
  | [] => None
  | (k, v) :: m' => if decide (k = l) then Some v else by_type_get m' l
  end.

Fixpoint by_type_push (m : ByType) (l : Label) (e : EnrichedDetection) : ByType :=
  match m with
  | [] => [(l, [e])]
  | (k, v) :: m' =>
      if decide (k = l) then (k, v ++ [e]) :: m'
      else (k, v) :: by_type_push m' l e
  end.

(** The two nested [forEach] loops that fill [elementsByType] and
    [allDetections]. *)
Definition collect_detection (pageResult : PageResult)
    (acc : ByType * list EnrichedDetection) (detection : Detection)
    : ByType * list EnrichedDetection :=
  let enrichedDetection := enrich pageResult detection in
  (by_type_push acc.1 (d_label detection) enrichedDetection,
   acc.2 ++ [enrichedDetection]).

Definition collect_page (acc : ByType * list EnrichedDetection)
    (pageResult : PageResult) : ByType * list EnrichedDetection :=
  fold_left (collect_detection pageResult) (r_detections pageResult) acc.

Definition suggestion (priority : string) (note : option string)
    (det : EnrichedDetection) : Suggestion :=
  {| s_id := d_id (e_detection det);
     s_pageNumber := e_pageNumber det;
     s_bbox := d_bbox (e_detection det);
     s_bbox_normalized := d_bbox_normalized (e_detection det);
     s_priority := priority;
     s_processingNote := note |}.

Definition page_view (pageResult : PageResult) : PageView :=
  {| pv_pageNumber := r_pageNumber pageResult;
     pv_processingTime := r_processingTime pageResult;
     pv_sourceImagePath := r_sourceImagePath pageResult;
     pv_annotatedImagePath := r_annotatedPath pageResult;
     pv_imageWidth := r_imageWidth pageResult;
     pv_imageHeight := r_imageHeight pageResult;
     pv_detectionsCount := Z.of_nat (length (r_detections pageResult));
     pv_detections :=
       map (fun det => mkPageDetection det (r_pageNumber pageResult))
           (r_detections pageResult) |}.

Definition csv_row (det : EnrichedDetection) : CsvRow :=
  {| csv_page := e_pageNumber det;
     csv_label := label_name (d_label (e_detection det));
     csv_confidence := d_confidence (e_detection det);
     csv_bbox := d_bbox (e_detection det);
     csv_width := d_width (e_detection det);
     csv_height := d_height (e_detection det);
     csv_area := d_area (e_detection det);
     csv_reading_order := d_reading_order (e_detection det) |}.

(** What [saveBoundingBoxesToJson] writes: the JSON document and the CSV
    rows.  [buildDocumentHierarchy] is called on the array [allDetections]
    itself, so the document and the CSV hold it as that call left it. *)
Definition saveBoundingBoxesToJson (results : list PageResult) (totalTime : number)
    : JsonOutput * list CsvRow :=
  let '(elementsByType, allDetections0) := fold_left collect_page results ([], []) in
  let '(allDetections, documentHierarchy) := buildDocumentHierarchy allDetections0 in
  let of_type l := default [] (by_type_get elementsByType l) in
  ({| metadata :=
        {| totalPages := Z.of_nat (length results);
           totalDetections := Z.of_nat (length allDetections);
           processingTime := totalTime;
           averageTimePerPage :=
             toFixed (totalTime / of_integer (Z.of_nat (length results)))%float 2;
           confidence_threshold := CONFIDENCE_THRESHOLD;
           elementTypeCounts :=
             map (fun kv => (kv.1, Z.of_nat (length kv.2))) elementsByType |};
      documentStructure := documentHierarchy;
      allDetections := allDetections;
      pages := map page_view results;
      ocrProcessingSuggestions :=
        {| textElements := map (suggestion "high" None) (of_type Text);
           titleElements := map (suggestion "highest" None) (of_type Title);
           tableElements :=
             map (suggestion "high"
                    (Some "Use table-specific OCR for better structure recognition"))
                 (of_type Table);
           listElements := map (suggestion "medium" None) (of_type ListItem) |} |},
   map csv_row allDetections).

(** ** The pipeline of [main] *)
Section Main.
Variable ocr_ready : bool.
Variable recognize : string -> array4 -> Label -> nat -> option string.

(** The loop over [imagePaths]: page [i] is processed as page number
    [i + 1]. *)
Definition process_pages (inputs : list PageInput) : list PageResult :=
  mapi (fun inp i => processPage ocr_ready recognize inp (i + 1)) inputs.

Definition main (inputs : list PageInput) (totalTime : number)
    : JsonOutput * list CsvRow :=
  saveBoundingBoxesToJson (process_pages inputs) totalTime.
End Main.

(** ** The OCR worker: [initializeOCRWorker] *)

Definition OCR_language : string := "eng".

(** [initializeOCRWorker()], as the value it leaves in the global
    [ocrWorker]; [createWorker] gives [None] when it throws. *)
Definition initializeOCRWorker {W : Type}
    (enabled : bool) (createWorker : string -> option W) (ocrWorker : option W)
    : option W :=
  if negb enabled || bool_decide (is_Some ocrWorker) then ocrWorker
  else match createWorker OCR_language with
       | Some worker => Some worker
       | None => ocrWorker
       end.

(** [OCR_CONFIG.enabled && ocrWorker], the negation of the test
    [extractTextFromRegion] starts with. *)
Definition worker_ready {W : Type} (enabled : bool) (ocrWorker : option W) : bool :=
  enabled && bool_decide (is_Some ocrWorker).

(** ** The extraction count of [main] *)

(** The filter [main] counts the text extractions of a page with, and the
    count ([textExtractions], and [textCount] in the breakdown). *)
Definition text_extracted (d : Detection) : bool :=
  negb (String.eqb (d_extractedText d) "")
  && negb (includes "OCR not available" (d_extractedText d))
  && negb (includes "extraction failed" (d_extractedText d)).

Definition textExtractions (result : PageResult) : Z :=
  Z.of_nat (length (List.filter text_extracted (r_detections result))).

(** ** From the PDF to the page images: [tryPdfPoppler], [convertPdfToImages] *)

(** [s.endsWith(suffix)]. *)
Definition endsWith (suffix s : string) : bool :=
  (String.length suffix <=? String.length s)%nat
  && String.eqb
       (String.substring (String.length s - String.length suffix)
          (String.length suffix) s)
       suffix.

Definition TEMP_DIR : string := "./temp_images".

(** What a call that may throw comes to: the value it returns, or the
    message of the error it throws. *)
Inductive outcome (A : Type) :=
| Returns (value : A)
| Throws (message : string).
Arguments Returns {A} value.
Arguments Throws {A} message.

Section Conversion.
(** Whether the import of pdf-poppler succeeded. *)
Variable pdfPoppler_loaded : bool.
(** [pdfPoppler.convert(pdfPath, options)], and [fs.readdir(dir)] after
    it. *)
Variable convert : string -> outcome unit.
Variable readdir : string -> outcome (list string).

(** [tryPdfPoppler(pdfPath)]; a [sort()] without comparator orders the
    names as strings, code unit by code unit. *)
Definition tryPdfPoppler (pdfPath : string) : outcome (list string) :=
  if negb pdfPoppler_loaded then Throws "pdf-poppler not available"
  else match convert pdfPath with
       | Throws message => Throws message
       | Returns _ =>
           match readdir TEMP_DIR with
           | Throws message => Throws message
           | Returns files =>
               let pngFiles :=
                 Array_sort String.ltb (List.filter (endsWith ".png") files) in
               Returns (map (fun f => path_join TEMP_DIR f) pngFiles)
           end
       end.

(** [convertPdfToImages(pdfPath)], whose list of methods holds
    [tryPdfPoppler] alone; [lastError] is still [undefined] when the method
    returned no path. *)
Definition convertPdfToImages (pdfPath : string) : outcome (list string) :=
  match tryPdfPoppler pdfPath with
  | Returns imagePaths =>
      if (0 <? length imagePaths)%nat then Returns imagePaths
      else Throws ("All PDF conversion methods failed. Last error: " +:+ "undefined")
  | Throws message =>
      Throws ("All PDF conversion methods failed. Last error: " +:+ message)
  end.
End Conversion.

(** ** The clean-up of a recognized text *)

(** The text the worker recognizes is any string: it is taken as the list
    of its UTF-16 code units.  [is_whitespace] is the class [\s] of a
    regular expression, which is also what [trim] removes (WhiteSpace and
    LineTerminator). *)
Definition is_whitespace (c : Z) : bool :=
  ((9 <=? c) && (c <=? 13)) || (c =? 32) || (c =? 160) || (c =? 5760)
  || ((8192 <=? c) && (c <=? 8202)) || (c =? 8232) || (c =? 8233)
  || (c =? 8239) || (c =? 8287) || (c =? 12288) || (c =? 65279).

Fixpoint trimStart (text : list Z) : list Z :=
  match text with
  | [] => []
  | c :: rest => if is_whitespace c then trimStart rest else text
  end.

Definition trimEnd (text : list Z) : list Z :=
  reverse (trimStart (reverse text)).

(** [text.trim()]. *)
Definition trim (text : list Z) : list Z := trimEnd (trimStart text).

(** [text.replace(/\s+/g, " ")]: each maximal run of whitespace is
    replaced by one space; [in_run] tells that the code unit before was
    whitespace. *)
Fixpoint replace_whitespace (in_run : bool) (text : list Z) : list Z :=
  match text with
  | [] => []
  | c :: rest =>
      if is_whitespace c
      then (if in_run then [] else [32]) ++ replace_whitespace true rest
      else c :: replace_whitespace false rest
  end.

(** [cleanedText] of [extractTextFromRegion]. *)
Definition cleanText (text : list Z) : list Z :=
  replace_whitespace false (trim text).

(** ** The annotated image: [createAnnotatedImage] *)

(** [colors[label]]; ["Unknown"] is not a key of the table. *)
Definition colors (l : Label) : option string :=
  match l with
  | Title => Some "#FF0000"
  | SectionHeader => Some "#00FF00"
  | Text => Some "#0000FF"
  | ListItem => Some "#FF00FF"
  | Table => Some "#FFFF00"
  | Picture => Some "#00FFFF"
  | Caption => Some "#FFA500"
  | Formula => Some "#800080"
  | Footnote => Some "#808080"
  | PageHeader => Some "#008000"
  | PageFooter => Some "#800000"
  | Unknown => None
  end.

(** The calls on the 2D context that draw: the style and the alpha they
    are made under, and their arguments.  The text of [fillText] is kept
    as the two values its template interpolates. *)
Inductive CanvasCall :=
| drawImage (dx dy : number)
| strokeRect (strokeStyle : string) (x y w h : number)
| fillRect (fillStyle : string) (globalAlpha : number) (x y w h : number)
| fillText (fillStyle : string) (globalAlpha : number)
    (label : string) (percent : fixed_string) (x y : number).

Local Open Scope float_scope.

(** The body of the [forEach] of [createAnnotatedImage]. *)
Definition annotate (detection : Detection) : list CanvasCall :=
  let '(xmin, ymin, xmax, ymax) := d_bbox detection in
  let color := default "#FFFFFF" (colors (d_label detection)) in
  [ strokeRect color xmin ymin (xmax - xmin) (ymax - ymin);
    fillRect color 0.7 xmin (ymin - 20) 250 20;
    fillText "#000000" 1.0 (label_name (d_label detection))
      (toFixed (d_confidence detection * 100) 1) (xmin + 2) (ymin - 18) ].

(** [createAnnotatedImage(imagePath, detections, outputPath)], as the
    calls that draw on the canvas it saves. *)
Definition createAnnotatedImage (detections : list Detection) : list CanvasCall :=
  drawImage 0 0 :: (detections ≫= annotate).

Local Close Scope float_scope.

(** ** The matching utilities: [fuzzyMatch], [cosineSimilarity] *)

(** Whether a number is truthy: it is neither a zero nor NaN. *)
Definition truthy (x : number) : bool :=
  negb (x =? 0)%float && negb (PrimFloat.is_nan x).

(** [Array.from(new Set(tokens))]: the distinct tokens, each at the place
    of its first occurrence. *)
Definition Set_values (tokens : list string) : list string :=
  fold_left (fun values t => if decide (t ∈ values) then values else values ++ [t])
            tokens [].

(** [tokens.filter(x => x === t).length]. *)
Definition occurrences (t : string) (tokens : list string) : number :=
  of_integer (Z.of_nat (length (filter (fun x => x = t) tokens))).

Section Matching.
(** [natural.LevenshteinDistance] and the [tokenize] of a
    [natural.WordTokenizer]. *)
Variable LevenshteinDistance : string -> string -> number.
Variable tokenize : string -> list string.
Local Open Scope float_scope.

(** [fuzzyMatch(a, b)], on ASCII strings (whose [length] is their number
    of characters). *)
Definition fuzzyMatch (a b : string) : number :=
  let lev := LevenshteinDistance (toLowerCase a) (toLowerCase b) in
  let maxLen :=
    of_integer (Z.of_nat (Nat.max (String.length a) (String.length b))) in
  1 - lev / maxLen.

(** [cosineSimilarity(a, b)], on ASCII strings; [aVec] and [bVec] have
    the length of [allTokens], so that [bVec[i]] is the element that goes
    with [val]. *)
Definition cosineSimilarity (a b : string) : number :=
  let aTokens := tokenize (toLowerCase a) in
  let bTokens := tokenize (toLowerCase b) in
  let allTokens := Set_values (aTokens ++ bTokens) in
  let aVec := map (fun t => occurrences t aTokens) allTokens in
  let bVec := map (fun t => occurrences t bTokens) allTokens in
  let dot := fold_left (fun sum vw => sum + vw.1 * vw.2) (zip aVec bVec) 0 in
  let aMag := sqrt (fold_left (fun sum val => sum + val * val) aVec 0) in
  let bMag := sqrt (fold_left (fun sum val => sum + val * val) bVec 0) in
  if truthy aMag && truthy bMag then dot / (aMag * bMag) else 0.
End Matching.

(** ** The crop of a region *)

(** The test of the canvas method on the size of the crop. *)
Definition too_small (bbox : array4) : bool :=
  let '(b0, b1, b2, b3) := bbox in
  let cropWidth := (b2 - b0)%float in
  let cropHeight := (b3 - b1)%float in
  (cropWidth <? 10)%float || (cropHeight <? 10)%float.

Section Region.
(** Whether [Jimp] is set: the import of the module succeeded. *)
Variable Jimp_loaded : bool.
(** Whether the steps of the canvas method other than the size test
    ([loadImage], [createCanvas], [drawImage], [toBuffer], [writeFile]) go
    through, and whether those of the Jimp method ([read], [crop],
    [writeAsync]) do. *)
Variable canvas_ok : string -> array4 -> nat -> bool.
Variable jimp_ok : string -> array4 -> nat -> bool.
(** The text the worker recognizes in the cropped file, cleaned; [None]
    when [recognize] throws. *)
Variable worker_text : string -> array4 -> nat -> option string.

(** The two methods of [extractTextFromRegion] that write the cropped
    file: [true] when one of them does, [false] when an error leaves the
    outer [try]. *)
Definition crop_region (path : string) (bbox : array4) (attempt : nat) : bool :=
  if negb (too_small bbox) && canvas_ok path bbox attempt then true
  else if Jimp_loaded then jimp_ok path bbox attempt
  else false.

(** The part of [extractTextFromRegion] between [try] and the test of
    [cleanedText.length]. *)
Definition recognize_region
    (path : string) (bbox : array4) (elementType : Label) (attempt : nat)
    : option string :=
  if crop_region path bbox attempt then worker_text path bbox attempt else None.
End Region.

(** * Vocabulary of the properties *)

(** ** The normalizer and the sequencer *)

(** A prediction survives the filter when its score is not below the
    threshold. *)
Definition survives (p : Prediction) : bool :=
  negb (p_score p <? CONFIDENCE_THRESHOLD)%float.

(** The array [detections] when the loop over the predictions ends. *)
Definition candidates
    (ocr_ready : bool) (recognize : string -> array4 -> Label -> nat -> option string)
    (inp : PageInput) (pageNumber : Z) : list Detection :=
  fold_left (push_detection ocr_ready recognize inp pageNumber) (predictions inp) [].

(** [d] is the detection the loop builds for some surviving prediction
    of the page. *)
Definition built_from
    (ocr_ready : bool) (recognize : string -> array4 -> Label -> nat -> option string)
    (inp : PageInput) (pageNumber : Z) (p : Prediction) (d : Detection) : Prop :=
  p ∈ predictions inp /\ survives p = true /\
  exists count, normalize ocr_ready recognize inp pageNumber count p = Some d.

(** [in_order before l]: no element of [l] comes before an earlier one. *)
Inductive in_order {A : Type} (before : A -> A -> bool) : list A -> Prop :=
| in_order_nil : in_order before []
| in_order_snoc l x :
    in_order before l -> Forall (fun y => before x y = false) l ->
    in_order before (l ++ [x]).

(** [closest_digits n m e f]: [n] is the integer closest to
    [m * 2^e * 10^f], the larger one of two equally close. *)
Definition closest_digits (n : Z) (m : positive) (e : Z) (f : nat) : Prop :=
  if 0 <=? e then n = Z.pos m * 10 ^ Z.of_nat f * 2 ^ e
  else - 2 ^ (- e) < 2 * (n * 2 ^ (- e) - Z.pos m * 10 ^ Z.of_nat f) <= 2 ^ (- e).

(** ** The heap and the stack of the hierarchy builder *)

(** A detection whose label has no heading level. *)
Definition is_content (d : EnrichedDetection) : Prop :=
  headingLevels (d_label (e_detection d)) = None.

(** [level_lt hp a r]: the node at [a] has a strictly smaller level number
    than the node at [r]. *)
Definition level_lt (hp : list Cell) (a r : nat) : Prop :=
  exists ka kr, level_at hp a = Some ka /\ level_at hp r = Some kr /\ ka < kr.

(** Every node has a level that is a number, and every reference among
    the children of a node points to a node allocated later, of a
    strictly larger level number. *)
Definition heap_wf (hp : list Cell) : Prop :=
  forall a cell, hp !! a = Some cell ->
    is_Some (levelNum (h_level cell.1))
    /\ forall r, ChildHeading r ∈ cell.2 ->
         (a < r < length hp)%nat /\ level_lt hp a r.

(** [below hp bound stack]: from the top of the stack down, the level
    numbers are below [bound] and strictly decreasing. *)
Fixpoint below (hp : list Cell) (bound : Z) (stack : list nat) : Prop :=
  match stack with
  | [] => True
  | a :: rest => exists k, level_at hp a = Some k /\ k < bound /\ below hp k rest
  end.

(** The level numbers of the stack, from its bottom to its top. *)
Definition stack_levels (b : Builder) : list (option Z) :=
  level_at (heap b) <$> reverse (headingStack b).

(** A list of level numbers that are all defined and strictly increasing. *)
Definition strictly_increasing (levels : list (option Z)) : Prop :=
  exists ks, levels = Some <$> ks /\ StronglySorted Z.lt ks.

(** The invariant of the builder: a well-formed heap, a stack whose level
    numbers decrease strictly from the top down, and top-level addresses
    that are allocated. *)
Record builder_wf (b : Builder) : Prop := {
  wf_heap : heap_wf (heap b);
  wf_stack : below (heap b) 5 (headingStack b);
  wf_hierarchy : Forall (fun a => (a < length (heap b))%nat) (hierarchy b)
}.

(** Every heading node of the heap satisfies [PH] and every content node
    [PC]. *)
Definition cells_ok (PH : HeadingInfo -> Prop) (PC : ContentNode -> Prop)
    (hp : list Cell) : Prop :=
  forall a cell, hp !! a = Some cell ->
    PH cell.1 /\ forall c, ChildContent c ∈ cell.2 -> PC c.

(** Every node of the heap is at top level or a child of another node. *)
Definition heap_attached (b : Builder) : Prop :=
  forall a, (a < length (heap b))%nat ->
    a ∈ hierarchy b
    \/ exists a' cell, heap b !! a' = Some cell /\ ChildHeading a ∈ cell.2.

(** The node made for a detection is in the heap. *)
Definition placed_in (hp : list Cell) (d : EnrichedDetection) : Prop :=
  match headingLevels (d_label (e_detection d)) with
  | Some level => exists a ch, hp !! a = Some (headingNode level d, ch)
  | None => exists a cell, hp !! a = Some cell /\ ChildContent (contentNode d) ∈ cell.2
  end.

(** ** The hierarchy returned *)

(** A node and all the nodes below it. *)
Fixpoint subnodes (n : Node) : list Node :=
  n :: match n with
       | ContentLeaf _ => []
       | Heading _ kids => kids ≫= subnodes
       end.

(** All the nodes of a forest. *)
Definition forest_nodes (forest : list Node) : list Node := forest ≫= subnodes.

(** What a node shows of the detection or section it was made for. *)
Definition node_ok (PH : HeadingInfo -> Prop) (PC : ContentNode -> Prop)
    (n : Node) : Prop :=
  match n with
  | ContentLeaf c => PC c
  | Heading h _ => PH h
  end.

(** A heading node is a default section or the node of a heading
    detection of [src]; a content node is the node of a content detection
    of [src]. *)
Definition heading_from (src : EnrichedDetection -> Prop) (h : HeadingInfo) : Prop :=
  (exists pageNumber, h = defaultSection pageNumber)
  \/ exists d level,
       src d /\ headingLevels (d_label (e_detection d)) = Some level
       /\ h = headingNode level d.

Definition content_from (src : EnrichedDetection -> Prop) (c : ContentNode) : Prop :=
  exists d, src d /\ is_content d /\ c = contentNode d.

(** The page, and the id, a node shows. *)
Definition node_page (n : Node) : Z :=
  match n with
  | ContentLeaf c => c_page c
  | Heading h _ => h_page h
  end.

Definition node_id (n : Node) : string :=
  match n with
  | ContentLeaf c => c_id c
  | Heading h _ => h_id h
  end.

(** The title of a heading node, the content of a content node. *)
Definition node_text (n : Node) : string :=
  match n with
  | ContentLeaf c => c_content c
  | Heading h _ => h_title h
  end.

(** The placeholder patterns the program tests extracted texts for. *)
Definition reserved_placeholder (text : string) : bool :=
  includes "OCR not available" text
  || includes "extraction failed" text
  || includes "OCR error" text.

(** ** The export *)

(** The detections of all pages, enriched, in the order of the pages. *)
Definition collected (results : list PageResult) : list EnrichedDetection :=
  results ≫= (fun r => enrich r <$> r_detections r).

(** The detections [elementsByType] files under the label [l]. *)
Definition has_label (l : Label) (e : EnrichedDetection) : Prop :=
  d_label (e_detection e) = l.

#[global] Instance has_label_dec l e : Decision (has_label l e).
Proof. unfold has_label. apply _. Defined.

(** Each array of [elementsByType] holds the detections of its label, in
    the order they were collected. *)
Definition by_type_spec (m : ByType) (all : list EnrichedDetection) : Prop :=
  forall l, default [] (by_type_get m l) = filter (has_label l) all.

(** [d] was built, on page [pageNumber] of [inputs], for a prediction
    whose score is not below the threshold. *)
Definition from_surviving_prediction
    ocr_ready recognize (inputs : list PageInput) (pageNumber : Z) (d : Detection)
    : Prop :=
  exists i inp p count d0 r,
    inputs !! i = Some inp /\ pageNumber = Z.of_nat i + 1
    /\ p ∈ predictions inp
    /\ (p_score p <? CONFIDENCE_THRESHOLD)%float = false
    /\ normalize ocr_ready recognize inp pageNumber count p = Some d0
    /\ d = set_reading_order d0 r.

(** [a] is not after [b] in the order of the document: by page, then by
    reading order. *)
Definition document_le (a b : EnrichedDetection) : Prop :=
  e_pageNumber a < e_pageNumber b
  \/ (e_pageNumber a = e_pageNumber b
      /\ exists ra rb, d_reading_order (e_detection a) = Some ra
                       /\ d_reading_order (e_detection b) = Some rb /\ ra <= rb).

(** The finalized detection list: ordered by page, then reading order. *)
Definition finalized (l : list EnrichedDetection) : Prop :=
  StronglySorted document_le l.

(** ** The text extraction *)

(** A text the retry loop accepts from [extractTextFromRegion]: not empty
    and without a failure marker. *)
Definition usable (text : string) : bool :=
  negb (String.eqb text "")
  && negb (includes "extraction failed" text)
  && negb (includes "OCR error" text).

(** An attempt of the recognizer the retry loop does not accept: it threw,
    or its text is not usable. *)
Definition rejected (r : option string) : Prop :=
  match r with
  | Some t => usable t = false
  | None => True
  end.

(** ** Counts and ids *)

(** The sum of a list of counts. *)
Definition total (counts : list Z) : Z := foldr Z.add 0 counts.

(** The lengths of the arrays of [elementsByType]. *)
Fixpoint by_type_sizes (m : ByType) : list Z :=
  match m with
  | [] => []
  | (_, v) :: m' => Z.of_nat (length v) :: by_type_sizes m'
  end.

(** [elementsByType] as the loops keep it: no key twice, no empty array. *)
Definition by_type_wf (m : ByType) : Prop :=
  NoDup m.*1 /\ Forall (fun kv => kv.2 <> []) m.

(** The id of the [k]-th detection pushed on page [pageNumber]. *)
Definition detection_id (pageNumber k : Z) : string :=
  "page" +:+ pretty pageNumber +:+ "_detection" +:+ pretty k.

(** A string without the character [c]; the part of a string before its
    first [c], and the part after it. *)
Fixpoint free_of (c : ascii) (s : string) : bool :=
  match s with
  | EmptyString => true
  | String c' s' => negb (Ascii.eqb c' c) && free_of c s'
  end.

Fixpoint before_char (c : ascii) (s : string) : string :=
  match s with
  | EmptyString => EmptyString
  | String c' s' => if Ascii.eqb c' c then EmptyString else String c' (before_char c s')
  end.

Fixpoint after_char (c : ascii) (s : string) : string :=
  match s with
  | EmptyString => EmptyString
  | String c' s' => if Ascii.eqb c' c then s' else after_char c s'
  end.

(** ** Detections with a reading order *)

(** A detection whose [reading_order] has been set. *)
Definition has_reading_order (e : EnrichedDetection) : Prop :=
  is_Some (d_reading_order (e_detection e)).

(** ** Cleaned texts *)

(** A text in which every whitespace code unit is a space that comes
    after a code unit that is not whitespace, and that does not end in
    whitespace; [after_word] tells that the code unit before was not
    whitespace. *)
Fixpoint single_spaced (after_word : bool) (text : list Z) : bool :=
  match text with
  | [] => after_word
  | c :: rest =>
      if is_whitespace c then after_word && (c =? 32) && single_spaced false rest
      else single_spaced true rest
  end.

(** The code units of a text that are not whitespace. *)
Definition letters (text : list Z) : list Z :=
  List.filter (fun c => negb (is_whitespace c)) text.

(** ** The annotated image *)

(** The colour of the box and of the label background of a detection. *)
Definition box_color (detection : Detection) : string :=
  default "#FFFFFF" (colors (d_label detection)).

(** The boxes stroked by a list of calls, with their colours. *)
Definition stroked (calls : list CanvasCall) : list (string * array4) :=
  omap (fun call =>
          match call with
          | strokeRect color x y w h => Some (color, (x, y, w, h))
          | _ => None
          end) calls.

(** ** Numbers *)

(** NaN, Infinity or -Infinity. *)
Definition not_finite (x : number) : Prop :=
  match Prim2SF x with
  | S754_nan | S754_infinity _ => True
  | _ => False
  end.

(** ** The outline of a hierarchy *)

(** What a node shows apart from its children. *)
Inductive Item :=
| ItemHeading (h : HeadingInfo)
| ItemContent (c : ContentNode).

Definition node_item (n : Node) : Item :=
  match n with
  | ContentLeaf c => ItemContent c
  | Heading h _ => ItemHeading h
  end.

(** The nodes of a hierarchy in the order of a reader: every heading
    before its children, the children in their order. *)
Definition outline (forest : list Node) : list Item :=
  node_item <$> forest_nodes forest.

(** The node the builder makes for a detection. *)
Definition detection_item (d : EnrichedDetection) : Item :=
  match headingLevels (d_label (e_detection d)) with
  | Some level => ItemHeading (headingNode level d)
  | None => ItemContent (contentNode d)
  end.

(** The nodes one step of the builder adds. *)
Definition placed_items (b : Builder) (d : EnrichedDetection) : list Item :=
  match headingLevels (d_label (e_detection d)), headingStack b with
  | None, [] => [ItemHeading (defaultSection (e_pageNumber d)); detection_item d]
  | _, _ => [detection_item d]
  end.

(** The outline of the subtree of a node, and of the child [c] of the
    cell at address [a] when [nodes] are the nodes read from the heap. *)
Definition flat (n : Node) : list Item := node_item <$> subnodes n.

Definition kid_items (nodes : list Node) (a : nat) (c : Child) : list Item :=
  match c with
  | ChildContent c => [ItemContent c]
  | ChildHeading r =>
      if decide (a < r)%nat then from_option flat [] (nodes !! r) else []
  end.

(** [child] is the last child of the cell at [parent]. *)
Definition last_child (hp : list Cell) (parent child : nat) : Prop :=
  exists info ch, hp !! parent = Some (info, ch ++ [ChildHeading child]).

(** Along the stack, every node is the last child of the node below it. *)
Fixpoint spine (hp : list Cell) (stack : list nat) : Prop :=
  match stack with
  | child :: rest =>
      match rest with
      | parent :: _ => last_child hp parent child /\ spine hp rest
      | [] => True
      end
  | [] => True
  end.

(** The open nodes of the builder are those of the stack: its addresses
    decrease from the top, they form the right-most branch of the
    hierarchy, and no other reference of the heap or of the top level
    points to a node of the stack. *)
Record spine_inv (b : Builder) : Prop := {
  sp_sorted : StronglySorted (fun x y => (y < x)%nat) (headingStack b);
  sp_spine : spine (heap b) (headingStack b);
  sp_bottom : forall s, last (headingStack b) = Some s -> last (hierarchy b) = Some s;
  sp_inner : forall a info ch1 r ch2,
      heap b !! a = Some (info, ch1 ++ ChildHeading r :: ch2) -> ch2 <> [] ->
      r ∉ headingStack b;
  sp_closed : forall a info ch r,
      heap b !! a = Some (info, ch) -> a ∉ headingStack b -> ChildHeading r ∈ ch ->
      r ∉ headingStack b;
  sp_top_level : forall h1 r h2,
      hierarchy b = h1 ++ r :: h2 -> h2 <> [] -> r ∉ headingStack b
}.

(** ** The children of a heading *)

(** A list of children, and a list of nodes, whose content nodes all come
    before the heading nodes. *)
Definition content_first (ch : list Child) : Prop :=
  exists (cs : list ContentNode) (rs : list nat),
    ch = (ChildContent <$> cs) ++ (ChildHeading <$> rs).

Definition is_heading (n : Node) : Prop :=
  match n with
  | Heading _ _ => True
  | ContentLeaf _ => False
  end.

Definition contents_first (kids : list Node) : Prop :=
  exists (cs : list ContentNode) (hs : list Node),
    kids = (ContentLeaf <$> cs) ++ hs /\ Forall is_heading hs.

(** In every cell the content children come first, and the cell at the
    top of the stack has content children only. *)
Definition content_first_inv (b : Builder) : Prop :=
  (forall a info ch, heap b !! a = Some (info, ch) -> content_first ch)
  /\ (forall top info ch,
        head (headingStack b) = Some top -> heap b !! top = Some (info, ch) ->
        exists cs, ch = ChildContent <$> cs).

(** ** The prediction of a detection *)

(** The predictions of a page that pass the filter, in the order of the
    loop. *)
Definition survivors (inp : PageInput) : list Prediction :=
  List.filter survives (predictions inp).

(** The box of a prediction in the pixels of the image, as the loop
    rounds it. *)
Definition scaled_box (inp : PageInput) (p : Prediction) : array4 :=
  let xs := (image_width inp / newWidth inp)%float in
  let ys := (image_height inp / newHeight inp)%float in
  (Math_round (p_xmin p * xs), Math_round (p_ymin p * ys),
   Math_round (p_xmax p * xs), Math_round (p_ymax p * ys))%float.

(** [d], a detection of page [pageNumber], stores what the loop computed
    from [p], the survivor of rank [k] of that page: the id numbered
    [k + 1], the box and the label of [p], and the score of [p] printed
    with three fraction digits and read back. *)
Definition stores_rounded_score
    (inp : PageInput) (pageNumber : Z) (k : nat) (p : Prediction) (d : Detection)
    : Prop :=
  survivors inp !! k = Some p
  /\ (p_score p <? CONFIDENCE_THRESHOLD)%float = false
  /\ d_id d = detection_id pageNumber (Z.of_nat k + 1)
  /\ d_bbox d = scaled_box inp p
  /\ d_label d = default Unknown (id2label (p_id p))
  /\ d_confidence d = parseFloat (toFixed (p_score p) 3).

(** ** A comparator that is a consistent ordering *)

(** [consistent cmp l]: on the elements of [l] the comparator [cmp] is a
    consistent ordering, the condition under which ECMAScript fixes the
    order a sort leaves: [cmp a b] is positive exactly when [cmp b a] is
    negative, the two are never both negative, and "is not put after" is
    transitive. *)
Definition consistent {A : Type} (cmp : A -> A -> number) (l : list A) : bool :=
  forallb (fun a =>
    forallb (fun b =>
      Bool.eqb (0 <? cmp a b)%float (cmp b a <? 0)%float
      && implb (cmp a b <? 0)%float (negb (cmp b a <? 0)%float)
      && forallb (fun c =>
           implb (negb (cmp b a <? 0)%float && negb (cmp c b <? 0)%float)
                 (negb (cmp c a <? 0)%float)) l) l) l.

(** ** Sample inputs *)

(** A recognizer that reads the same text everywhere. *)
Definition sample_recognize : string -> array4 -> Label -> nat -> option string :=
  fun _ _ _ _ => Some "lorem".

(** A 640 x 640 page at scale 1 with a title, a text below it, a text whose
    score is below the threshold, and a text whose box has no width. *)
Definition sample_page : PageInput :=
  {| imagePath := "page-1.png";
     image_width := 640%float; image_height := 640%float;
     newHeight := 640%float; newWidth := 640%float;
     predictions :=
       [ mkPrediction 10 40 100 90 0.75 9;
         mkPrediction 10 10 100 30 0.875 10;
         mkPrediction 50 50 90 90 0.49 9;
         mkPrediction 10 200 10 250 0.75 9 ]%float;
     elapsed := 1.5%float |}.

(** A page whose image has no width and no height. *)
Definition empty_image_page : PageInput :=
  {| imagePath := "page-2.png";
     image_width := 0%float; image_height := 0%float;
     newHeight := 640%float; newWidth := 640%float;
     predictions := [ mkPrediction 10 40 100 90 0.75 9 ]%float;
     elapsed := 1.5%float |}.

(** A page with a text and a table, and no heading. *)
Definition text_table_page : PageInput :=
  {| imagePath := "page.png";
     image_width := 640%float; image_height := 640%float;
     newHeight := 640%float; newWidth := 640%float;
     predictions :=
       [ mkPrediction 10 40 100 90 0.75 9;
         mkPrediction 10 140 100 190 0.75 8 ]%float;
     elapsed := 1.5%float |}.

(** The detection of the title of [sample_page], that of its text without
    width, and the one of [empty_image_page]. *)
Definition sample_title : Detection :=
  {| d_id := "page1_detection2";
     d_bbox := (10, 10, 100, 30)%float;
     d_bbox_normalized := (0.0156, 0.0156, 0.1563, 0.0469)%float;
     d_label := Title;
     d_confidence := 0.875%float;
     d_area := 1800%float;
     d_center := (55, 20)%float;
     d_width := 90%float;
     d_height := 20%float;
     d_extractedText := "lorem";
     d_reading_order := Some 1 |}.

Definition sample_flat_text : Detection :=
  {| d_id := "page1_detection3";
     d_bbox := (10, 200, 10, 250)%float;
     d_bbox_normalized := (0.0156, 0.3125, 0.0156, 0.3906)%float;
     d_label := Text;
     d_confidence := 0.75%float;
     d_area := 0%float;
     d_center := (10, 225)%float;
     d_width := 0%float;
     d_height := 50%float;
     d_extractedText := "lorem";
     d_reading_order := Some 3 |}.

Definition empty_image_text : Detection :=
  {| d_id := "page1_detection1";
     d_bbox := (0, 0, 0, 0)%float;
     d_bbox_normalized := (nan, nan, nan, nan);
     d_label := Text;
     d_confidence := 0.75%float;
     d_area := 0%float;
     d_center := (0, 0)%float;
     d_width := 0%float;
     d_height := 0%float;
     d_extractedText := "lorem";
     d_reading_order := Some 1 |}.

(** The title of [sample_page], as the export assembler enriches it. *)
Definition sample_title_enriched : EnrichedDetection :=
  {| e_detection := sample_title;
     e_pageNumber := 1;
     e_sourceImagePath := "page-1.png";
     e_annotatedImagePath := "output/annotated_frames/page_1_annotated.png";
     e_pageWidth := 640%float;
     e_pageHeight := 640%float |}.

(** The text without width of [sample_page], likewise. *)
Definition sample_flat_enriched : EnrichedDetection :=
  {| e_detection := sample_flat_text;
     e_pageNumber := 1;
     e_sourceImagePath := "page-1.png";
     e_annotatedImagePath := "output/annotated_frames/page_1_annotated.png";
     e_pageWidth := 640%float;
     e_pageHeight := 640%float |}.

(** A section header read second on the same page. *)
Definition sample_section_enriched : EnrichedDetection :=
  {| e_detection :=
       {| d_id := "page1_detection4";
          d_bbox := (10, 40, 100, 60)%float;
          d_bbox_normalized := (0.0156, 0.0625, 0.1563, 0.0938)%float;
          d_label := SectionHeader;
          d_confidence := 0.75%float;
          d_area := 1800%float;
          d_center := (55, 50)%float;
          d_width := 90%float;
          d_height := 20%float;
          d_extractedText := "ipsum";
          d_reading_order := Some 2 |};
     e_pageNumber := 1;
     e_sourceImagePath := "page-1.png";
     e_annotatedImagePath := "output/annotated_frames/page_1_annotated.png";
     e_pageWidth := 640%float;
     e_pageHeight := 640%float |}.

(** The title of [sample_page] as a run without a worker exports it. *)
Definition sample_unread_title : EnrichedDetection :=
  {| e_detection :=
       {| d_id := "page1_detection2";
          d_bbox := (10, 10, 100, 30)%float;
          d_bbox_normalized := (0.0156, 0.0156, 0.1563, 0.0469)%float;
          d_label := Title;
          d_confidence := 0.875%float;
          d_area := 1800%float;
          d_center := (55, 20)%float;
          d_width := 90%float;
          d_height := 20%float;
          d_extractedText := "[Title content - OCR not available]";
          d_reading_order := Some 1 |};
     e_pageNumber := 1;
     e_sourceImagePath := "page-1.png";
     e_annotatedImagePath := "output/annotated_frames/page_1_annotated.png";
     e_pageWidth := 640%float;
     e_pageHeight := 640%float |}.

(** A directory listing after a conversion of ten pages or more. *)
Definition sample_readdir : string -> outcome (list string) :=
  fun _ => Returns ["page-2.png"; "notes.txt"; "page-10.png"; "page-1.png"].

(** The text without width of [sample_page] as a run without Jimp exports
    it. *)
Definition sample_flat_unread : EnrichedDetection :=
  {| e_detection :=
       {| d_id := "page1_detection3";
          d_bbox := (10, 200, 10, 250)%float;
          d_bbox_normalized := (0.0156, 0.3125, 0.0156, 0.3906)%float;
          d_label := Text;
          d_confidence := 0.75%float;
          d_area := 0%float;
          d_center := (10, 225)%float;
          d_width := 0%float;
          d_height := 50%float;
          d_extractedText := "[Text content (Page)]";
          d_reading_order := Some 3 |};
     e_pageNumber := 1;
     e_sourceImagePath := "page-1.png";
     e_annotatedImagePath := "output/annotated_frames/page_1_annotated.png";
     e_pageWidth := 640%float;
     e_pageHeight := 640%float |}.

(** A page with three boxes of 20 by 10 pixels on a diagonal, each 15
    pixels below and 10 pixels to the left of the one before: their
    centres are (30, 10), (20, 25) and (10, 40). *)
Definition diagonal_page : PageInput :=
  {| imagePath := "page-3.png";
     image_width := 640%float; image_height := 640%float;
     newHeight := 640%float; newWidth := 640%float;
     predictions :=
       [ mkPrediction 20 5 40 15 0.75 9;
         mkPrediction 10 20 30 30 0.75 9;
         mkPrediction 0 35 20 45 0.75 9 ]%float;
     elapsed := 1.5%float |}.

(** * Properties *)

(** ** The sort *)
Section SortFacts.
Context {A : Type} (before : A -> A -> bool).

Lemma sort_insert_perm (x : A) (l : list A) :
  sort_insert before x l ≡ₚ x :: l.
Proof.
  induction l as [|y l IH]; simpl; [done|].
  destruct (before x y); [done|].
  rewrite IH. apply Permutation_swap.
Qed.

Lemma sort_fold_perm (l acc : list A) :
  fold_left (fun acc x => sort_insert before x acc) l acc ≡ₚ acc ++ l.
Proof.
  revert acc. induction l as [|x l IH]; intros acc; simpl.
  - by rewrite app_nil_r.
  - rewrite IH, sort_insert_perm. simpl. apply Permutation_middle.
Qed.

Lemma Array_sort_perm (l : list A) : Array_sort before l ≡ₚ l.
Proof. unfold Array_sort. by rewrite sort_fold_perm. Qed.

Lemma Array_sort_length (l : list A) :
  length (Array_sort before l) = length l.
Proof. by rewrite Array_sort_perm. Qed.

Lemma Array_sort_elem (x : A) (l : list A) :
  x ∈ Array_sort before l <-> x ∈ l.
Proof. by rewrite Array_sort_perm. Qed.

(** An element that comes before none of a list is inserted at its end. *)
Lemma sort_insert_last (x : A) (l : list A) :
  Forall (fun y => before x y = false) l ->
  sort_insert before x l = l ++ [x].
Proof.
  induction 1 as [|y l Hy _ IH]; simpl; [done|].
  by rewrite Hy, IH.
Qed.

Lemma sort_fold_in_order (l acc : list A) :
  in_order before (acc ++ l) ->
  fold_left (fun acc x => sort_insert before x acc) l acc = acc ++ l.
Proof.
  revert acc. induction l as [|x l IH] using rev_ind; intros acc H; simpl.
  - by rewrite app_nil_r.
  - rewrite fold_left_app. simpl. rewrite app_assoc in H.
    inversion H as [|l' x' Hl Hx Heq]; [by destruct (acc ++ l)|].
    apply app_inj_tail in Heq as [-> ->].
    rewrite (IH acc Hl), sort_insert_last by done. by rewrite app_assoc.
Qed.

(** The sort leaves an array that is already in order as it is. *)
Lemma Array_sort_in_order (l : list A) :
  in_order before l -> Array_sort before l = l.
Proof. intros H. unfold Array_sort. by rewrite sort_fold_in_order. Qed.
End SortFacts.

Lemma mapi_length {A B} (f : A -> Z -> B) (l : list A) :
  length (mapi f l) = length l.
Proof. unfold mapi. by rewrite length_imap. Qed.

Lemma mapi_lookup {A B} (f : A -> Z -> B) (l : list A) (i : nat) :
  mapi f l !! i = (fun x => f x (Z.of_nat i)) <$> l !! i.
Proof. unfold mapi. by rewrite list_lookup_imap. Qed.

(** ** The normalizer and the sequencer *)

Section PageFacts.
Variable ocr_ready : bool.
Variable recognize : string -> array4 -> Label -> nat -> option string.

Local Abbreviation normalize' := (normalize ocr_ready recognize).
Local Abbreviation push_detection' := (push_detection ocr_ready recognize).
Local Abbreviation processPage' := (processPage ocr_ready recognize).

Lemma normalize_dropped inp pageNumber count p :
  normalize' inp pageNumber count p = None <-> survives p = false.
Proof.
  unfold normalize, survives.
  destruct (p_score p <? CONFIDENCE_THRESHOLD)%float; simpl; split; done.
Qed.

Lemma normalize_kept inp pageNumber count p :
  is_Some (normalize' inp pageNumber count p) <-> survives p = true.
Proof.
  unfold normalize, survives.
  destruct (p_score p <? CONFIDENCE_THRESHOLD)%float; simpl; split;
    (done || by intros []).
Qed.

Lemma push_fold_length inp pageNumber ps acc :
  length (fold_left (push_detection' inp pageNumber) ps acc)
  = (length acc + length (List.filter survives ps))%nat.
Proof.
  revert acc. induction ps as [|p ps IH]; intros acc; simpl; [lia|].
  rewrite IH. unfold push_detection.
  destruct (normalize' inp pageNumber (length acc) p) eqn:E.
  - assert (survives p = true) as ->
      by (apply (proj1 (normalize_kept inp pageNumber (length acc) p)); eauto).
    rewrite length_app. simpl. lia.
  - apply normalize_dropped in E as ->. lia.
Qed.

Lemma push_fold_built inp pageNumber ps acc :
  (forall p, p ∈ ps -> p ∈ predictions inp) ->
  Forall (fun d => exists p, built_from ocr_ready recognize inp pageNumber p d) acc ->
  Forall (fun d => exists p, built_from ocr_ready recognize inp pageNumber p d)
    (fold_left (push_detection' inp pageNumber) ps acc).
Proof.
  revert acc. induction ps as [|p ps IH]; intros acc Hin Hacc; simpl; [done|].
  apply IH; [intros q Hq; apply Hin; by right|].
  unfold push_detection.
  destruct (normalize' inp pageNumber (length acc) p) eqn:E; [|done].
  apply Forall_app; split; [done|]. constructor; [|done].
  exists p. split; [apply Hin; by left|]. split; [|eauto].
  apply (proj1 (normalize_kept inp pageNumber (length acc) p)); eauto.
Qed.

Lemma candidates_built inp pageNumber d :
  d ∈ candidates ocr_ready recognize inp pageNumber -> exists p, built_from ocr_ready recognize inp pageNumber p d.
Proof.
  intros Hd. unfold candidates in Hd.
  pose proof (push_fold_built inp pageNumber (predictions inp) []
                (fun _ H => H) (Forall_nil_2 _)) as HF.
  rewrite Forall_forall in HF. by apply HF.
Qed.

Lemma candidates_length inp pageNumber :
  length (candidates ocr_ready recognize inp pageNumber)
  = length (List.filter survives (predictions inp)).
Proof. unfold candidates. by rewrite push_fold_length. Qed.

Lemma candidates_unordered inp pageNumber d :
  d ∈ candidates ocr_ready recognize inp pageNumber -> d_reading_order d = None.
Proof.
  intros Hd. destruct (candidates_built _ _ _ Hd) as (p & _ & _ & count & E).
  unfold normalize in E.
  destruct (p_score p <? CONFIDENCE_THRESHOLD)%float; [done|].
  by injection E as <-.
Qed.

(** Every detection a page returns is the detection built for a surviving
    prediction, with the reading order the [forEach] gave it. *)
Lemma processPage_detections inp pageNumber d :
  d ∈ r_detections (processPage' inp pageNumber) ->
  exists p d0 r, built_from ocr_ready recognize inp pageNumber p d0 /\ d = set_reading_order d0 r.
Proof.
  simpl. intros [i Hi]%list_elem_of_lookup.
  rewrite mapi_lookup in Hi.
  destruct (Array_sort reading_before _ !! i) as [d0|] eqn:E; [|done].
  injection Hi as <-.
  apply list_elem_of_lookup_2, Array_sort_elem, candidates_built in E as [p Hp].
  eauto.
Qed.

Lemma reading_orders_of_mapi (l : list Detection) :
  d_reading_order <$>
    mapi (fun detection index => set_reading_order detection (index + 1)) l
  = Some <$> seqZ 1 (Z.of_nat (length l)).
Proof.
  apply list_eq. intros i.
  rewrite !list_lookup_fmap, mapi_lookup.
  destruct (l !! i) as [d|] eqn:E; simpl.
  - apply lookup_lt_Some in E.
    rewrite (lookup_seqZ_lt 1 _ i) by lia. cbn [fmap option_fmap option_map].
    do 2 f_equal. lia.
  - apply lookup_ge_None in E. rewrite lookup_seqZ_ge by lia. done.
Qed.
End PageFacts.

(** ** Rounding to a fixed number of decimals *)

Lemma fixed_digits_closest (m : positive) (e : Z) (f : nat) :
  closest_digits (fixed_digits m e f) m e f.
Proof.
  unfold closest_digits, fixed_digits.
  destruct (0 <=? e) eqn:He; [done|].
  apply Z.leb_gt in He.
  assert (0 < 2 ^ (- e)) as Hk by (apply Z.pow_pos_nonneg; lia).
  set (k := 2 ^ (- e)) in *. set (v := Z.pos m * 10 ^ Z.of_nat f).
  pose proof (Z.div_mod (2 * v + k) (2 * k) ltac:(lia)) as Hdm.
  pose proof (Z.mod_pos_bound (2 * v + k) (2 * k) ltac:(lia)) as Hb.
  nia.
Qed.

(** A finite number below 10^21 is printed by [toFixed] as the closest
    decimal with [f] fraction digits. *)
Lemma toFixed_finite (x : number) (f : nat) s m e :
  Prim2SF x = S754_finite s m e ->
  (1e21 <=? Math_abs x)%float = false ->
  toFixed x f = FixedDigits s (fixed_digits m e f) f.
Proof. intros Hx Hsmall. unfold toFixed. by rewrite Hx, Hsmall. Qed.

(** ** The sample page *)

(** The title is the first detection [sample_page] returns. *)
Lemma sample_title_detected :
  sample_title ∈ r_detections (processPage true sample_recognize sample_page 1).
Proof. apply (list_elem_of_lookup_2 _ 0). vm_compute. reflexivity. Defined.

(** ** C3: what the normalizer drops *)

(** C3, as stated, fails: a prediction whose scaled box has zero width is
    emitted (with width 0 and area 0), and so is a prediction on an image
    of zero width and height (its normalized box is NaN). *)
Lemma degenerate_geometry_is_emitted :
  (sample_flat_text ∈ r_detections (processPage true sample_recognize sample_page 1)
   /\ d_width sample_flat_text = 0%float /\ d_area sample_flat_text = 0%float)
  /\ (empty_image_text
        ∈ r_detections (processPage true sample_recognize empty_image_page 1)
      /\ image_width empty_image_page = 0%float
      /\ image_height empty_image_page = 0%float).
Proof.
  repeat split.
  - apply (list_elem_of_lookup_2 _ 2). vm_compute. reflexivity.
  - apply (list_elem_of_lookup_2 _ 0). vm_compute. reflexivity.
Qed.

(** C3, amended: the normalizer drops a prediction exactly when its score
    is below the confidence threshold; it never looks at the geometry, so
    a page returns one detection for each prediction whose score is not
    below the threshold, whatever its box and the page dimensions are. *)
Theorem normalizer_drops_only_low_scores
    (ocr_ready : bool) (recognize : string -> array4 -> Label -> nat -> option string)
    (inp : PageInput) (pageNumber : Z) :
  (forall count p,
     normalize ocr_ready recognize inp pageNumber count p = None
     <-> (p_score p <? CONFIDENCE_THRESHOLD)%float = true)
  /\ length (r_detections (processPage ocr_ready recognize inp pageNumber))
     = length (List.filter
                 (fun p => negb (p_score p <? CONFIDENCE_THRESHOLD)%float)
                 (predictions inp)).
Proof.
  split.
  - intros count p. rewrite normalize_dropped. unfold survives.
    by destruct (p_score p <? CONFIDENCE_THRESHOLD)%float.
  - simpl. rewrite mapi_length, Array_sort_length.
    apply candidates_length.
Qed.

(** ** C4: reading orders *)

(** C4: the reading orders of the detections a page returns are
    1, 2, ..., N in the order of the array, N being the number of
    predictions that survive the filter; the detections carry no reading
    order while they are sorted, and each gets its position in the sorted
    array, plus one. *)
Theorem reading_order_is_1_to_N
    (ocr_ready : bool) (recognize : string -> array4 -> Label -> nat -> option string)
    (inp : PageInput) (pageNumber : Z) :
  let detections := r_detections (processPage ocr_ready recognize inp pageNumber) in
  let N := length (List.filter survives (predictions inp)) in
  length detections = N
  /\ d_reading_order <$> detections = Some <$> seqZ 1 (Z.of_nat N)
  /\ (forall i d, detections !! i = Some d ->
                  d_reading_order d = Some (Z.of_nat i + 1))
  /\ exists sorted,
       sorted ≡ₚ candidates ocr_ready recognize inp pageNumber
       /\ Forall (fun d => d_reading_order d = None) sorted
       /\ detections
          = mapi (fun d index => set_reading_order d (index + 1)) sorted.
Proof.
  simpl.
  set (sorted := Array_sort reading_before
                   (fold_left (push_detection ocr_ready recognize inp pageNumber)
                      (predictions inp) [])).
  assert (length sorted = length (List.filter survives (predictions inp))) as Hlen.
  { unfold sorted. rewrite Array_sort_length. apply candidates_length. }
  split; [by rewrite mapi_length|].
  split; [by rewrite reading_orders_of_mapi, Hlen|].
  split.
  - intros i d. rewrite mapi_lookup.
    destruct (sorted !! i); [|done]. by intros [= <-].
  - exists sorted. split; [apply Array_sort_perm|]. split; [|done].
    apply Forall_forall. intros d Hd.
    apply (candidates_unordered ocr_ready recognize inp pageNumber).
    by apply Array_sort_elem in Hd.
Qed.

(** C4 on [sample_page]: its title is first in the array and has reading
    order 1. *)
Lemma sample_title_is_read_first :
  r_detections (processPage true sample_recognize sample_page 1) !! 0%nat
  = Some sample_title
  /\ d_reading_order sample_title = Some (Z.of_nat 0 + 1).
Proof.
  assert (r_detections (processPage true sample_recognize sample_page 1) !! 0%nat
          = Some sample_title) as Hfirst by (vm_compute; reflexivity).
  split; [exact Hfirst|].
  exact (proj1 (proj2 (proj2 (reading_order_is_1_to_N
                                true sample_recognize sample_page 1)))
           0%nat sample_title Hfirst).
Defined.

(** ** C7: the normalized box *)

(** C7: the normalized box of a detection is its box divided by the image
    width (x coordinates) or height (y coordinates), each quotient printed
    with four fraction digits and read back; and the four digits [toFixed]
    prints for a finite quotient [m * 2^e] below 10^21 are those of the
    integer closest to [m * 2^e * 10^4]. *)
Theorem bbox_normalized_is_rounded_quotient
    (ocr_ready : bool) (recognize : string -> array4 -> Label -> nat -> option string)
    (inp : PageInput) (pageNumber : Z) (d : Detection) :
  d ∈ r_detections (processPage ocr_ready recognize inp pageNumber) ->
  (let '(b0, b1, b2, b3) := d_bbox d in
   d_bbox_normalized d
   = (parseFloat (toFixed (b0 / image_width inp) 4),
      parseFloat (toFixed (b1 / image_height inp) 4),
      parseFloat (toFixed (b2 / image_width inp) 4),
      parseFloat (toFixed (b3 / image_height inp) 4))%float)
  /\ (forall q s m e,
        Prim2SF q = S754_finite s m e ->
        (1e21 <=? Math_abs q)%float = false ->
        exists n, toFixed q 4 = FixedDigits s n 4 /\ closest_digits n m e 4).
Proof.
  intros Hd. split.
  - apply processPage_detections in Hd as (p & d0 & r & (_ & _ & count & E) & ->).
    unfold normalize in E.
    destruct (p_score p <? CONFIDENCE_THRESHOLD)%float; [done|].
    by injection E as <-.
  - intros q s m e Hq Hsmall. exists (fixed_digits m e 4). split.
    + by apply toFixed_finite.
    + apply fixed_digits_closest.
Qed.

(** C7 on the title of [sample_page]: its box (10, 10, 100, 30) on the
    640 x 640 image normalizes to the four rounded quotients. *)
Lemma bbox_normalized_of_sample_title :
  sample_title ∈ r_detections (processPage true sample_recognize sample_page 1)
  /\ d_bbox_normalized sample_title
     = (parseFloat (toFixed (10 / 640) 4), parseFloat (toFixed (10 / 640) 4),
        parseFloat (toFixed (100 / 640) 4), parseFloat (toFixed (30 / 640) 4))%float.
Proof.
  split; [exact sample_title_detected|].
  exact (proj1 (bbox_normalized_is_rounded_quotient
                  true sample_recognize sample_page 1 sample_title
                  sample_title_detected)).
Defined.

(** ** The heap of heading nodes *)

Lemma headingLevels_levelNum (l : Label) (level : string) :
  headingLevels l = Some level -> exists k, levelNum level = Some k /\ 1 <= k <= 4.
Proof.
  destruct l; intros [= <-]; vm_compute; eexists; (split; [reflexivity|]); done.
Qed.

Lemma push_child_length a c hp : length (push_child a c hp) = length hp.
Proof. unfold push_child. by rewrite length_alter. Qed.

Lemma push_child_lookup a c hp a' :
  push_child a c hp !! a'
  = (fun cell => if decide (a = a') then (cell.1, cell.2 ++ [c]) else cell)
      <$> hp !! a'.
Proof.
  unfold push_child. destruct (decide (a = a')) as [->|Hne].
  - by rewrite list_lookup_alter_eq.
  - rewrite list_lookup_alter_ne by done. by destruct (hp !! a').
Qed.

Lemma level_at_push_child a c hp a' :
  level_at (push_child a c hp) a' = level_at hp a'.
Proof.
  unfold level_at. rewrite push_child_lookup.
  destruct (hp !! a') as [cell|]; simpl; [|done]. by destruct (decide _).
Qed.

Lemma level_at_old hp cell a :
  (a < length hp)%nat -> level_at (hp ++ [cell]) a = level_at hp a.
Proof. intros Ha. unfold level_at. by rewrite lookup_app_l. Qed.

Lemma level_at_new hp cell :
  level_at (hp ++ [cell]) (length hp) = levelNum (h_level cell.1).
Proof. unfold level_at. by rewrite (list_lookup_middle hp [] cell). Qed.

Lemma level_at_valid hp a k : level_at hp a = Some k -> (a < length hp)%nat.
Proof.
  unfold level_at. destruct (hp !! a) eqn:E; [|done].
  intros _. by apply lookup_lt_Some in E.
Qed.

Lemma level_lt_old hp cell a r :
  level_lt hp a r -> level_lt (hp ++ [cell]) a r.
Proof.
  intros (ka & kr & Ha & Hr & Hlt). exists ka, kr.
  rewrite !level_at_old by eauto using level_at_valid. done.
Qed.

Lemma level_lt_push_child a' c hp a r :
  level_lt hp a r -> level_lt (push_child a' c hp) a r.
Proof.
  intros (ka & kr & Ha & Hr & Hlt). exists ka, kr.
  by rewrite !level_at_push_child.
Qed.

Lemma heap_wf_snoc hp cell :
  heap_wf hp ->
  is_Some (levelNum (h_level cell.1)) ->
  (forall r, ChildHeading r ∉ cell.2) ->
  heap_wf (hp ++ [cell]).
Proof.
  intros Hwf Hlevel Hrefs a cell' Ha.
  apply lookup_snoc_Some in Ha as [[Hlt Ha]|[-> <-]].
  - destruct (Hwf a cell' Ha) as [Hl Hch]. split; [done|].
    intros r Hr. destruct (Hch r Hr) as [Hrange Hlv].
    rewrite length_app. simpl. split; [lia|]. by apply level_lt_old.
  - split; [done|]. intros r Hr. by destruct (Hrefs r).
Qed.

Lemma heap_wf_push_child hp a c :
  heap_wf hp ->
  (forall r, c = ChildHeading r -> (a < r < length hp)%nat /\ level_lt hp a r) ->
  heap_wf (push_child a c hp).
Proof.
  intros Hwf Hc a' cell' Ha'.
  rewrite push_child_lookup in Ha'.
  destruct (hp !! a') as [cell|] eqn:E; [|done].
  injection Ha' as <-. destruct (Hwf a' cell E) as [Hl Hch].
  rewrite push_child_length.
  assert (forall r, ChildHeading r ∈ cell.2 ->
            (a' < r < length hp)%nat /\ level_lt (push_child a c hp) a' r) as Hold.
  { intros r Hr. destruct (Hch r Hr). split; [done|].
    by apply level_lt_push_child. }
  destruct (decide (a = a')) as [->|]; simpl; [|by split].
  split; [done|]. intros r [Hr|Hr%list_elem_of_singleton]%elem_of_app.
  - by apply Hold.
  - destruct (Hc r (eq_sym Hr)). split; [done|]. by apply level_lt_push_child.
Qed.

(** ** The stack of open headings *)

Lemma below_ext hp hp' bound stack :
  (forall a k, level_at hp a = Some k -> level_at hp' a = Some k) ->
  below hp bound stack -> below hp' bound stack.
Proof.
  intros Hext. revert bound. induction stack as [|a rest IH]; simpl; [done|].
  intros bound (k & Hk & Hlt & Hrest). exists k. eauto.
Qed.

Lemma below_valid hp bound stack :
  below hp bound stack -> Forall (fun a => (a < length hp)%nat) stack.
Proof.
  revert bound. induction stack as [|a rest IH]; simpl; [constructor|].
  intros bound (k & Hk & _ & Hrest). constructor; eauto using level_at_valid.
Qed.

(** What the [while] loop does: it removes from the top the nodes whose
    level number is [>= k]; the nodes it leaves are all below [k]. *)
Lemma pop_headings_spec hp k bound stack :
  below hp bound stack ->
  exists popped,
    stack = popped ++ pop_headings hp (Some k) stack
    /\ Forall (fun a => exists ka, level_at hp a = Some ka /\ k <= ka) popped
    /\ below hp k (pop_headings hp (Some k) stack).
Proof.
  revert bound. induction stack as [|a rest IH]; simpl; intros bound Hb.
  - by exists [].
  - destruct Hb as (ka & Ha & Hlt & Hrest). rewrite Ha. simpl.
    destruct (k <=? ka) eqn:Hge.
    + apply Z.leb_le in Hge. destruct (IH ka Hrest) as (popped & Heq & Hp & Hk).
      exists (a :: popped). split; [simpl; by f_equal|].
      split; [constructor; eauto|done].
    + apply Z.leb_gt in Hge. exists []. split; [done|]. split; [constructor|].
      simpl. exists ka. eauto.
Qed.

Lemma below_strictly_increasing hp bound stack :
  below hp bound stack ->
  exists ks, level_at hp <$> reverse stack = Some <$> ks
             /\ Forall (fun k => k < bound) ks /\ StronglySorted Z.lt ks.
Proof.
  revert bound. induction stack as [|a rest IH]; simpl; intros bound Hb.
  - exists []. repeat split; constructor.
  - destruct Hb as (k & Ha & Hlt & Hrest).
    destruct (IH k Hrest) as (ks & Heq & Hks & Hsorted).
    exists (ks ++ [k]). rewrite reverse_cons, !fmap_app, Heq. simpl. rewrite Ha.
    split; [done|]. split.
    + apply Forall_app. split; [|repeat constructor; lia].
      eapply Forall_impl; [exact Hks|]. simpl. lia.
    + apply StronglySorted_app_2; [|done|repeat constructor].
      intros x1 x2 Hx1 Hx2%list_elem_of_singleton. subst x2.
      rewrite Forall_forall in Hks. by apply Hks.
Qed.

(** ** The invariant of the builder *)

Lemma empty_builder_wf : builder_wf empty_builder.
Proof. split; simpl; [by intros a cell Ha|done|constructor]. Qed.

Lemma below_snoc hp cell bound stack :
  below hp bound stack -> below (hp ++ [cell]) bound stack.
Proof.
  apply below_ext. intros a ka Ha.
  rewrite level_at_old; eauto using level_at_valid.
Qed.

Lemma below_push_child a c hp bound stack :
  below hp bound stack -> below (push_child a c hp) bound stack.
Proof. apply below_ext. intros a' ka Ha. by rewrite level_at_push_child. Qed.

Lemma place_wf (b : Builder) (d : EnrichedDetection) :
  builder_wf b -> builder_wf (place b d).
Proof.
  intros [Hheap Hstack Hhier]. unfold place.
  destruct (headingLevels (d_label (e_detection d))) as [level|] eqn:Hl.
  - destruct (headingLevels_levelNum _ _ Hl) as (k & Hk & Hrange).
    set (hp := heap b ++ [(headingNode level d, [])]).
    assert (heap_wf hp) as Hheap'.
    { apply heap_wf_snoc; [done|simpl; eauto|].
      intros r Hr. simpl in Hr. by apply elem_of_nil in Hr. }
    assert (level_at hp (length (heap b)) = Some k) as Hnew.
    { unfold hp. by rewrite level_at_new. }
    assert (length hp = S (length (heap b))) as Hlen.
    { unfold hp. rewrite length_app. simpl. lia. }
    rewrite Hk.
    destruct (pop_headings_spec hp k 5 _ (below_snoc _ _ _ _ Hstack))
      as (popped & Heq & _ & Hkept).
    destruct (pop_headings hp (Some k) (headingStack b)) as [|top rest].
    + split; simpl.
      * done.
      * exists k. split; [done|]. split; [lia|done].
      * rewrite Hlen. apply Forall_app. split; [|repeat constructor; lia].
        eapply Forall_impl; [exact Hhier|]. simpl. lia.
    + assert (top < length (heap b))%nat as Htop.
      { apply below_valid in Hstack. rewrite Forall_forall in Hstack.
        apply Hstack. rewrite Heq. apply elem_of_app. right. by left. }
      destruct Hkept as (kt & Hkt & Hlt & Hrest).
      split; simpl.
      * apply heap_wf_push_child; [done|]. intros r [= <-].
        split; [lia|]. by exists kt, k.
      * exists k. rewrite level_at_push_child.
        split; [done|]. split; [lia|].
        exists kt. rewrite level_at_push_child.
        split; [done|]. split; [done|]. by apply below_push_child.
      * rewrite push_child_length, Hlen.
        eapply Forall_impl; [exact Hhier|]. simpl. lia.
  - destruct (headingStack b) as [|top rest] eqn:Hs.
    + split; simpl.
      * apply heap_wf_snoc; [done|simpl; eauto|].
        intros r Hr. simpl in Hr. by apply list_elem_of_singleton in Hr.
      * exists 1. rewrite level_at_new. simpl. done.
      * rewrite length_app. simpl. apply Forall_app.
        split; [|repeat constructor; lia].
        eapply Forall_impl; [exact Hhier|]. simpl. lia.
    + split; cbn [heap headingStack hierarchy].
      * apply heap_wf_push_child; [done|]. by intros r.
      * by apply below_push_child.
      * by rewrite push_child_length.
Qed.

Lemma run_wf (l : list EnrichedDetection) (b : Builder) :
  builder_wf b -> builder_wf (fold_left place l b).
Proof.
  revert b. induction l as [|d l IH]; intros b Hb; simpl; [done|].
  by apply IH, place_wf.
Qed.

(** The stack is never empty once a detection has been placed. *)
Lemma place_stack_nonempty (b : Builder) (d : EnrichedDetection) :
  headingStack (place b d) <> [].
Proof.
  unfold place. destruct (headingLevels _).
  - by destruct (pop_headings _ _ _).
  - by destruct (headingStack b).
Qed.

(** ** Reading the hierarchy out of the heap *)

(** Induction on a node with the hypothesis for all its children. *)
Lemma Node_ind_deep (P : Node -> Prop) :
  (forall c, P (ContentLeaf c)) ->
  (forall h kids, Forall P kids -> P (Heading h kids)) ->
  forall n, P n.
Proof.
  intros Hleaf Hheading. fix IH 1. intros [c|h kids]; [apply Hleaf|].
  apply Hheading. induction kids as [|kid kids IHkids]; constructor; [apply IH|done].
Qed.

Lemma subnodes_self (n : Node) : n ∈ subnodes n.
Proof. destruct n; simpl; by left. Qed.

Lemma subnodes_heading h kids m :
  m ∈ subnodes (Heading h kids) <->
  m = Heading h kids \/ exists kid, kid ∈ kids /\ m ∈ subnodes kid.
Proof.
  simpl. rewrite elem_of_cons, list_elem_of_bind. split.
  - intros [->|(kid & Hm & Hkid)]; eauto.
  - intros [->|(kid & Hkid & Hm)]; eauto.
Qed.

Lemma read_cells_length base cells :
  length (read_cells base cells) = length cells.
Proof.
  revert base. induction cells as [|[info ch] rest IH]; intros base; simpl; [done|].
  by rewrite IH.
Qed.

(** The node read for the cell at index [i]: it carries the fields of
    the cell, and each of its children is either one of the cell's content
    nodes or the node read for a later cell the cell refers to. *)
Lemma read_cells_lookup cells base i n :
  read_cells base cells !! i = Some n ->
  exists info ch kids,
    cells !! i = Some (info, ch) /\ n = Heading info kids
    /\ forall kid, kid ∈ kids ->
         (exists c, kid = ContentLeaf c /\ ChildContent c ∈ ch)
         \/ (exists r, ChildHeading r ∈ ch /\ (base + i < r)%nat
                       /\ read_cells base cells !! (r - base)%nat = Some kid).
Proof.
  revert base i. induction cells as [|[info ch] rest IH]; intros base i; [done|].
  destruct i as [|i]; simpl.
  - intros [= <-]. exists info, ch. eexists. split; [done|]. split; [done|].
    intros kid (c & Hc & Hkid)%list_elem_of_omap.
    destruct c as [c|r].
    + left. injection Hkid as <-. eauto.
    + right. destruct (decide (base < r)%nat) as [Hlt|]; [|done].
      exists r. split; [done|]. split; [lia|].
      replace (r - base)%nat with (S (r - S base)) by lia. done.
  - intros Hn. destruct (IH (S base) i Hn) as (info' & ch' & kids & Hc & -> & Hkids).
    exists info', ch', kids. split; [done|]. split; [done|].
    intros kid Hkid. destruct (Hkids kid Hkid) as [?|(r & Hr & Hlt & Hk)]; [by left|].
    right. exists r. split; [done|]. split; [lia|].
    replace (r - base)%nat with (S (r - S base)) by lia. done.
Qed.

Section Provenance.
Variable PH : HeadingInfo -> Prop.
Variable PC : ContentNode -> Prop.

Lemma read_cells_nodes cells base :
  (forall i cell, cells !! i = Some cell ->
     PH cell.1 /\ forall c, ChildContent c ∈ cell.2 -> PC c) ->
  forall n m, n ∈ read_cells base cells -> m ∈ subnodes n -> node_ok PH PC m.
Proof.
  revert base. induction cells as [|[info ch] rest IH]; intros base Hcells n m.
  { simpl. by intros ?%elem_of_nil. }
  assert (forall n m, n ∈ read_cells (S base) rest -> m ∈ subnodes n ->
                      node_ok PH PC m) as Hlater.
  { apply IH. intros i cell Hi. by apply (Hcells (S i)). }
  destruct (Hcells 0%nat (info, ch) eq_refl) as [Hinfo Hch].
  simpl. intros [->|Hn]%elem_of_cons Hm; [|by eapply Hlater].
  apply subnodes_heading in Hm as [->|(kid & Hkid & Hm)]; [done|].
  apply list_elem_of_omap in Hkid as (c & Hc & Hkid).
  destruct c as [c|r].
  - injection Hkid as <-. simpl in Hm. apply list_elem_of_singleton in Hm as ->.
    by apply Hch.
  - destruct (decide (base < r)%nat); [|done].
    eapply Hlater; [|done]. by eapply list_elem_of_lookup_2.
Qed.

Lemma read_hierarchy_nodes (b : Builder) (m : Node) :
  cells_ok PH PC (heap b) ->
  m ∈ forest_nodes (read_hierarchy b) -> node_ok PH PC m.
Proof.
  intros Hok (n & Hm & Hn)%list_elem_of_bind.
  apply list_elem_of_omap in Hn as (a & _ & Hn).
  eapply (read_cells_nodes (heap b) 0); [done| |done].
  by eapply list_elem_of_lookup_2.
Qed.

Lemma cells_ok_snoc hp info ch :
  cells_ok PH PC hp -> PH info -> (forall c, ChildContent c ∈ ch -> PC c) ->
  cells_ok PH PC (hp ++ [(info, ch)]).
Proof.
  intros Hok Hinfo Hch a cell [[_ Ha]|[_ <-]]%lookup_snoc_Some; [by eapply Hok|].
  done.
Qed.

Lemma cells_ok_push_child hp a c :
  cells_ok PH PC hp ->
  (forall c', c = ChildContent c' -> PC c') ->
  cells_ok PH PC (push_child a c hp).
Proof.
  intros Hok Hc a' cell' Ha'. rewrite push_child_lookup in Ha'.
  destruct (hp !! a') as [cell|] eqn:E; [|done]. injection Ha' as <-.
  destruct (Hok a' cell E) as [Hinfo Hch].
  destruct (decide (a = a')); simpl; [|done]. split; [done|].
  intros c' [?|Heq%list_elem_of_singleton]%elem_of_app; [eauto|].
  subst c. eauto.
Qed.

(** What a step adds to the heap: a heading node for a heading, a content
    node for a content detection, and a default section when a content
    detection finds the stack empty. *)
Lemma place_cells_ok (b : Builder) (d : EnrichedDetection) :
  cells_ok PH PC (heap b) ->
  (forall level, headingLevels (d_label (e_detection d)) = Some level ->
                 PH (headingNode level d)) ->
  (headingLevels (d_label (e_detection d)) = None -> PC (contentNode d)) ->
  (headingLevels (d_label (e_detection d)) = None -> headingStack b = [] ->
   PH (defaultSection (e_pageNumber d))) ->
  cells_ok PH PC (heap (place b d)).
Proof.
  intros Hok Hh Hc Hd. unfold place.
  destruct (headingLevels (d_label (e_detection d))) as [level|].
  - assert (cells_ok PH PC (heap b ++ [(headingNode level d, [])])) as Hok'.
    { apply cells_ok_snoc; [done|by apply Hh|]. by intros c ?%elem_of_nil. }
    destruct (pop_headings _ _ _); simpl; [done|].
    by apply cells_ok_push_child.
  - destruct (headingStack b); simpl.
    + apply cells_ok_snoc; [done|by apply Hd|].
      intros c [= ->]%list_elem_of_singleton. by apply Hc.
    + apply cells_ok_push_child; [done|]. intros c' [= <-]. by apply Hc.
Qed.

Lemma run_cells_ok (l : list EnrichedDetection) (b : Builder) :
  cells_ok PH PC (heap b) ->
  (forall d level, d ∈ l -> headingLevels (d_label (e_detection d)) = Some level ->
                   PH (headingNode level d)) ->
  (forall d, d ∈ l -> headingLevels (d_label (e_detection d)) = None ->
             PC (contentNode d)) ->
  (headingStack b <> []
   \/ forall d, d ∈ l -> PH (defaultSection (e_pageNumber d))) ->
  cells_ok PH PC (heap (fold_left place l b)).
Proof.
  revert b. induction l as [|d l IH]; intros b Hok Hh Hc Hd; simpl; [done|].
  apply IH.
  - apply place_cells_ok; [done|..].
    + intros level. apply Hh. by left.
    + apply Hc. by left.
    + intros _ Hempty. destruct Hd as [Hne|Hd]; [done|]. apply Hd. by left.
  - intros d' level Hd'. apply Hh. by right.
  - intros d' Hd'. apply Hc. by right.
  - left. apply place_stack_nonempty.
Qed.
End Provenance.

(** ** Levels along the branches of the hierarchy *)

(** Below a heading node there are only heading nodes of a strictly larger
    level number. *)
Lemma nested_levels (hp : list Cell) :
  heap_wf hp ->
  forall n a info kids kid m h' kids',
    (length hp - a < n)%nat ->
    read_cells 0 hp !! a = Some (Heading info kids) ->
    kid ∈ kids -> m ∈ subnodes kid -> m = Heading h' kids' ->
    exists k k', levelNum (h_level info) = Some k
                 /\ levelNum (h_level h') = Some k' /\ k < k'.
Proof.
  intros Hwf n. induction n as [|n IH]; intros a info kids kid m h' kids' Hn Ha Hkid Hm ->.
  { lia. }
  destruct (read_cells_lookup _ _ _ _ Ha) as (info0 & ch & kids0 & Hcell & [= <- <-] & Hkids).
  destruct (Hkids kid Hkid) as [(c & -> & _)|(r & Hr & Hlt & Hread)].
  { simpl in Hm. by apply list_elem_of_singleton in Hm. }
  rewrite Nat.sub_0_r in Hread.
  destruct (Hwf a _ Hcell) as [_ Hrefs].
  destruct (Hrefs r Hr) as [Hrange (ka & kr & Hka & Hkr & Hkakr)].
  unfold level_at in Hka, Hkr. rewrite Hcell in Hka. simpl in Hka.
  destruct (read_cells_lookup _ _ _ _ Hread) as (infor & chr & kidsr & Hcellr & -> & _).
  rewrite Hcellr in Hkr. simpl in Hkr.
  apply subnodes_heading in Hm as [[= -> ->]|(kid' & Hkid' & Hm)].
  - by exists ka, kr.
  - destruct (IH r infor kidsr kid' _ h' kids' ltac:(lia) Hread Hkid' Hm eq_refl)
      as (k1 & k' & Hk1 & Hk' & Hlt').
    exists ka, k'. split; [done|]. split; [done|].
    rewrite Hkr in Hk1. injection Hk1 as <-. lia.
Qed.

(** Every heading node below a node read from the heap is itself the node
    read for some cell. *)
Lemma subnodes_read (hp : list Cell) :
  forall n a node m h kids,
    (length hp - a < n)%nat ->
    read_cells 0 hp !! a = Some node ->
    m ∈ subnodes node -> m = Heading h kids ->
    exists a', read_cells 0 hp !! a' = Some m.
Proof.
  intros n. induction n as [|n IH]; intros a node m h kids Hn Ha Hm ->; [lia|].
  destruct (read_cells_lookup _ _ _ _ Ha) as (info0 & ch & kids0 & Hcell & -> & Hkids).
  apply subnodes_heading in Hm as [Heq|(kid & Hkid & Hm)].
  { exists a. by rewrite Heq. }
  destruct (Hkids kid Hkid) as [(c & -> & _)|(r & Hr & Hlt & Hread)].
  { simpl in Hm. by apply list_elem_of_singleton in Hm. }
  rewrite Nat.sub_0_r in Hread.
  assert (r < length hp)%nat.
  { apply lookup_lt_Some in Hread. by rewrite read_cells_length in Hread. }
  eapply (IH r); [lia|done|done|done].
Qed.

Lemma forest_nesting (b : Builder) h kids kid h' kids' :
  builder_wf b ->
  Heading h kids ∈ forest_nodes (read_hierarchy b) ->
  kid ∈ kids -> Heading h' kids' ∈ subnodes kid ->
  exists k k', levelNum (h_level h) = Some k
               /\ levelNum (h_level h') = Some k' /\ k < k'.
Proof.
  intros [Hwf _ _] (root & Hm & Hroot)%list_elem_of_bind Hkid Hsub.
  apply list_elem_of_omap in Hroot as (a & _ & Ha).
  destruct (subnodes_read (heap b) (S (length (heap b) - a)) a root _ h kids
              ltac:(lia) Ha Hm eq_refl) as [a' Ha'].
  eapply (nested_levels (heap b) Hwf (S (length (heap b) - a')) a' h kids kid);
    [lia|exact Ha'|exact Hkid|exact Hsub|reflexivity].
Qed.

(** ** One step of the builder on a heading *)

(** The state after a heading detection: the nodes popped are those of
    level number [>= k], the top that is left (if any) has a smaller one
    and receives the new node as its last child, and the new node is
    pushed. *)
Lemma place_heading (b : Builder) (d : EnrichedDetection) (level : string) :
  builder_wf b ->
  headingLevels (d_label (e_detection d)) = Some level ->
  let node := length (heap b) in
  let hp := heap b ++ [(headingNode level d, [])] in
  exists k popped kept,
    levelNum level = Some k
    /\ headingStack b = popped ++ kept
    /\ Forall (fun a => exists ka, level_at (heap b) a = Some ka /\ k <= ka) popped
    /\ match kept with
       | [] => place b d = mkBuilder hp (hierarchy b ++ [node]) [node]
       | top :: _ =>
           (exists kt, level_at (heap b) top = Some kt /\ kt < k)
           /\ place b d = mkBuilder (push_child top (ChildHeading node) hp)
                            (hierarchy b) (node :: kept)
       end.
Proof.
  intros [Hheap Hstack Hhier] Hl node hp. unfold place. rewrite Hl.
  destruct (headingLevels_levelNum _ _ Hl) as (k & Hk & _). rewrite Hk.
  fold hp.
  assert (forall a ka, a ∈ headingStack b -> level_at hp a = Some ka ->
                       level_at (heap b) a = Some ka) as Hold.
  { intros a ka Ha. unfold hp. rewrite level_at_old; [done|].
    apply below_valid in Hstack. rewrite Forall_forall in Hstack. by apply Hstack. }
  destruct (pop_headings_spec hp k 5 _ (below_snoc _ _ _ _ Hstack))
    as (popped & Heq & Hpopped & Hkept).
  exists k, popped, (pop_headings hp (Some k) (headingStack b)).
  split; [done|]. split; [done|]. split.
  - apply Forall_forall. intros a Ha.
    rewrite Forall_forall in Hpopped. destruct (Hpopped a Ha) as (ka & Hka & Hle).
    exists ka. split; [|done]. apply Hold; [|done].
    rewrite Heq. apply elem_of_app. by left.
  - destruct (pop_headings hp (Some k) (headingStack b)) as [|top rest]; [done|].
    split; [|done]. destruct Hkept as (kt & Hkt & Hlt & _).
    exists kt. split; [|done]. apply Hold; [|done].
    rewrite Heq. apply elem_of_app. right. by left.
Qed.

(** ** C2: the stack discipline *)

Lemma builder_step (l : list EnrichedDetection) (n : nat) (d : EnrichedDetection) :
  l !! n = Some d ->
  fold_left place (take (S n) l) empty_builder
  = place (fold_left place (take n l) empty_builder) d.
Proof. intros Hd. by rewrite (take_S_r _ _ _ Hd), fold_left_app. Qed.

(** C2: on a heading of level number [k] the builder pops the nodes of
    level number [>= k] off the stack, inserts the new node under the top
    that is left (at top level when none is) and pushes it; after any
    number of detections the level numbers of the stack are strictly
    increasing from bottom to top; and in the hierarchy returned every
    heading below a heading has a strictly larger level number, so that a
    Section-header is never nested under a Section-header. *)
Theorem heading_stack_levels_strictly_increase (detections : list EnrichedDetection) :
  let sorted := Array_sort document_before detections in
  let after := fun n => fold_left place (take n sorted) empty_builder in
  (forall n d level,
     sorted !! n = Some d ->
     headingLevels (d_label (e_detection d)) = Some level ->
     let node := length (heap (after n)) in
     let hp := heap (after n) ++ [(headingNode level d, [])] in
     exists k popped kept,
       levelNum level = Some k
       /\ headingStack (after n) = popped ++ kept
       /\ Forall (fun a => exists ka, level_at (heap (after n)) a = Some ka /\ k <= ka)
            popped
       /\ match kept with
          | [] => after (S n) = mkBuilder hp (hierarchy (after n) ++ [node]) [node]
          | top :: _ =>
              (exists kt, level_at (heap (after n)) top = Some kt /\ kt < k)
              /\ after (S n) = mkBuilder (push_child top (ChildHeading node) hp)
                                 (hierarchy (after n)) (node :: kept)
          end)
  /\ (forall n, strictly_increasing (stack_levels (after n)))
  /\ (forall h kids kid h' kids',
        Heading h kids ∈ forest_nodes (buildDocumentHierarchy detections).2 ->
        kid ∈ kids -> Heading h' kids' ∈ subnodes kid ->
        (exists k k', levelNum (h_level h) = Some k
                      /\ levelNum (h_level h') = Some k' /\ k < k')
        /\ h_level h <> h_level h').
Proof.
  intros sorted after.
  assert (forall n, builder_wf (after n)) as Hwf.
  { intros n. apply run_wf, empty_builder_wf. }
  split; [|split].
  - intros n d level Hd Hl node hp.
    assert (after (S n) = place (after n) d) as -> by (by apply builder_step).
    apply (place_heading (after n) d level (Hwf n) Hl).
  - intros n. destruct (Hwf n) as [_ Hstack _].
    destruct (below_strictly_increasing _ _ _ Hstack) as (ks & Heq & _ & Hsorted).
    by exists ks.
  - intros h kids kid h' kids' Hh Hkid Hh'.
    assert (builder_wf (fold_left place sorted empty_builder)) as Hfinal.
    { apply run_wf, empty_builder_wf. }
    destruct (forest_nesting _ h kids kid h' kids' Hfinal Hh Hkid Hh')
      as (k & k' & Hk & Hk' & Hlt).
    split; [by exists k, k'|].
    intros Heq. rewrite Heq, Hk' in Hk. injection Hk as ->. lia.
Qed.

(** C2 on a title followed by a section header: the section header is
    nested under the title, and its level number is the larger one. *)
Lemma section_header_under_title :
  let title := headingNode "H1" sample_title_enriched in
  let section := headingNode "H2" sample_section_enriched in
  Heading title [Heading section []]
    ∈ forest_nodes
        (buildDocumentHierarchy [sample_title_enriched; sample_section_enriched]).2
  /\ Heading section [] ∈ [Heading section []]
  /\ Heading section [] ∈ subnodes (Heading section [])
  /\ (exists k k', levelNum (h_level title) = Some k
                   /\ levelNum (h_level section) = Some k' /\ k < k')
  /\ h_level title <> h_level section.
Proof.
  intros title section.
  assert (Heading title [Heading section []]
            ∈ forest_nodes
                (buildDocumentHierarchy
                   [sample_title_enriched; sample_section_enriched]).2) as Hin.
  { vm_compute. left. }
  assert (Heading section [] ∈ [Heading section []]) as Hkid by (by left).
  assert (Heading section [] ∈ subnodes (Heading section [])) as Hsub by (by left).
  split; [exact Hin|]. split; [exact Hkid|]. split; [exact Hsub|].
  exact (proj2 (proj2 (heading_stack_levels_strictly_increase
                         [sample_title_enriched; sample_section_enriched]))
           title _ _ section [] Hin Hkid Hsub).
Defined.

(** ** C1: default sections *)

(** C1, as stated, fails: for a document of two pages, each with a text
    and a table and no heading, the hierarchy is the single default
    section of page 1; the text and the table of page 2 are its third and
    fourth child, and no default section is made for page 2. *)
Lemma later_page_joins_first_default_section :
  exists kids,
    documentStructure
      (main true sample_recognize [text_table_page; text_table_page] 3%float).1
    = [Heading (defaultSection 1) kids]
    /\ node_page <$> kids = [1; 1; 2; 2]
    /\ node_id <$> kids
       = ["page1_detection1"; "page1_detection2";
          "page2_detection1"; "page2_detection2"].
Proof.
  eexists. split; [vm_compute; reflexivity|].
  split; vm_compute; reflexivity.
Qed.

Lemma run_content_only (l : list EnrichedDetection) info (cs : list ContentNode) :
  Forall is_content l ->
  fold_left place l (mkBuilder [(info, ChildContent <$> cs)] [0%nat] [0%nat])
  = mkBuilder [(info, ChildContent <$> cs ++ (contentNode <$> l))] [0%nat] [0%nat].
Proof.
  intros Hl. revert cs. induction Hl as [|d l Hd _ IH]; intros cs; simpl.
  - by rewrite app_nil_r.
  - unfold place at 2. rewrite Hd. simpl. unfold push_child. simpl.
    change [ChildContent (contentNode d)] with (ChildContent <$> [contentNode d]).
    rewrite <- fmap_app, IH. by rewrite <- app_assoc.
Qed.

Lemma read_content_only info (cs : list ContentNode) :
  read_hierarchy (mkBuilder [(info, ChildContent <$> cs)] [0%nat] [0%nat])
  = [Heading info (ContentLeaf <$> cs)].
Proof.
  unfold read_hierarchy. simpl. f_equal. f_equal.
  induction cs as [|c cs IH]; simpl; [done|]. f_equal. exact IH.
Qed.

(** C1, amended: a content detection that arrives while the stack is
    empty makes exactly one new node, the default section of its page,
    with the content node as its only child, at top level and on the
    stack; one that arrives while the stack is not empty is appended to
    the top of the stack and no node is made, whatever its page.  The
    stack is empty only before the first detection, so every default
    section of a hierarchy is that of the page of the document's first
    detection, which is then a content detection; and a document of
    content detections only is one default section holding all of them in
    order. *)
Theorem default_section_only_on_empty_stack :
  (forall b d, is_content d -> headingStack b = [] ->
     place b d
     = mkBuilder
         (heap b ++ [(defaultSection (e_pageNumber d), [ChildContent (contentNode d)])])
         (hierarchy b ++ [length (heap b)]) [length (heap b)])
  /\ (forall b d top rest, is_content d -> headingStack b = top :: rest ->
        place b d
        = mkBuilder (push_child top (ChildContent (contentNode d)) (heap b))
            (hierarchy b) (top :: rest))
  /\ (forall detections d, headingStack (fold_left place (detections ++ [d]) empty_builder) <> [])
  /\ (forall detections first rest h kids,
        Array_sort document_before detections = first :: rest ->
        Heading h kids ∈ forest_nodes (buildDocumentHierarchy detections).2 ->
        h_bbox h = None ->
        h = defaultSection (e_pageNumber first) /\ is_content first)
  /\ (forall detections first rest,
        Array_sort document_before detections = first :: rest ->
        Forall is_content detections ->
        (buildDocumentHierarchy detections).2
        = [Heading (defaultSection (e_pageNumber first))
             (ContentLeaf ∘ contentNode <$> first :: rest)]).
Proof.
  split; [|split; [|split; [|split]]].
  - intros b d Hd Hs. unfold place. unfold is_content in Hd. by rewrite Hd, Hs.
  - intros b d top rest Hd Hs. unfold place. unfold is_content in Hd.
    by rewrite Hd, Hs.
  - intros detections d. rewrite fold_left_app. simpl. apply place_stack_nonempty.
  - intros detections first rest h kids Hsorted Hh Hbbox.
    unfold buildDocumentHierarchy in Hh. simpl in Hh. rewrite Hsorted in Hh. simpl in Hh.
    set (PH := fun h : HeadingInfo =>
                 h_bbox h = None ->
                 h = defaultSection (e_pageNumber first) /\ is_content first).
    apply (read_hierarchy_nodes PH (fun _ => True)) in Hh; [by apply Hh|].
    apply run_cells_ok.
    + apply place_cells_ok; [by intros a cell Ha|by intros level _ Hnone|done|].
      intros Hc _ _. done.
    + by intros d level _ _ Hnone.
    + done.
    + left. apply place_stack_nonempty.
  - intros detections first rest Hsorted Hall.
    assert (Forall is_content (first :: rest)) as Hall'.
    { rewrite <- Hsorted. apply Forall_forall. intros d Hd%Array_sort_elem.
      rewrite Forall_forall in Hall. by apply Hall. }
    apply Forall_cons in Hall' as [Hfirst Hrest].
    unfold buildDocumentHierarchy. simpl. rewrite Hsorted. simpl.
    unfold place at 2. unfold is_content in Hfirst. rewrite Hfirst. simpl.
    etrans.
    { apply (f_equal read_hierarchy).
      exact (run_content_only rest _ [contentNode first] Hrest). }
    rewrite read_content_only. simpl. by rewrite list_fmap_compose.
Qed.

(** C1, amended, on a text placed first: the default section of page 1 is
    made for it. *)
Lemma first_text_gets_default_section :
  is_content sample_flat_enriched
  /\ headingStack empty_builder = []
  /\ place empty_builder sample_flat_enriched
     = mkBuilder
         [(defaultSection 1, [ChildContent (contentNode sample_flat_enriched)])]
         [0%nat] [0%nat].
Proof.
  split; [reflexivity|]. split; [reflexivity|].
  exact (proj1 default_section_only_on_empty_stack
           empty_builder sample_flat_enriched eq_refl eq_refl).
Defined.

(** ** Where the nodes of a hierarchy come from *)

Lemma hierarchy_provenance (src : EnrichedDetection -> Prop)
    (detections : list EnrichedDetection) (m : Node) :
  (forall d, d ∈ detections -> src d) ->
  m ∈ forest_nodes (buildDocumentHierarchy detections).2 ->
  node_ok (heading_from src) (content_from src) m.
Proof.
  intros Hsrc. unfold buildDocumentHierarchy. simpl. apply read_hierarchy_nodes.
  apply run_cells_ok.
  - by intros a cell Ha.
  - intros d level Hd%Array_sort_elem Hl. right. exists d, level. auto.
  - intros d Hd%Array_sort_elem Hl. exists d. auto.
  - right. intros d _. left. by eexists.
Qed.

Lemma or_fallback_spec (text fallback : string) :
  (text <> "" -> or_fallback text fallback = text)
  /\ (text = "" -> or_fallback text fallback = fallback).
Proof.
  unfold or_fallback. destruct (String.eqb_spec text ""); split; done.
Qed.

(** ** C8: the text a node displays *)

(** C8, as stated, fails: when no OCR worker is available the text and the
    table of [text_table_page] get the placeholder
    "[... content - OCR not available]" as extracted text, and the
    hierarchy displays that placeholder, not the fallback built from the
    label and the page number. *)
Lemma placeholder_text_is_displayed :
  exists kids,
    documentStructure (main false sample_recognize [text_table_page] 3%float).1
    = [Heading (defaultSection 1) kids]
    /\ node_text <$> kids = ["[Text content - OCR not available]";
                             "[Table content - OCR not available]"]
    /\ reserved_placeholder "[Text content - OCR not available]" = true
    /\ "[Text content - OCR not available]" <> "Text content (Page 1)".
Proof.
  eexists. split; [vm_compute; reflexivity|].
  split; [vm_compute; reflexivity|]. split; [vm_compute; reflexivity|done].
Qed.

(** C8, amended: every node of the hierarchy other than a default section
    is the node of a detection of the input, and the text it displays is
    the detection's extracted text whenever that string is not empty,
    reserved placeholders included; only for the empty string is it the
    fallback built from the label and the page number. *)
Theorem display_text_is_extracted_text_unless_empty
    (detections : list EnrichedDetection) (m : Node) :
  m ∈ forest_nodes (buildDocumentHierarchy detections).2 ->
  match m with
  | ContentLeaf c =>
      exists d, d ∈ detections /\ is_content d /\ c = contentNode d
        /\ (d_extractedText (e_detection d) <> ""
            -> c_content c = d_extractedText (e_detection d))
        /\ (d_extractedText (e_detection d) = ""
            -> c_content c = label_name (d_label (e_detection d))
                               +:+ " content (Page " +:+ pretty (e_pageNumber d) +:+ ")")
  | Heading h _ =>
      (exists pageNumber, h = defaultSection pageNumber)
      \/ exists d level,
           d ∈ detections /\ headingLevels (d_label (e_detection d)) = Some level
           /\ h = headingNode level d
           /\ (d_extractedText (e_detection d) <> ""
               -> h_title h = d_extractedText (e_detection d))
           /\ (d_extractedText (e_detection d) = ""
               -> h_title h = label_name (d_label (e_detection d))
                                +:+ " (Page " +:+ pretty (e_pageNumber d) +:+ ")")
  end.
Proof.
  intros Hm. apply (hierarchy_provenance (fun d => d ∈ detections)) in Hm; [|done].
  destruct m as [c|h kids]; simpl in Hm.
  - destruct Hm as (d & Hd & Hc & ->). exists d. repeat (split; [done|]).
    simpl. apply or_fallback_spec.
  - destruct Hm as [?|(d & level & Hd & Hl & ->)]; [by left|]. right.
    exists d, level. repeat (split; [done|]). simpl. apply or_fallback_spec.
Qed.

(** C8 on the title of [sample_page]: its node displays the extracted
    text. *)
Lemma display_text_of_sample_title :
  Heading (headingNode "H1" sample_title_enriched) []
    ∈ forest_nodes (buildDocumentHierarchy [sample_title_enriched]).2
  /\ h_title (headingNode "H1" sample_title_enriched) = "lorem".
Proof.
  assert (Heading (headingNode "H1" sample_title_enriched) []
            ∈ forest_nodes (buildDocumentHierarchy [sample_title_enriched]).2) as Hin.
  { vm_compute. left. }
  split; [exact Hin|].
  destruct (display_text_is_extracted_text_unless_empty _ _ Hin)
    as [[pageNumber Hdefault]|(d & level & Hd & _ & _ & Htext & _)]; [done|].
  apply list_elem_of_singleton in Hd. subst d. by apply Htext.
Defined.

(** ** The export assembler *)

Lemma by_type_push_get (m : ByType) (l l' : Label) (e : EnrichedDetection) :
  by_type_get (by_type_push m l e) l'
  = if decide (l = l') then Some (default [] (by_type_get m l) ++ [e])
    else by_type_get m l'.
Proof.
  induction m as [|[k v] m IH]; simpl.
  - by destruct (decide (l = l')).
  - destruct (decide (k = l)) as [->|Hkl]; simpl.
    + by destruct (decide (l = l')).
    + rewrite IH. destruct (decide (k = l')) as [->|]; [|done].
      by rewrite decide_False.
Qed.

Lemma collect_detection_spec r acc d :
  by_type_spec acc.1 acc.2 ->
  by_type_spec (collect_detection r acc d).1 (collect_detection r acc d).2
  /\ (collect_detection r acc d).2 = acc.2 ++ [enrich r d].
Proof.
  intros Hacc. split; [|done]. intros l. simpl.
  rewrite by_type_push_get, filter_app, <- Hacc.
  destruct (decide (d_label d = l)) as [<-|Hl]; simpl.
  - by rewrite filter_cons_True by done.
  - by rewrite filter_cons_False, app_nil_r by done.
Qed.

Lemma collect_page_spec r acc :
  by_type_spec acc.1 acc.2 ->
  by_type_spec (collect_page acc r).1 (collect_page acc r).2
  /\ (collect_page acc r).2 = acc.2 ++ (enrich r <$> r_detections r).
Proof.
  unfold collect_page. generalize (r_detections r). intros ds. revert acc.
  induction ds as [|d ds IH]; intros acc Hacc; simpl.
  - by rewrite app_nil_r.
  - destruct (collect_detection_spec r acc d Hacc) as [Hspec Hall].
    destruct (IH _ Hspec) as [Hspec' Hall'].
    split; [done|]. rewrite Hall', Hall. by rewrite <- app_assoc.
Qed.

Lemma collect_pages_spec results acc :
  by_type_spec acc.1 acc.2 ->
  by_type_spec (fold_left collect_page results acc).1
               (fold_left collect_page results acc).2
  /\ (fold_left collect_page results acc).2 = acc.2 ++ collected results.
Proof.
  revert acc. induction results as [|r results IH]; intros acc Hacc; simpl.
  - by rewrite app_nil_r.
  - destruct (collect_page_spec r acc Hacc) as [Hspec Hall].
    destruct (IH _ Hspec) as [Hspec' Hall'].
    split; [done|]. rewrite Hall', Hall. unfold collected. simpl.
    by rewrite <- app_assoc.
Qed.

(** The document and the CSV rows [saveBoundingBoxesToJson] writes, view
    by view. *)
Lemma save_views (results : list PageResult) (totalTime : number) :
  let out := saveBoundingBoxesToJson results totalTime in
  let sug := ocrProcessingSuggestions out.1 in
  allDetections out.1 = (buildDocumentHierarchy (collected results)).1
  /\ documentStructure out.1 = (buildDocumentHierarchy (collected results)).2
  /\ pages out.1 = page_view <$> results
  /\ textElements sug
     = suggestion "high" None <$> filter (has_label Text) (collected results)
  /\ titleElements sug
     = suggestion "highest" None <$> filter (has_label Title) (collected results)
  /\ tableElements sug
     = suggestion "high"
         (Some "Use table-specific OCR for better structure recognition")
         <$> filter (has_label Table) (collected results)
  /\ listElements sug
     = suggestion "medium" None <$> filter (has_label ListItem) (collected results)
  /\ out.2 = csv_row <$> (buildDocumentHierarchy (collected results)).1.
Proof.
  unfold saveBoundingBoxesToJson.
  destruct (collect_pages_spec results ([], [])) as [Hspec Hall]; [done|].
  destruct (fold_left collect_page results ([], [])) as [m all].
  simpl in Hspec, Hall. subst all.
  destruct (buildDocumentHierarchy (collected results)) as [sorted forest].
  simpl. by rewrite !Hspec.
Qed.

Lemma process_pages_elem ocr_ready recognize (inputs : list PageInput) (r : PageResult) :
  r ∈ process_pages ocr_ready recognize inputs ->
  exists i inp, inputs !! i = Some inp
                /\ r = processPage ocr_ready recognize inp (Z.of_nat i + 1).
Proof.
  unfold process_pages. intros [i Hi]%list_elem_of_lookup.
  rewrite mapi_lookup in Hi. destruct (inputs !! i) as [inp|] eqn:E; [|done].
  injection Hi as <-. eauto.
Qed.

Lemma page_detections_survived ocr_ready recognize inputs (r : PageResult) (d : Detection) :
  r ∈ process_pages ocr_ready recognize inputs -> d ∈ r_detections r ->
  from_surviving_prediction ocr_ready recognize inputs (r_pageNumber r) d.
Proof.
  intros (i & inp & Hinp & ->)%process_pages_elem
         (p & d0 & ro & (Hp & Hs & count & Hn) & ->)%processPage_detections.
  exists i, inp, p, count, d0, ro. repeat (split; [done|]).
  split; [|done]. unfold survives in Hs.
  by destruct (p_score p <? CONFIDENCE_THRESHOLD)%float.
Qed.

Lemma collected_survived ocr_ready recognize inputs (e : EnrichedDetection) :
  e ∈ collected (process_pages ocr_ready recognize inputs) ->
  from_surviving_prediction ocr_ready recognize inputs
    (e_pageNumber e) (e_detection e).
Proof.
  intros (r & (d & -> & Hd)%list_elem_of_fmap & Hr)%list_elem_of_bind.
  by apply (page_detections_survived _ _ _ r).
Qed.

(** ** Scores and the threshold *)

(** A score that is a number and is not below the threshold is at least
    the threshold. *)
Lemma not_below_threshold (x : number) :
  (x <? CONFIDENCE_THRESHOLD)%float = false ->
  is_nan x = false ->
  (CONFIDENCE_THRESHOLD <=? x)%float = true.
Proof.
  rewrite ltb_spec, leb_spec. intros Hlt Hnan.
  assert (Prim2SF x <> S754_nan) as Hnum.
  { unfold Prim2SF. rewrite Hnan.
    destruct (is_zero x); [discriminate|]. destruct (is_infinity x); [discriminate|].
    destruct (Z.frexp x) as [r ex]. destruct (shr_fexp _ _ _ _ _) as [shr e'].
    destruct (shr_m shr); discriminate. }
  change (Prim2SF CONFIDENCE_THRESHOLD)
    with (S754_finite false 4503599627370496 (-53)) in *.
  destruct (Prim2SF x) as [s|s| |s m e].
  - destruct s; discriminate Hlt.
  - destruct s; [discriminate Hlt|reflexivity].
  - congruence.
  - destruct s; [discriminate Hlt|].
    unfold SFltb, SFleb, SFcompare in *.
    rewrite (Z.compare_antisym e (-53)).
    destruct (e ?= -53)%Z; cbn [CompOpp] in *; [|discriminate Hlt|reflexivity].
    pose proof (Pos.compare_cont_antisym m 4503599627370496 Eq) as Hanti.
    cbn [CompOpp] in Hanti. rewrite <- Hanti.
    destruct (Pos.compare_cont Eq m 4503599627370496);
      [reflexivity|discriminate Hlt|reflexivity].
Qed.

(** ** C6: what reaches the output views *)

(** C6: a prediction whose score is below the threshold is dropped by the
    normalizer (0.49 is below 0.5), and a score that is a number and is
    not below the threshold is at least the threshold; every entry of
    [allDetections], of [pages], of the four lists of
    [ocrProcessingSuggestions], of the CSV, and every node of
    [documentStructure] other than a default section, is made from a
    detection built for a prediction whose score is not below the
    threshold. *)
Theorem only_surviving_predictions_are_exported
    (ocr_ready : bool) (recognize : string -> array4 -> Label -> nat -> option string)
    (inputs : list PageInput) (totalTime : number) :
  let out := main ocr_ready recognize inputs totalTime in
  let sug := ocrProcessingSuggestions out.1 in
  let survived e :=
    from_surviving_prediction ocr_ready recognize inputs
      (e_pageNumber e) (e_detection e) in
  (forall inp pageNumber count p,
     (p_score p <? CONFIDENCE_THRESHOLD)%float = true ->
     normalize ocr_ready recognize inp pageNumber count p = None)
  /\ (0.49 <? CONFIDENCE_THRESHOLD)%float = true
  /\ (forall x, (x <? CONFIDENCE_THRESHOLD)%float = false -> is_nan x = false ->
                (CONFIDENCE_THRESHOLD <=? x)%float = true)
  /\ (forall e, e ∈ allDetections out.1 -> survived e)
  /\ (forall pv pd, pv ∈ pages out.1 -> pd ∈ pv_detections pv ->
        from_surviving_prediction ocr_ready recognize inputs
          (pd_pageNumber pd) (pd_detection pd))
  /\ (forall s,
        s ∈ textElements sug ++ titleElements sug
            ++ tableElements sug ++ listElements sug ->
        exists e priority note, survived e /\ s = suggestion priority note e)
  /\ (forall m, m ∈ forest_nodes (documentStructure out.1) ->
        node_ok (heading_from survived) (content_from survived) m)
  /\ (forall row, row ∈ out.2 -> exists e, survived e /\ row = csv_row e).
Proof.
  intros out sug survived.
  destruct (save_views (process_pages ocr_ready recognize inputs) totalTime)
    as (Hall & Hdoc & Hpages & Htext & Htitle & Htable & Hlist & Hcsv).
  fold (main ocr_ready recognize inputs totalTime) in Hall, Hdoc, Hpages, Htext,
    Htitle, Htable, Hlist, Hcsv.
  fold out in Hall, Hdoc, Hpages, Htext, Htitle, Htable, Hlist, Hcsv.
  fold sug in Htext, Htitle, Htable, Hlist.
  assert (forall e, e ∈ collected (process_pages ocr_ready recognize inputs) ->
                    survived e) as Hsurv.
  { intros e. apply collected_survived. }
  assert (forall e, e ∈ (buildDocumentHierarchy
                           (collected (process_pages ocr_ready recognize inputs))).1 ->
                    survived e) as Hsorted.
  { intros e He. apply Hsurv. unfold buildDocumentHierarchy in He. simpl in He.
    by apply Array_sort_elem in He. }
  assert (forall l priority note s,
            s ∈ suggestion priority note
                  <$> filter (has_label l)
                        (collected (process_pages ocr_ready recognize inputs)) ->
            exists e priority note, survived e /\ s = suggestion priority note e)
    as Hsug.
  { intros l priority note s (e & -> & [_ He]%list_elem_of_filter)%list_elem_of_fmap.
    exists e, priority, note. auto. }
  split; [|split; [|split; [|split; [|split; [|split; [|split]]]]]].
  - intros inp pageNumber count p Hp. unfold normalize. by rewrite Hp.
  - reflexivity.
  - apply not_below_threshold.
  - intros e. rewrite Hall. apply Hsorted.
  - intros pv pd. rewrite Hpages.
    intros (r & -> & Hr)%list_elem_of_fmap (d & -> & Hd)%list_elem_of_fmap.
    by apply (page_detections_survived _ _ _ r).
  - intros s. rewrite Htext, Htitle, Htable, Hlist, !elem_of_app.
    intros [Hs|[Hs|[Hs|Hs]]]; by eapply Hsug.
  - intros m. rewrite Hdoc. by apply hierarchy_provenance.
  - intros row. rewrite Hcsv. intros (e & -> & He)%list_elem_of_fmap.
    exists e. auto.
Qed.

(** C6 on [sample_page]: its title is in the flat view, and it was built
    for a prediction whose score is not below the threshold. *)
Lemma sample_title_survived :
  sample_title_enriched
    ∈ allDetections (main true sample_recognize [sample_page] 3%float).1
  /\ from_surviving_prediction true sample_recognize [sample_page] 1 sample_title.
Proof.
  assert (sample_title_enriched
            ∈ allDetections (main true sample_recognize [sample_page] 3%float).1)
    as Hin by (vm_compute; left).
  split; [exact Hin|].
  exact (proj1 (proj2 (proj2 (proj2 (only_surviving_predictions_are_exported
                                       true sample_recognize [sample_page] 3%float))))
           sample_title_enriched Hin).
Defined.

(** ** C9: the detection list after the hierarchy is built *)

Lemma document_le_not_before (a b : EnrichedDetection) :
  document_le a b -> document_before b a = false.
Proof.
  unfold document_before, document_cmp.
  intros [Hlt|(Heq & ra & rb & Ha & Hb & Hle)].
  - destruct (e_pageNumber b =? e_pageNumber a) eqn:E; simpl.
    + apply Z.eqb_eq in E. lia.
    + apply Z.ltb_ge. lia.
  - rewrite Heq, Z.eqb_refl, Ha, Hb. simpl. apply Z.ltb_ge. lia.
Qed.

Lemma finalized_in_order (l : list EnrichedDetection) :
  finalized l -> in_order document_before l.
Proof.
  induction l as [|x l IH] using rev_ind; intros Hl; [constructor|].
  apply StronglySorted_app in Hl as (Hcross & Hl & _).
  constructor; [by apply IH|].
  apply Forall_forall. intros y Hy. apply document_le_not_before, Hcross; [done|].
  by left.
Qed.

Lemma StronglySorted_lookup_2 {A} (R : relation A) (l : list A) :
  (forall i j x y, (i < j)%nat -> l !! i = Some x -> l !! j = Some y -> R x y) ->
  StronglySorted R l.
Proof.
  induction l as [|a l IH]; intros H; constructor.
  - apply IH. intros i j x y Hij Hi Hj. apply (H (S i) (S j)); [lia|done|done].
  - apply Forall_forall. intros y [j Hj]%list_elem_of_lookup.
    apply (H 0%nat (S j)); [lia|done|done].
Qed.

Section PipelineOrder.
Variable ocr_ready : bool.
Variable recognize : string -> array4 -> Label -> nat -> option string.

(** The detections of one page are in reading order. *)
Lemma page_finalized (inp : PageInput) (pageNumber : Z) :
  let r := processPage ocr_ready recognize inp pageNumber in
  finalized (enrich r <$> r_detections r).
Proof.
  intros r. apply StronglySorted_lookup_2. intros i j x y Hij Hx Hy.
  rewrite list_lookup_fmap in Hx, Hy. unfold r in Hx, Hy. simpl in Hx, Hy.
  rewrite mapi_lookup in Hx, Hy.
  destruct (Array_sort reading_before _ !! i) as [di|]; [|done].
  destruct (Array_sort reading_before _ !! j) as [dj|]; [|done].
  injection Hx as <-. injection Hy as <-.
  right. split; [done|]. simpl. eexists _, _. split; [done|]. split; [done|]. lia.
Qed.

Lemma page_numbers (inp : PageInput) (pageNumber : Z) (e : EnrichedDetection) :
  let r := processPage ocr_ready recognize inp pageNumber in
  e ∈ enrich r <$> r_detections r -> e_pageNumber e = pageNumber.
Proof. by intros r (d & -> & _)%list_elem_of_fmap. Qed.

(** The detections of pages numbered from [k + 1] on are in the order of
    the document. *)
Lemma pages_from_finalized (k : nat) (inputs : list PageInput) :
  let results :=
    imap (fun i inp => processPage ocr_ready recognize inp (Z.of_nat (k + i) + 1))
         inputs in
  finalized (collected results)
  /\ forall e, e ∈ collected results -> Z.of_nat k + 1 <= e_pageNumber e.
Proof.
  revert k. induction inputs as [|inp rest IH]; intros k; simpl.
  { split; [constructor|]. by intros e ?%elem_of_nil. }
  rewrite (imap_ext _
             (fun i inp => processPage ocr_ready recognize inp (Z.of_nat (S k + i) + 1)))
    by (intros i x _; simpl; do 2 f_equal; lia).
  destruct (IH (S k)) as [Hsorted Hpages].
  unfold collected in *. simpl. split.
  - apply StronglySorted_app_2; [|apply page_finalized|done].
    intros x1 x2 Hx1%page_numbers Hx2%Hpages. left. lia.
  - intros e [He%page_numbers|He%Hpages]%elem_of_app; lia.
Qed.

(** The list [saveBoundingBoxesToJson] hands to the hierarchy builder. *)
Lemma pipeline_finalized (inputs : list PageInput) :
  finalized (collected (process_pages ocr_ready recognize inputs)).
Proof. apply (pages_from_finalized 0 inputs). Qed.
End PipelineOrder.

Lemma collected_detections (results : list PageResult) :
  e_detection <$> collected results = results ≫= r_detections.
Proof.
  unfold collected. induction results as [|r results IH]; [done|].
  rewrite !bind_cons, fmap_app, IH. f_equal.
  rewrite <- list_fmap_compose. by rewrite <- (list_fmap_id (r_detections r)) at 2.
Qed.

(** C9: building the hierarchy leaves a finalized detection list (ordered
    by page, then reading order) as it is, elements and order; the list
    the export assembler collects from the pages of a run is finalized, so
    the flat view holds the pages' detections in their order, each with
    the fields [processPage] gave it, and so does the per-page view. *)
Theorem finalized_detections_are_left_unchanged :
  (forall detections,
     finalized detections -> (buildDocumentHierarchy detections).1 = detections)
  /\ (forall ocr_ready recognize inputs totalTime,
        let results := process_pages ocr_ready recognize inputs in
        let out := saveBoundingBoxesToJson results totalTime in
        finalized (collected results)
        /\ allDetections out.1 = collected results
        /\ e_detection <$> allDetections out.1 = results ≫= r_detections
        /\ (fmap pd_detection ∘ pv_detections <$> pages out.1)
           = r_detections <$> results).
Proof.
  assert (forall detections,
            finalized detections -> (buildDocumentHierarchy detections).1 = detections)
    as Hsame.
  { intros detections Hl. unfold buildDocumentHierarchy. simpl.
    by apply Array_sort_in_order, finalized_in_order. }
  split; [exact Hsame|].
  intros ocr_ready recognize inputs totalTime results out.
  pose proof (pipeline_finalized ocr_ready recognize inputs) as Hfinal.
  destruct (save_views results totalTime) as (Hall & _ & Hpages & _).
  fold out in Hall, Hpages.
  assert (allDetections out.1 = collected results) as Hflat.
  { rewrite Hall. by apply Hsame. }
  split; [done|]. split; [done|]. split.
  - rewrite Hflat. apply collected_detections.
  - rewrite Hpages, <- list_fmap_compose. apply list_fmap_ext.
    intros i r _. simpl. rewrite <- list_fmap_compose.
    by rewrite <- (list_fmap_id (r_detections r)) at 2.
Qed.

(** C9 on the title and the text without width of [sample_page], in the
    order of the document: the hierarchy builder leaves the list as it
    is. *)
Lemma sample_list_is_left_unchanged :
  finalized [sample_title_enriched; sample_flat_enriched]
  /\ (buildDocumentHierarchy [sample_title_enriched; sample_flat_enriched]).1
     = [sample_title_enriched; sample_flat_enriched].
Proof.
  assert (finalized [sample_title_enriched; sample_flat_enriched]) as Hfinal.
  { constructor; [repeat constructor|]. constructor; [|constructor].
    right. split; [reflexivity|]. exists 1, 3. repeat split. lia. }
  split; [exact Hfinal|].
  exact (proj1 finalized_detections_are_left_unchanged _ Hfinal).
Defined.

(** The sort of the hierarchy builder is in place: a list that is not in
    the order of the document comes back reordered. *)
Example unordered_list_is_reordered :
  (buildDocumentHierarchy [sample_flat_enriched; sample_title_enriched]).1
  = [sample_title_enriched; sample_flat_enriched].
Proof. vm_compute. reflexivity. Qed.

(** ** Every detection is in the hierarchy *)

Lemma read_cells_kids cells base i info ch :
  cells !! i = Some (info, ch) ->
  exists kids,
    read_cells base cells !! i = Some (Heading info kids)
    /\ (forall c, ChildContent c ∈ ch -> ContentLeaf c ∈ kids)
    /\ (forall r kid, ChildHeading r ∈ ch -> (base + i < r)%nat ->
          read_cells base cells !! (r - base)%nat = Some kid -> kid ∈ kids).
Proof.
  revert base i. induction cells as [|[info' ch'] rest IH]; intros base i; [done|].
  destruct i as [|i]; simpl.
  - intros [= -> ->]. eexists. split; [done|]. split.
    + intros c Hc. apply list_elem_of_omap. by exists (ChildContent c).
    + intros r kid Hr Hlt Hkid. apply list_elem_of_omap. exists (ChildHeading r).
      split; [done|]. rewrite decide_True by lia.
      replace (r - base)%nat with (S (r - S base)) in Hkid by lia. done.
  - intros Hcell. destruct (IH (S base) i Hcell) as (kids & Hread & Hc & Hh).
    exists kids. split; [done|]. split; [done|].
    intros r kid Hr Hlt Hkid. apply (Hh r kid Hr); [lia|].
    replace (r - base)%nat with (S (r - S base)) in Hkid by lia. done.
Qed.

Lemma subnodes_trans (n m k : Node) :
  m ∈ subnodes n -> k ∈ subnodes m -> k ∈ subnodes n.
Proof.
  revert m k. induction n as [c|h kids IH] using Node_ind_deep; intros m k Hm Hk.
  - simpl in Hm. apply list_elem_of_singleton in Hm. by subst m.
  - apply subnodes_heading in Hm as [->|(kid & Hkid & Hm)]; [done|].
    apply subnodes_heading. right. exists kid. split; [done|].
    rewrite Forall_forall in IH. by apply (IH kid Hkid m k).
Qed.

Lemma push_child_keeps hp top c a' cell x :
  hp !! a' = Some cell -> x ∈ cell.2 ->
  exists cell', push_child top c hp !! a' = Some cell' /\ cell'.1 = cell.1 /\ x ∈ cell'.2.
Proof.
  intros Ha Hx. rewrite push_child_lookup, Ha. simpl. eexists. split; [done|].
  destruct (decide (top = a')); simpl; [|done].
  split; [done|]. apply elem_of_app. by left.
Qed.

Lemma push_child_adds hp top c :
  (top < length hp)%nat ->
  exists cell', push_child top c hp !! top = Some cell' /\ c ∈ cell'.2.
Proof.
  intros [cell Hcell]%lookup_lt_is_Some. rewrite push_child_lookup, Hcell. simpl.
  eexists. split; [done|]. rewrite decide_True by done. simpl.
  apply elem_of_app. right. by left.
Qed.

Lemma placed_in_snoc hp cell d : placed_in hp d -> placed_in (hp ++ [cell]) d.
Proof.
  unfold placed_in. destruct (headingLevels _).
  - intros (a & ch & Ha). exists a, ch. apply lookup_app_l_Some. done.
  - intros (a & cell' & Ha & Hc). exists a, cell'. split; [|done].
    by apply lookup_app_l_Some.
Qed.

Lemma placed_in_push_child hp top c d :
  placed_in hp d -> placed_in (push_child top c hp) d.
Proof.
  unfold placed_in. destruct (headingLevels _).
  - intros (a & ch & Ha).
    exists a, (if decide (top = a) then ch ++ [c] else ch).
    rewrite push_child_lookup, Ha. simpl. by destruct (decide (top = a)).
  - intros (a & cell & Ha & Hc).
    destruct (push_child_keeps hp top c a cell _ Ha Hc) as (cell' & Hcell' & _ & Hin).
    eauto.
Qed.

Lemma place_keeps_placed (b : Builder) (d d' : EnrichedDetection) :
  placed_in (heap b) d' -> placed_in (heap (place b d)) d'.
Proof.
  intros Hd'. unfold place. destruct (headingLevels (d_label (e_detection d))).
  - destruct (pop_headings _ _ _); simpl.
    + by apply placed_in_snoc.
    + by apply placed_in_push_child, placed_in_snoc.
  - destruct (headingStack b); simpl.
    + by apply placed_in_snoc.
    + by apply placed_in_push_child.
Qed.

Lemma place_places (b : Builder) (d : EnrichedDetection) :
  builder_wf b -> placed_in (heap (place b d)) d.
Proof.
  intros [_ Hstack _]. unfold placed_in, place.
  destruct (headingLevels (d_label (e_detection d))) as [level|] eqn:Hl.
  - destruct (pop_headings _ _ _) as [|top rest]; simpl.
    + exists (length (heap b)), []. by apply list_lookup_middle.
    + exists (length (heap b)),
        (if decide (top = length (heap b)) then [ChildHeading (length (heap b))] else []).
      rewrite push_child_lookup.
      rewrite (list_lookup_middle (heap b) [] _ (length (heap b))) by done. simpl.
      by destruct (decide _).
  - destruct (headingStack b) as [|top rest] eqn:Hs; simpl.
    + exists (length (heap b)). eexists. split; [by apply list_lookup_middle|].
      simpl. by left.
    + assert (top < length (heap b))%nat as Htop.
      { apply below_valid in Hstack. by inversion Hstack. }
      destruct (push_child_adds (heap b) top (ChildContent (contentNode d)) Htop)
        as (cell' & Hcell' & Hin).
      eauto.
Qed.

Lemma attached_snoc_top (b : Builder) cell :
  heap_attached b ->
  heap_attached (mkBuilder (heap b ++ [cell]) (hierarchy b ++ [length (heap b)])
                   [length (heap b)]).
Proof.
  intros Hatt a. simpl. rewrite length_app. simpl. intros Ha.
  destruct (decide (a = length (heap b))) as [->|Hne].
  - left. apply elem_of_app. right. by left.
  - destruct (Hatt a ltac:(lia)) as [Hin|(a' & cell' & Ha' & Hc)].
    + left. apply elem_of_app. by left.
    + right. exists a', cell'. split; [|done]. by apply lookup_app_l_Some.
Qed.

Lemma attached_push_child (b : Builder) top c stack :
  heap_attached b ->
  heap_attached (mkBuilder (push_child top c (heap b)) (hierarchy b) stack).
Proof.
  intros Hatt a. simpl. rewrite push_child_length. intros Ha.
  destruct (Hatt a Ha) as [Hin|(a' & cell' & Ha' & Hc)]; [by left|].
  right. destruct (push_child_keeps _ top c _ _ _ Ha' Hc) as (cell'' & Hcell'' & _ & Hin).
  eauto.
Qed.

Lemma pop_headings_elem hp lvl stack a :
  a ∈ pop_headings hp lvl stack -> a ∈ stack.
Proof.
  induction stack as [|x stack IH]; simpl; [done|].
  destruct (num_ge _ _); [|done]. intros Ha. right. by apply IH.
Qed.

Lemma place_attached (b : Builder) (d : EnrichedDetection) :
  builder_wf b -> heap_attached b -> heap_attached (place b d).
Proof.
  intros [_ Hstack _] Hatt. unfold place.
  destruct (headingLevels (d_label (e_detection d))) as [level|].
  - set (hp := heap b ++ [(headingNode level d, [])]).
    destruct (pop_headings hp (levelNum level) (headingStack b)) as [|top rest] eqn:Hp.
    { by apply attached_snoc_top. }
    assert (top < length (heap b))%nat as Htop.
    { apply below_valid in Hstack. rewrite Forall_forall in Hstack.
      apply Hstack, (pop_headings_elem hp (levelNum level)). rewrite Hp. by left. }
    intros a. simpl. rewrite push_child_length. unfold hp at 1.
    rewrite length_app. simpl. intros Ha.
    destruct (decide (a = length (heap b))) as [->|Hne].
    + right.
      destruct (push_child_adds hp top (ChildHeading (length (heap b))))
        as (cell' & Hcell' & Hin); [|by eauto].
      unfold hp. rewrite length_app. simpl. lia.
    + destruct (Hatt a ltac:(lia)) as [Hin|(a' & cell' & Ha' & Hc)]; [by left|].
      right.
      destruct (push_child_keeps hp top (ChildHeading (length (heap b))) a' cell' _
                  ltac:(by apply lookup_app_l_Some) Hc) as (cell'' & Hcell'' & _ & Hin).
      eauto.
  - destruct (headingStack b) as [|top rest].
    + by apply attached_snoc_top.
    + by apply attached_push_child.
Qed.

Lemma run_places (l : list EnrichedDetection) (b : Builder) :
  builder_wf b -> heap_attached b ->
  heap_attached (fold_left place l b)
  /\ forall d, d ∈ l -> placed_in (heap (fold_left place l b)) d.
Proof.
  revert b. induction l as [|d l IH]; intros b Hwf Hatt; simpl.
  { split; [done|]. by intros d ?%elem_of_nil. }
  destruct (IH (place b d) (place_wf b d Hwf) (place_attached b d Hwf Hatt))
    as [Hatt' Hplaced].
  split; [done|]. intros d' [->|Hd']%elem_of_cons; [|by apply Hplaced].
  clear IH Hplaced Hatt'. pose proof (place_places b d Hwf) as Hd.
  revert Hd. generalize (place b d). clear. induction l as [|x l IH]; intros b' Hd; [done|].
  simpl. apply IH. by apply place_keeps_placed.
Qed.

(** The node read for any cell of the heap is in the hierarchy. *)
Lemma attached_in_forest (b : Builder) :
  builder_wf b -> heap_attached b ->
  forall a, (a < length (heap b))%nat ->
    exists node, read_cells 0 (heap b) !! a = Some node
                 /\ node ∈ forest_nodes (read_hierarchy b).
Proof.
  intros [Hwf _ _] Hatt a. induction a as [a IH] using lt_wf_ind. intros Ha.
  destruct (lookup_lt_is_Some_2 (read_cells 0 (heap b)) a) as [node Hnode].
  { by rewrite read_cells_length. }
  exists node. split; [done|].
  destruct (Hatt a Ha) as [Hin|(a' & [info' ch'] & Ha' & Hc)].
  - apply list_elem_of_bind. exists node. split; [apply subnodes_self|].
    apply list_elem_of_omap. by exists a.
  - destruct (Hwf a' _ Ha') as [_ Hrefs]. destruct (Hrefs a Hc) as [[Hlt _] _].
    destruct (IH a' Hlt ltac:(lia)) as (node' & Hnode' & Hforest).
    destruct (read_cells_kids _ 0 _ _ _ Ha') as (kids & Hread & _ & Hkids).
    rewrite Hread in Hnode'. injection Hnode' as <-.
    assert (node ∈ kids) as Hkid.
    { apply (Hkids a node Hc); [simpl in *; lia|]. by rewrite Nat.sub_0_r. }
    apply list_elem_of_bind in Hforest as (root & Hsub & Hroot).
    apply list_elem_of_bind. exists root. split; [|done].
    apply (subnodes_trans _ _ _ Hsub). apply subnodes_heading. right.
    exists node. split; [done|apply subnodes_self].
Qed.

(** Every detection of the input has its node in the
    hierarchy returned, a heading node for a heading detection and a
    content node for a content detection. *)
Theorem every_detection_is_in_the_hierarchy
    (detections : list EnrichedDetection) (d : EnrichedDetection) :
  d ∈ detections ->
  match headingLevels (d_label (e_detection d)) with
  | Some level =>
      exists kids,
        Heading (headingNode level d) kids
          ∈ forest_nodes (buildDocumentHierarchy detections).2
  | None =>
      ContentLeaf (contentNode d) ∈ forest_nodes (buildDocumentHierarchy detections).2
  end.
Proof.
  intros Hd%(Array_sort_elem document_before). unfold buildDocumentHierarchy. simpl.
  set (sorted := Array_sort document_before detections) in *.
  assert (heap_attached empty_builder) as Hatt0 by (intros a Ha; simpl in Ha; lia).
  destruct (run_places sorted empty_builder empty_builder_wf Hatt0) as [Hatt Hplaced].
  pose proof (run_wf sorted empty_builder empty_builder_wf) as Hwf.
  specialize (Hplaced d Hd). unfold placed_in in Hplaced.
  set (b := fold_left place sorted empty_builder) in *.
  destruct (headingLevels (d_label (e_detection d))) as [level|].
  - destruct Hplaced as (a & ch & Ha).
    destruct (attached_in_forest b Hwf Hatt a) as (node & Hnode & Hforest).
    { by apply lookup_lt_Some in Ha. }
    destruct (read_cells_kids _ 0 _ _ _ Ha) as (kids & Hread & _).
    rewrite Hread in Hnode. injection Hnode as <-. by exists kids.
  - destruct Hplaced as (a & [info ch] & Ha & Hc).
    destruct (attached_in_forest b Hwf Hatt a) as (node & Hnode & Hforest).
    { by apply lookup_lt_Some in Ha. }
    destruct (read_cells_kids _ 0 _ _ _ Ha) as (kids & Hread & Hkids & _).
    rewrite Hread in Hnode. injection Hnode as <-.
    apply list_elem_of_bind in Hforest as (root & Hsub & Hroot).
    apply list_elem_of_bind. exists root. split; [|done].
    apply (subnodes_trans _ _ _ Hsub). apply subnodes_heading. right.
    exists (ContentLeaf (contentNode d)). split; [by apply Hkids|apply subnodes_self].
Qed.

(** The theorem above on the title of [sample_page]. *)
Lemma sample_title_is_in_the_hierarchy :
  sample_title_enriched ∈ [sample_title_enriched; sample_flat_enriched]
  /\ exists kids,
       Heading (headingNode "H1" sample_title_enriched) kids
         ∈ forest_nodes
             (buildDocumentHierarchy [sample_title_enriched; sample_flat_enriched]).2.
Proof.
  assert (sample_title_enriched ∈ [sample_title_enriched; sample_flat_enriched])
    as Hin by (by left).
  split; [exact Hin|].
  exact (every_detection_is_in_the_hierarchy _ _ Hin).
Defined.

(** ** Further properties of the text extraction and of the export *)

Lemma extractText_attempts_nonempty
    ocr_ready recognize path bbox elementType (attempt remaining : nat) :
  extractText_attempts ocr_ready recognize path bbox elementType attempt remaining
  <> "".
Proof.
  revert attempt. induction remaining as [|remaining IH]; intros attempt; simpl.
  - done.
  - destruct (String.eqb_spec
                (extractTextFromRegion ocr_ready recognize path bbox elementType attempt)
                "") as [Heq|Hne]; simpl; [apply IH|].
    destruct (_ && _); [done|apply IH].
Qed.

(** Each list of [ocrProcessingSuggestions] holds, in
    the order of the pages, the detections of its label (Text, Title,
    Table, List-item), reduced to id, page and boxes, with the priority of
    the label and, for tables, the processing note. *)
Theorem suggestions_are_the_detections_of_a_label
    (results : list PageResult) (totalTime : number) :
  let sug := ocrProcessingSuggestions (saveBoundingBoxesToJson results totalTime).1 in
  textElements sug
  = suggestion "high" None <$> filter (has_label Text) (collected results)
  /\ titleElements sug
     = suggestion "highest" None <$> filter (has_label Title) (collected results)
  /\ tableElements sug
     = suggestion "high"
         (Some "Use table-specific OCR for better structure recognition")
         <$> filter (has_label Table) (collected results)
  /\ listElements sug
     = suggestion "medium" None <$> filter (has_label ListItem) (collected results).
Proof.
  destruct (save_views results totalTime)
    as (_ & _ & _ & Htext & Htitle & Htable & Hlist & _).
  done.
Qed.

(** ** The text of a region *)

Lemma extractText_attempts_usable
    ocr_ready recognize path bbox l (attempt remaining : nat) :
  usable (extractText_attempts ocr_ready recognize path bbox l attempt remaining) = true.
Proof.
  revert attempt. induction remaining as [|remaining IH]; intros attempt; simpl.
  - by destruct l.
  - fold (usable (extractTextFromRegion ocr_ready recognize path bbox l attempt)).
    destruct (usable (extractTextFromRegion _ _ _ _ _ _)) eqn:E; [done|apply IH].
Qed.

(** The failure markers of [extractTextFromRegion] never leave the retry
    loop: the text [extractTextWithRetry] returns holds neither
    "extraction failed" nor "OCR error", whatever the recognizer reads (a
    recognized text that holds one of them is itself taken for a failure). *)
Theorem extracted_text_has_no_failure_marker
    (ocr_ready : bool) (recognize : string -> array4 -> Label -> nat -> option string)
    (path : string) (bbox : array4) (elementType : Label) :
  let text := extractTextWithRetry ocr_ready recognize path bbox elementType in
  includes "extraction failed" text = false /\ includes "OCR error" text = false.
Proof.
  intros text.
  pose proof (extractText_attempts_usable ocr_ready recognize path bbox elementType 1 2) as H.
  fold (extractTextWithRetry ocr_ready recognize path bbox elementType) in H. fold text in H.
  unfold usable in H. apply andb_true_iff in H as [[_ H1]%andb_true_iff H2].
  by split; apply negb_true_iff.
Qed.

Lemma extractTextFromRegion_rejected recognize path bbox l attempt :
  l <> Picture ->
  rejected (recognize path bbox l attempt) ->
  usable (extractTextFromRegion true recognize path bbox l attempt) = false.
Proof.
  intros Hl Hr. unfold extractTextFromRegion. simpl.
  rewrite decide_False by done.
  destruct (recognize path bbox l attempt) as [t|]; simpl in Hr.
  - destruct t as [|c t]; [by destruct l|]. done.
  - by destruct l.
Qed.

Lemma extractTextFromRegion_accepted recognize path bbox l attempt t :
  l <> Picture ->
  recognize path bbox l attempt = Some t -> usable t = true ->
  extractTextFromRegion true recognize path bbox l attempt = t.
Proof.
  intros Hl Hr Ht. unfold extractTextFromRegion. simpl.
  rewrite decide_False by done. rewrite Hr.
  destruct t as [|c t]; [done|]. done.
Qed.

(** With a worker, a Picture is never read: its text is the image
    placeholder.  Any other region gets the text of the first attempt when
    that text is usable, else the text of the second attempt when that one
    is usable, and else, after two attempts, the placeholder
    "[<label> content (Page)]" (which names no page). *)
Theorem text_of_a_region_with_a_worker
    (recognize : string -> array4 -> Label -> nat -> option string)
    (path : string) (bbox : array4) (elementType : Label) :
  let text := extractTextWithRetry true recognize path bbox elementType in
  let first := recognize path bbox elementType 1%nat in
  let second := recognize path bbox elementType 2%nat in
  (elementType = Picture -> text = "[Picture - image content]")
  /\ (elementType <> Picture ->
      (forall t, first = Some t -> usable t = true -> text = t)
      /\ (forall t, rejected first -> second = Some t -> usable t = true -> text = t)
      /\ (rejected first -> rejected second ->
          text = "[" +:+ label_name elementType +:+ " content (Page)]")).
Proof.
  intros text first second. split; [by intros ->|].
  intros Hl. unfold text, extractTextWithRetry. simpl.
  fold (usable (extractTextFromRegion true recognize path bbox elementType 1)).
  fold (usable (extractTextFromRegion true recognize path bbox elementType 2)).
  split; [|split].
  - intros t Ht Hu.
    rewrite (extractTextFromRegion_accepted _ _ _ _ _ t Hl Ht Hu). by rewrite Hu.
  - intros t H1 Ht Hu.
    rewrite (extractTextFromRegion_rejected _ _ _ _ _ Hl H1).
    rewrite (extractTextFromRegion_accepted _ _ _ _ _ t Hl Ht Hu). by rewrite Hu.
  - intros H1 H2.
    rewrite (extractTextFromRegion_rejected _ _ _ _ _ Hl H1).
    by rewrite (extractTextFromRegion_rejected _ _ _ _ _ Hl H2).
Qed.

(** The theorem above on a title the sample recognizer reads at the first
    attempt. *)
Lemma text_of_a_read_title :
  Title <> Picture
  /\ sample_recognize "page-1.png" (10, 10, 100, 30)%float Title 1%nat = Some "lorem"
  /\ usable "lorem" = true
  /\ extractTextWithRetry true sample_recognize "page-1.png" (10, 10, 100, 30)%float Title
     = "lorem".
Proof.
  assert (Title <> Picture) as Hl by discriminate.
  split; [exact Hl|]. split; [reflexivity|]. split; [reflexivity|].
  exact (proj1 (proj2 (text_of_a_region_with_a_worker
                         sample_recognize "page-1.png" (10, 10, 100, 30)%float Title) Hl)
           "lorem" eq_refl eq_refl).
Defined.

(** ** The texts of a run *)

Lemma main_allDetections ocr_ready recognize inputs totalTime e :
  e ∈ allDetections (main ocr_ready recognize inputs totalTime).1
  <-> e ∈ collected (process_pages ocr_ready recognize inputs).
Proof.
  unfold main.
  destruct (save_views (process_pages ocr_ready recognize inputs) totalTime) as (-> & _).
  unfold buildDocumentHierarchy. simpl. apply Array_sort_elem.
Qed.

(** The text of a detection of a page is the text the retry loop returns
    for the detection's box and label on the image of the page. *)
Lemma page_text (ocr_ready : bool) recognize inp pageNumber d :
  d ∈ r_detections (processPage ocr_ready recognize inp pageNumber) ->
  d_extractedText d
  = extractTextWithRetry ocr_ready recognize (imagePath inp) (d_bbox d) (d_label d).
Proof.
  intros (p & d0 & ro & (_ & _ & count & Hn) & ->)%processPage_detections.
  unfold normalize in Hn. destruct (p_score p <? CONFIDENCE_THRESHOLD)%float; [done|].
  by injection Hn as <-.
Qed.

Lemma exported_text ocr_ready recognize (inputs : list PageInput) (e : EnrichedDetection) :
  e ∈ collected (process_pages ocr_ready recognize inputs) ->
  d_extractedText (e_detection e)
  = extractTextWithRetry ocr_ready recognize (e_sourceImagePath e)
      (d_bbox (e_detection e)) (d_label (e_detection e)).
Proof.
  intros (r & (d & -> & Hd)%list_elem_of_fmap & Hr)%list_elem_of_bind.
  apply process_pages_elem in Hr as (i & inp & _ & ->).
  by apply page_text in Hd.
Qed.

(** When tesseract.js could not be loaded, or [createWorker] throws, the
    run goes on without a worker, and the text of every detection it
    exports is the placeholder "[<label> content - OCR not available]". *)
Theorem without_worker_every_text_is_a_placeholder
    {W : Type} (enabled : bool) (createWorker : string -> option W)
    (recognize : string -> array4 -> Label -> nat -> option string)
    (inputs : list PageInput) (totalTime : number) (e : EnrichedDetection) :
  enabled = false \/ createWorker OCR_language = None ->
  let ocrWorker := initializeOCRWorker enabled createWorker None in
  let out := main (worker_ready enabled ocrWorker) recognize inputs totalTime in
  e ∈ allDetections out.1 ->
  d_extractedText (e_detection e)
  = "[" +:+ label_name (d_label (e_detection e)) +:+ " content - OCR not available]".
Proof.
  intros Hno ocrWorker out He.
  assert (worker_ready enabled ocrWorker = false) as Hready.
  { unfold worker_ready, ocrWorker, initializeOCRWorker.
    destruct Hno as [->|Hc]; [done|]. rewrite Hc. destruct enabled; done. }
  unfold out in He. rewrite Hready in He.
  apply main_allDetections, exported_text in He. rewrite He.
  by destruct (d_label (e_detection e)).
Qed.

(** The theorem above on [sample_page], with a [createWorker] that
    throws. *)
Lemma unread_title_has_the_placeholder :
  let createWorker := fun _ : string => @None unit in
  let ocrWorker := initializeOCRWorker true createWorker None in
  (true = false \/ createWorker OCR_language = None)
  /\ sample_unread_title
       ∈ allDetections
           (main (worker_ready true ocrWorker) sample_recognize [sample_page] 3%float).1
  /\ d_extractedText (e_detection sample_unread_title)
     = "[Title content - OCR not available]".
Proof.
  intros createWorker ocrWorker.
  assert (true = false \/ createWorker OCR_language = None) as Hno by (by right).
  assert (sample_unread_title
            ∈ allDetections
                (main (worker_ready true ocrWorker) sample_recognize
                   [sample_page] 3%float).1) as Hin.
  { vm_compute. left. }
  split; [exact Hno|]. split; [exact Hin|].
  exact (without_worker_every_text_is_a_placeholder
           true createWorker sample_recognize [sample_page] 3%float
           sample_unread_title Hno Hin).
Defined.

(** ** The extraction count *)

Lemma filter_all {A} (f : A -> bool) (l : list A) :
  Forall (fun x => f x = true) l -> List.filter f l = l.
Proof. induction 1 as [|x l Hx _ IH]; simpl; [done|]. by rewrite Hx, IH. Qed.

Lemma filter_none {A} (f : A -> bool) (l : list A) :
  Forall (fun x => f x = false) l -> List.filter f l = [].
Proof. induction 1 as [|x l Hx _ IH]; simpl; [done|]. by rewrite Hx, IH. Qed.

Lemma extractTextFromRegion_available recognize path bbox l attempt :
  (forall path bbox l attempt t,
     recognize path bbox l attempt = Some t -> includes "OCR not available" t = false) ->
  includes "OCR not available"
    (extractTextFromRegion true recognize path bbox l attempt) = false.
Proof.
  intros Hrec. unfold extractTextFromRegion. simpl.
  destruct (decide (l = Picture)) as [->|_]; [done|].
  destruct (recognize path bbox l attempt) as [t|] eqn:E; [|by destruct l].
  destruct (0 <? String.length t)%nat; [by eapply Hrec|by destruct l].
Qed.

Lemma extractText_attempts_available recognize path bbox l attempt remaining :
  (forall path bbox l attempt t,
     recognize path bbox l attempt = Some t -> includes "OCR not available" t = false) ->
  includes "OCR not available"
    (extractText_attempts true recognize path bbox l attempt remaining) = false.
Proof.
  intros Hrec. revert attempt.
  induction remaining as [|remaining IH]; intros attempt; simpl; [by destruct l|].
  destruct (_ && _); [|apply IH]. by apply extractTextFromRegion_available.
Qed.

(** The number of text extractions [main] reports for a page is all or
    nothing: it is 0 without a worker, and with a worker it is the number
    of detections of the page, the pictures and the regions whose two
    attempts failed included (their placeholders pass the filter), as long
    as no recognized text holds "OCR not available". *)
Theorem text_extractions_are_all_or_none
    (ocr_ready : bool) (recognize : string -> array4 -> Label -> nat -> option string)
    (inputs : list PageInput) (result : PageResult) :
  result ∈ process_pages ocr_ready recognize inputs ->
  (ocr_ready = false -> textExtractions result = 0)
  /\ (ocr_ready = true ->
      (forall path bbox l attempt t,
         recognize path bbox l attempt = Some t ->
         includes "OCR not available" t = false) ->
      textExtractions result = Z.of_nat (length (r_detections result))).
Proof.
  intros (i & inp & _ & ->)%process_pages_elem. unfold textExtractions. split.
  - intros ->. rewrite filter_none; [done|].
    apply Forall_forall. intros d Hd%page_text. unfold text_extracted. rewrite Hd.
    by destruct (d_label d).
  - intros -> Hrec. rewrite filter_all; [done|].
    apply Forall_forall. intros d Hd%page_text. unfold text_extracted. rewrite Hd.
    pose proof (extractText_attempts_usable true recognize (imagePath inp) (d_bbox d)
                  (d_label d) 1 2) as Hu.
    pose proof (extractText_attempts_available recognize (imagePath inp) (d_bbox d)
                  (d_label d) 1 2 Hrec) as Ha.
    unfold usable in Hu. apply andb_true_iff in Hu as [[Hne Hf]%andb_true_iff _].
    unfold extractTextWithRetry. by rewrite Hne, Hf, Ha.
Qed.

(** The theorem above on [sample_page]: its three detections all count. *)
Lemma text_extractions_of_sample_page :
  let result := processPage true sample_recognize sample_page 1 in
  result ∈ process_pages true sample_recognize [sample_page]
  /\ (forall path bbox l attempt t,
        sample_recognize path bbox l attempt = Some t ->
        includes "OCR not available" t = false)
  /\ textExtractions result = 3.
Proof.
  intros result.
  assert (result ∈ process_pages true sample_recognize [sample_page]) as Hin by (by left).
  assert (forall path bbox l attempt t,
            sample_recognize path bbox l attempt = Some t ->
            includes "OCR not available" t = false) as Hrec.
  { intros path bbox l attempt t [= <-]. reflexivity. }
  split; [exact Hin|]. split; [exact Hrec|].
  exact (proj2 (text_extractions_are_all_or_none true sample_recognize [sample_page]
                  result Hin) eq_refl Hrec).
Defined.

(** ** The counts of the export *)

Lemma by_type_push_keys (m : ByType) (l : Label) (e : EnrichedDetection) k :
  k ∈ (by_type_push m l e).*1 <-> k = l \/ k ∈ m.*1.
Proof.
  induction m as [|[k' v] m IH]; simpl.
  - rewrite list_elem_of_singleton, elem_of_nil. tauto.
  - destruct (decide (k' = l)) as [->|Hne]; simpl.
    + rewrite !elem_of_cons. tauto.
    + rewrite !elem_of_cons, IH. tauto.
Qed.

Lemma by_type_push_wf (m : ByType) (l : Label) (e : EnrichedDetection) :
  by_type_wf m -> by_type_wf (by_type_push m l e).
Proof.
  intros [Hnd Hne]. induction m as [|[k v] m IH]; simpl.
  - split; [apply NoDup_singleton|]. by repeat constructor.
  - apply NoDup_cons in Hnd as [Hk Hnd]. apply Forall_cons in Hne as [Hv Hne].
    destruct (decide (k = l)) as [->|Hkl]; simpl.
    + split; [by apply NoDup_cons|]. constructor; [|done]. simpl. by destruct v.
    + destruct (IH Hnd Hne) as [Hnd' Hne']. split; [|by constructor].
      apply NoDup_cons. split; [|done]. rewrite by_type_push_keys. intros [?|?]; done.
Qed.

Lemma by_type_push_total (m : ByType) (l : Label) (e : EnrichedDetection) :
  total (by_type_sizes (by_type_push m l e)) = total (by_type_sizes m) + 1.
Proof.
  unfold total. induction m as [|[k v] m IH]; simpl; [done|].
  destruct (decide (k = l)); simpl.
  - rewrite length_app. simpl. lia.
  - rewrite IH. lia.
Qed.

Lemma by_type_get_elem (m : ByType) (l : Label) v :
  NoDup m.*1 -> (l, v) ∈ m <-> by_type_get m l = Some v.
Proof.
  induction m as [|[k v'] m IH]; simpl; intros Hnd.
  - split; [by intros ?%elem_of_nil|done].
  - apply NoDup_cons in Hnd as [Hk Hnd]. rewrite elem_of_cons.
    destruct (decide (k = l)) as [->|Hkl].
    + split.
      * intros [[= ->]|Hin]; [done|]. destruct Hk.
        apply list_elem_of_fmap. by exists (l, v).
      * intros [= ->]. by left.
    + rewrite <- (IH Hnd). split; [|tauto]. intros [[= -> ->]|?]; done.
Qed.

Lemma collect_wf results acc :
  by_type_wf acc.1 ->
  total (by_type_sizes acc.1) = Z.of_nat (length acc.2) ->
  let acc' := fold_left collect_page results acc in
  by_type_wf acc'.1
  /\ total (by_type_sizes acc'.1) = Z.of_nat (length acc'.2).
Proof.
  revert acc. induction results as [|r results IH]; intros acc Hwf Htot; simpl; [done|].
  apply IH; unfold collect_page; generalize (r_detections r); intros ds;
    revert acc Hwf Htot; induction ds as [|d ds IHd]; intros acc Hwf Htot; simpl;
    try done.
  - apply IHd; simpl; [by apply by_type_push_wf|].
    rewrite by_type_push_total, Htot, length_app. simpl. lia.
  - apply IHd; simpl; [by apply by_type_push_wf|].
    rewrite by_type_push_total, Htot, length_app. simpl. lia.
Qed.

Lemma collected_length (results : list PageResult) :
  Z.of_nat (length (collected results))
  = total ((fun r => Z.of_nat (length (r_detections r))) <$> results).
Proof.
  unfold collected. induction results as [|r results IH]; [done|].
  rewrite bind_cons, fmap_cons, length_app, length_fmap, Nat2Z.inj_add, IH. done.
Qed.

Lemma by_type_sizes_counts (m : ByType) :
  by_type_sizes m
  = (map (fun kv : Label * list EnrichedDetection => (kv.1, Z.of_nat (length kv.2))) m).*2.
Proof. induction m as [|[k v] m IH]; simpl; [done|]. by rewrite IH. Qed.

(** The counts of the export agree: [metadata.totalDetections] is the
    length of [allDetections], the sum of the [detectionsCount] of the
    pages, the sum of [elementTypeCounts] and the number of rows of the
    CSV; and [metadata.totalPages] is the number of entries of [pages]. *)
Theorem detection_counts_agree (results : list PageResult) (totalTime : number) :
  let out := saveBoundingBoxesToJson results totalTime in
  let n := totalDetections (metadata out.1) in
  n = Z.of_nat (length (allDetections out.1))
  /\ n = total (pv_detectionsCount <$> pages out.1)
  /\ n = total (elementTypeCounts (metadata out.1)).*2
  /\ n = Z.of_nat (length out.2)
  /\ totalPages (metadata out.1) = Z.of_nat (length (pages out.1)).
Proof.
  unfold saveBoundingBoxesToJson.
  destruct (collect_pages_spec results ([], [])) as [_ Hall]; [done|].
  destruct (collect_wf results ([], [])) as [_ Htot].
  { split; [constructor|constructor]. }
  { done. }
  destruct (fold_left collect_page results ([], [])) as [m all].
  simpl in Hall, Htot. subst all.
  unfold buildDocumentHierarchy. simpl.
  rewrite <- by_type_sizes_counts, Htot, Array_sort_length, !length_map.
  repeat split.
  - rewrite collected_length. f_equal. by rewrite <- list_fmap_compose.
  - by rewrite Array_sort_length.
Qed.

(** [metadata.elementTypeCounts] has one key for each label that occurs
    among the detections and no other key (so no count is 0), and the
    count of a label is the number of detections of that label. *)
Theorem element_type_counts (results : list PageResult) (totalTime : number) :
  let counts := elementTypeCounts (metadata (saveBoundingBoxesToJson results totalTime).1) in
  NoDup counts.*1
  /\ forall l n,
       (l, n) ∈ counts
       <-> n = Z.of_nat (length (filter (has_label l) (collected results))) /\ 0 < n.
Proof.
  unfold saveBoundingBoxesToJson.
  destruct (collect_pages_spec results ([], [])) as [Hspec Hall]; [done|].
  destruct (collect_wf results ([], [])) as [[Hnd Hne] _].
  { split; [constructor|constructor]. }
  { done. }
  destruct (fold_left collect_page results ([], [])) as [m all].
  simpl in Hspec, Hall, Hnd, Hne. subst all.
  unfold buildDocumentHierarchy. simpl. split.
  { rewrite <- list_fmap_compose. done. }
  intros l n. specialize (Hspec l). split.
  - intros ([k v] & [= -> ->] & Hin)%list_elem_of_fmap. simpl.
    rewrite Forall_forall in Hne. pose proof (Hne _ Hin) as Hv. simpl in Hv.
    apply (by_type_get_elem _ _ _ Hnd) in Hin. rewrite Hin in Hspec. simpl in Hspec.
    rewrite <- Hspec. split; [done|]. destruct v; [done|simpl; lia].
  - intros [-> Hpos]. rewrite <- Hspec in *.
    destruct (by_type_get m l) as [v|] eqn:E; simpl in *; [|lia].
    apply (by_type_get_elem _ _ _ Hnd) in E.
    apply list_elem_of_fmap. by exists (l, v).
Qed.

(** ** The ids of the detections *)

Lemma split_at_char (c : ascii) (s r : string) :
  free_of c s = true ->
  before_char c (s +:+ String c r) = s /\ after_char c (s +:+ String c r) = r.
Proof.
  induction s as [|c' s IH]; simpl.
  - by rewrite Ascii.eqb_refl.
  - intros [Hc Hs]%andb_true_iff. apply negb_true_iff in Hc. rewrite Hc.
    destruct (IH Hs) as [-> ->]. done.
Qed.

Lemma pretty_N_go_free (x : N) (s : string) :
  free_of "_" s = true -> free_of "_" (pretty_N_go x s) = true.
Proof.
  revert s. induction (N.lt_wf_0 x) as [x _ IH]; intros s Hs.
  assert (x = 0 \/ 0 < x)%N as [->|Hx] by lia; [by rewrite pretty_N_go_0|].
  rewrite pretty_N_go_step by done. apply IH; [by apply N.div_lt|].
  simpl. rewrite Hs. unfold pretty_N_char. by repeat case_match.
Qed.

Lemma pretty_Z_free (z : Z) : free_of "_" (pretty z) = true.
Proof.
  assert (forall p : positive, free_of "_" (pretty p) = true) as Hpos.
  { intros p. unfold pretty, pretty_positive, pretty, pretty_N.
    case_decide; [done|]. by apply pretty_N_go_free. }
  destruct z as [|p|p]; [done|apply Hpos|]. unfold pretty, pretty_Z. simpl.
  apply Hpos.
Qed.

(** An id names one page and one number. *)
Lemma detection_id_inj (p k p' k' : Z) :
  detection_id p k = detection_id p' k' -> p = p' /\ k = k'.
Proof.
  unfold detection_id. intros [= H].
  pose proof (split_at_char "_" (pretty p) ("detection" +:+ pretty k) (pretty_Z_free p))
    as [Hb Ha].
  pose proof (split_at_char "_" (pretty p') ("detection" +:+ pretty k') (pretty_Z_free p'))
    as [Hb' Ha'].
  change ("_detection" +:+ pretty k) with (String "_" ("detection" +:+ pretty k)) in H.
  change ("_detection" +:+ pretty k') with (String "_" ("detection" +:+ pretty k')) in H.
  change ("" +:+ ?s) with s in H.
  rewrite H in Hb, Ha. rewrite Hb' in Hb. rewrite Ha' in Ha.
  injection Ha as Ha. split; by apply (inj pretty).
Qed.

Section Ids.
Variable ocr_ready : bool.
Variable recognize : string -> array4 -> Label -> nat -> option string.

(** The [i]-th detection pushed on a page has the id numbered [i + 1]. *)
Lemma push_fold_ids inp pageNumber ps acc :
  (forall i d, acc !! i = Some d -> d_id d = detection_id pageNumber (Z.of_nat i + 1)) ->
  forall i d,
    fold_left (push_detection ocr_ready recognize inp pageNumber) ps acc !! i = Some d ->
    d_id d = detection_id pageNumber (Z.of_nat i + 1).
Proof.
  revert acc. induction ps as [|p ps IH]; intros acc Hacc; simpl; [done|].
  apply IH. unfold push_detection.
  destruct (normalize ocr_ready recognize inp pageNumber (length acc) p) as [d0|] eqn:E;
    [|done].
  intros i d [[_ Hi]|[-> <-]]%lookup_snoc_Some; [by apply Hacc|].
  unfold normalize in E. destruct (p_score p <? CONFIDENCE_THRESHOLD)%float; [done|].
  by injection E as <-.
Qed.

Lemma candidates_ids inp pageNumber i d :
  candidates ocr_ready recognize inp pageNumber !! i = Some d ->
  d_id d = detection_id pageNumber (Z.of_nat i + 1).
Proof. apply push_fold_ids. by intros i' d' ?. Qed.

Lemma candidates_ids_NoDup inp pageNumber :
  NoDup (d_id <$> candidates ocr_ready recognize inp pageNumber).
Proof.
  apply NoDup_alt. intros i j s. rewrite !list_lookup_fmap.
  destruct (candidates _ _ _ _ !! i) as [di|] eqn:Ei; [|done].
  destruct (candidates _ _ _ _ !! j) as [dj|] eqn:Ej; [|done].
  apply candidates_ids in Ei, Ej. simpl. intros [= <-] [= Heq].
  rewrite Ei, Ej in Heq. apply detection_id_inj in Heq as [_ Heq]. lia.
Qed.

(** The sort and the reading orders leave the ids of a page as they
    are. *)
Lemma page_ids inp pageNumber :
  d_id <$> r_detections (processPage ocr_ready recognize inp pageNumber)
  ≡ₚ d_id <$> candidates ocr_ready recognize inp pageNumber.
Proof.
  simpl. unfold mapi. rewrite fmap_imap.
  rewrite (imap_ext _ (const d_id)) by done.
  rewrite imap_const. apply fmap_Permutation, Array_sort_perm.
Qed.

Lemma page_id_form inp pageNumber s :
  s ∈ d_id <$> r_detections (processPage ocr_ready recognize inp pageNumber) ->
  exists k, 1 <= k <= Z.of_nat (length (candidates ocr_ready recognize inp pageNumber))
            /\ s = detection_id pageNumber k.
Proof.
  rewrite page_ids. intros (d & -> & [i Hi]%list_elem_of_lookup)%list_elem_of_fmap.
  pose proof (lookup_lt_Some _ _ _ Hi) as Hlt.
  apply candidates_ids in Hi. exists (Z.of_nat i + 1). split; [lia|done].
Qed.

Lemma pages_ids (k : nat) (inputs : list PageInput) :
  let results :=
    imap (fun i inp => processPage ocr_ready recognize inp (Z.of_nat (k + i) + 1))
         inputs in
  NoDup (d_id <$> results ≫= r_detections)
  /\ forall s, s ∈ d_id <$> results ≫= r_detections ->
       exists p n, Z.of_nat k + 1 <= p /\ s = detection_id p n.
Proof.
  revert k. induction inputs as [|inp rest IH]; intros k.
  { split; [constructor|]. by intros s ?%elem_of_nil. }
  intros results. unfold results. rewrite imap_cons, bind_cons.
  rewrite (imap_ext _
             (fun i inp => processPage ocr_ready recognize inp (Z.of_nat (S k + i) + 1)))
    by (intros i x _; simpl; do 2 f_equal; lia).
  destruct (IH (S k)) as [Hnd Hform].
  rewrite Nat.add_0_r.
  rewrite fmap_app. split.
  - apply NoDup_app. split; [|split; [|done]].
    + rewrite page_ids. apply candidates_ids_NoDup.
    + intros s (n & _ & ->)%page_id_form (p' & n' & Hp' & Heq)%Hform.
      apply detection_id_inj in Heq as [Heq _]. lia.
  - intros s [(n & _ & ->)%page_id_form|(p' & n' & Hp' & ->)%Hform]%elem_of_app.
    + exists (Z.of_nat k + 1), n. split; [lia|done].
    + exists p', n'. split; [lia|done].
Qed.
End Ids.

(** No two detections of a run have the same id, and the id of a
    detection names its page: it is "page<p>_detection<k>" for the page
    number [p] of the detection and a [k] from 1 to the number of
    detections of that page (the rank the detection was pushed at, before
    the sort by reading order). *)
Theorem detection_ids_are_unique
    (ocr_ready : bool) (recognize : string -> array4 -> Label -> nat -> option string)
    (inputs : list PageInput) (totalTime : number) :
  let results := process_pages ocr_ready recognize inputs in
  let out := saveBoundingBoxesToJson results totalTime in
  NoDup (d_id ∘ e_detection <$> allDetections out.1)
  /\ forall r d, r ∈ results -> d ∈ r_detections r ->
       exists k, 1 <= k <= Z.of_nat (length (r_detections r))
                 /\ d_id d = detection_id (r_pageNumber r) k.
Proof.
  intros results out. unfold out, results.
  destruct (save_views (process_pages ocr_ready recognize inputs) totalTime) as (-> & _).
  unfold buildDocumentHierarchy. simpl. split.
  - rewrite Array_sort_perm, list_fmap_compose, collected_detections.
    apply (pages_ids ocr_ready recognize 0 inputs).
  - intros r d Hr Hd.
    apply process_pages_elem in Hr as (i & inp & _ & ->).
    destruct (page_id_form ocr_ready recognize inp (Z.of_nat i + 1) (d_id d))
      as (k & Hk & Hid).
    { apply list_elem_of_fmap. by exists d. }
    exists k. split; [|done].
    assert (length (r_detections (processPage ocr_ready recognize inp (Z.of_nat i + 1)))
            = length (candidates ocr_ready recognize inp (Z.of_nat i + 1))) as ->; [|done].
    simpl. by rewrite mapi_length, Array_sort_length.
Qed.

(** ** A sort with a comparator that is an ordering *)

Section SortedFacts.
Context {A : Type} (before : A -> A -> bool) (le : A -> A -> Prop) (P : A -> Prop).
Hypothesis le_trans : forall x y z, P x -> P y -> P z -> le x y -> le y z -> le x z.
Hypothesis before_le : forall x y, P x -> P y -> before x y = true -> le x y.
Hypothesis not_before_le : forall x y, P x -> P y -> before x y = false -> le y x.

Lemma sort_insert_ordered (x : A) (l : list A) :
  P x -> Forall P l -> StronglySorted le l -> StronglySorted le (sort_insert before x l).
Proof.
  intros Hx HP Hl. induction Hl as [|y l Hl IH Hy]; simpl; [repeat constructor|].
  apply Forall_cons in HP as [Hpy HP].
  destruct (before x y) eqn:E.
  - apply before_le in E; [|done..]. constructor; [by constructor|].
    constructor; [done|]. rewrite Forall_forall in Hy, HP. apply Forall_forall.
    intros z Hz. apply (le_trans x y z); auto.
  - apply not_before_le in E; [|done..]. constructor; [by apply IH|].
    rewrite sort_insert_perm. by constructor.
Qed.

(** The sort leaves the array in the order of the comparator. *)
Lemma Array_sort_ordered (l : list A) :
  Forall P l -> StronglySorted le (Array_sort before l).
Proof.
  unfold Array_sort. intros HP.
  assert (Forall P (@nil A)) as Hacc by constructor.
  revert Hacc. generalize (SSorted_nil le). generalize (@nil A).
  induction HP as [|x l Hx HP IH]; intros acc Hsorted Hacc; simpl; [done|].
  apply IH; [by apply sort_insert_ordered|].
  rewrite sort_insert_perm. by constructor.
Qed.
End SortedFacts.

(** ** The order the hierarchy builder puts the detections in *)

Lemma document_le_trans (x y z : EnrichedDetection) :
  document_le x y -> document_le y z -> document_le x z.
Proof.
  unfold document_le.
  intros [Hxy|(Hxy & rx & ry & Hx & Hy & Hle)] [Hyz|(Hyz & ry' & rz & Hy' & Hz & Hle')].
  - left. lia.
  - left. lia.
  - left. lia.
  - right. split; [lia|]. exists rx, rz. rewrite Hy in Hy'. injection Hy' as <-.
    repeat split; [done..|lia].
Qed.

Lemma document_before_le (x y : EnrichedDetection) :
  has_reading_order x -> has_reading_order y ->
  (document_before x y = true -> document_le x y)
  /\ (document_before x y = false -> document_le y x).
Proof.
  intros [rx Hx] [ry Hy]. unfold document_before, document_cmp, document_le.
  rewrite Hx, Hy. destruct (e_pageNumber x =? e_pageNumber y) eqn:E; simpl.
  - apply Z.eqb_eq in E. split.
    + intros Hlt%Z.ltb_lt. right. split; [done|]. exists rx, ry. repeat split; [done..|lia].
    + intros Hge%Z.ltb_ge. right. split; [done|]. exists ry, rx. repeat split; [done..|lia].
  - apply Z.eqb_neq in E. split.
    + intros Hlt%Z.ltb_lt. left. lia.
    + intros Hge%Z.ltb_ge. left. lia.
Qed.

(** Whatever the order of the list it is given, the hierarchy builder
    leaves it sorted by page and, on a page, by reading order, as long as
    every detection has a reading order; the list keeps its elements. *)
Theorem hierarchy_builder_sorts_the_detections (detections : list EnrichedDetection) :
  Forall has_reading_order detections ->
  finalized (buildDocumentHierarchy detections).1
  /\ (buildDocumentHierarchy detections).1 ≡ₚ detections.
Proof.
  intros Hro. unfold buildDocumentHierarchy, finalized. cbn [fst]. split.
  - apply (Array_sort_ordered document_before document_le has_reading_order); [..|done].
    + intros x y z _ _ _. apply document_le_trans.
    + intros x y Hx Hy. by apply document_before_le.
    + intros x y Hx Hy. by apply document_before_le.
  - apply Array_sort_perm.
Qed.

(** The theorem above on a text given before the title that precedes it
    on the page. *)
Lemma unordered_sample_is_sorted :
  Forall has_reading_order [sample_flat_enriched; sample_title_enriched]
  /\ finalized (buildDocumentHierarchy [sample_flat_enriched; sample_title_enriched]).1
  /\ (buildDocumentHierarchy [sample_flat_enriched; sample_title_enriched]).1
     ≡ₚ [sample_flat_enriched; sample_title_enriched].
Proof.
  assert (Forall has_reading_order [sample_flat_enriched; sample_title_enriched]) as Hro.
  { repeat constructor; by eexists. }
  split; [exact Hro|].
  exact (hierarchy_builder_sorts_the_detections _ Hro).
Defined.

(** ** The page images *)

Lemma substring_all (s : string) : String.substring 0 (String.length s) s = s.
Proof. induction s as [|c s IH]; simpl; [done|]. by rewrite IH. Qed.

Lemma substring_suffix (stem suffix : string) :
  String.substring (String.length stem) (String.length suffix) (stem +:+ suffix) = suffix.
Proof. induction stem as [|c stem IH]; simpl; [apply substring_all|done]. Qed.

Lemma string_length_app (s1 s2 : string) :
  String.length (s1 +:+ s2) = (String.length s1 + String.length s2)%nat.
Proof. induction s1 as [|c s1 IH]; simpl; [done|]. by rewrite IH. Qed.

Lemma substring_split (n : nat) (s : string) :
  (n <= String.length s)%nat ->
  s = String.substring 0 n s +:+ String.substring n (String.length s - n) s.
Proof.
  revert n. induction s as [|c s IH]; intros [|n] Hn; simpl in *; try lia.
  - done.
  - by rewrite substring_all.
  - change (String c ?a +:+ ?b) with (String c (a +:+ b)). f_equal. apply IH. lia.
Qed.

Lemma endsWith_spec (suffix s : string) :
  endsWith suffix s = true <-> exists stem, s = stem +:+ suffix.
Proof.
  unfold endsWith. split.
  - intros [Hlen Heq]%andb_true_iff. apply Nat.leb_le in Hlen.
    apply String.eqb_eq in Heq.
    exists (String.substring 0 (String.length s - String.length suffix) s).
    pose proof (substring_split (String.length s - String.length suffix) s ltac:(lia))
      as Hsplit.
    replace (String.length s - (String.length s - String.length suffix))%nat
      with (String.length suffix) in Hsplit by lia.
    by rewrite Heq in Hsplit.
  - intros [stem ->]. rewrite string_length_app. apply andb_true_iff. split.
    + apply Nat.leb_le. lia.
    + replace (String.length stem + String.length suffix - String.length suffix)%nat
        with (String.length stem) by lia.
      rewrite substring_suffix. apply String.eqb_refl.
Qed.

Lemma path_join_TEMP_DIR (f : string) : path_join TEMP_DIR f = "temp_images/" +:+ f.
Proof.
  unfold path_join, TEMP_DIR. simpl. change ("" +:+ f) with f.
  by rewrite substring_all.
Qed.

Lemma ltb_le (a b : string) : String.ltb a b = true -> String.le a b.
Proof.
  unfold String.le, String.ltb, String.leb.
  destruct (String.compare a b); simpl; done.
Qed.

Lemma not_ltb_le (a b : string) : String.ltb a b = false -> String.le b a.
Proof.
  unfold String.le, String.ltb, String.leb. rewrite (String.compare_antisym b a).
  destruct (String.compare a b); simpl; done.
Qed.

(** The sort without comparator leaves the names in the order of
    strings. *)
Lemma Array_sort_sorted (l : list string) :
  StronglySorted String.le (Array_sort String.ltb l).
Proof.
  apply (Array_sort_ordered String.ltb String.le (fun _ => True)).
  - intros x y z _ _ _ Hxy Hyz. by trans y.
  - intros x y _ _. apply ltb_le.
  - intros x y _ _. apply not_ltb_le.
  - by apply Forall_true.
Qed.

(** When [convertPdfToImages] returns, the list of page images is not
    empty; its paths are "temp_images/<name>" for the names of the
    temporary directory that end in ".png", each once, in the order of
    strings (so "page-10.png" comes before "page-2.png", and is given the
    smaller page number by [main]). *)
Theorem converted_pages_are_the_sorted_png_files
    (pdfPoppler_loaded : bool) (convert : string -> outcome unit)
    (readdir : string -> outcome (list string))
    (pdfPath : string) (imagePaths : list string) :
  convertPdfToImages pdfPoppler_loaded convert readdir pdfPath = Returns imagePaths ->
  imagePaths <> []
  /\ exists files names,
       readdir TEMP_DIR = Returns files
       /\ imagePaths = (fun f => "temp_images/" +:+ f) <$> names
       /\ names ≡ₚ List.filter (endsWith ".png") files
       /\ Forall (fun f => exists stem, f = stem +:+ ".png") names
       /\ StronglySorted String.le names.
Proof.
  unfold convertPdfToImages, tryPdfPoppler.
  destruct pdfPoppler_loaded; simpl; [|done].
  destruct (convert pdfPath); [|done].
  destruct (readdir TEMP_DIR) as [files|]; [|done].
  destruct (0 <? _)%nat eqn:Hlen; [|done]. intros [= <-]. split.
  - apply Nat.ltb_lt in Hlen. intros Heq. rewrite Heq in Hlen. simpl in Hlen. lia.
  - exists files, (Array_sort String.ltb (List.filter (endsWith ".png") files)).
    split; [done|]. split; [|split; [|split]].
    + apply list_fmap_ext. intros i f _. apply path_join_TEMP_DIR.
    + apply Array_sort_perm.
    + apply Forall_forall. intros f Hf%Array_sort_elem.
      apply list_elem_of_In, filter_In in Hf as [_ Hf]. by apply endsWith_spec.
    + apply Array_sort_sorted.
Qed.

(** The theorem above on a directory with three page images and a text
    file. *)
Lemma pages_of_sample_readdir :
  let imagePaths :=
    ["temp_images/page-1.png"; "temp_images/page-10.png"; "temp_images/page-2.png"] in
  convertPdfToImages true (fun _ => Returns ()) sample_readdir "input.pdf"
  = Returns imagePaths
  /\ imagePaths <> []
  /\ exists files names,
       sample_readdir TEMP_DIR = Returns files
       /\ imagePaths = (fun f => "temp_images/" +:+ f) <$> names
       /\ names ≡ₚ List.filter (endsWith ".png") files
       /\ Forall (fun f => exists stem, f = stem +:+ ".png") names
       /\ StronglySorted String.le names.
Proof.
  intros imagePaths.
  assert (convertPdfToImages true (fun _ => Returns ()) sample_readdir "input.pdf"
          = Returns imagePaths) as Hrun by reflexivity.
  split; [exact Hrun|].
  exact (converted_pages_are_the_sorted_png_files
           true (fun _ => Returns ()) sample_readdir "input.pdf" imagePaths Hrun).
Defined.

(** [convertPdfToImages] throws when pdf-poppler could not be loaded, and
    when the conversion left no name that ends in ".png" in the temporary
    directory; in the second case no error was caught, and the message
    ends in "undefined". *)
Theorem conversion_without_pages_throws
    (pdfPoppler_loaded : bool) (convert : string -> outcome unit)
    (readdir : string -> outcome (list string)) (pdfPath : string) :
  (pdfPoppler_loaded = false ->
   convertPdfToImages pdfPoppler_loaded convert readdir pdfPath
   = Throws "All PDF conversion methods failed. Last error: pdf-poppler not available")
  /\ (forall files,
        pdfPoppler_loaded = true ->
        convert pdfPath = Returns () ->
        readdir TEMP_DIR = Returns files ->
        Forall (fun f => endsWith ".png" f = false) files ->
        convertPdfToImages pdfPoppler_loaded convert readdir pdfPath
        = Throws "All PDF conversion methods failed. Last error: undefined").
Proof.
  unfold convertPdfToImages, tryPdfPoppler. split.
  - by intros ->.
  - intros files -> -> -> Hnone. simpl.
    replace (List.filter (endsWith ".png") files) with (@nil string); [done|].
    induction Hnone as [|f files Hf _ IH]; simpl; [done|]. by rewrite Hf.
Qed.

(** The theorem above on a directory that holds a text file only. *)
Lemma conversion_of_a_directory_without_png :
  let readdir := fun _ : string => Returns ["notes.txt"] in
  Forall (fun f => endsWith ".png" f = false) ["notes.txt"]
  /\ convertPdfToImages true (fun _ => Returns ()) readdir "input.pdf"
     = Throws "All PDF conversion methods failed. Last error: undefined".
Proof.
  intros readdir.
  assert (Forall (fun f => endsWith ".png" f = false) ["notes.txt"]) as Hnone.
  { by repeat constructor. }
  split; [exact Hnone|].
  exact (proj2 (conversion_without_pages_throws true (fun _ => Returns ()) readdir
                  "input.pdf") ["notes.txt"] eq_refl eq_refl eq_refl Hnone).
Defined.

(** ** The pages of a run *)

Lemma path_join_ANNOTATED_DIR (f : string) :
  path_join ANNOTATED_DIR f = "output/annotated_frames/" +:+ f.
Proof.
  unfold path_join, ANNOTATED_DIR. simpl. change ("" +:+ f) with f.
  by rewrite substring_all.
Qed.

(** The pages of a run are numbered from 1 in the order of the page
    images.  The page made from the [i]-th image (counted from 0) has the
    number [i + 1], that image as its source, the annotated image
    "output/annotated_frames/page_<i+1>_annotated.png", as many detections
    as the image has predictions whose score is not below the threshold,
    and every one of its detections carries its page number. *)
Theorem pages_are_numbered_from_1
    (ocr_ready : bool) (recognize : string -> array4 -> Label -> nat -> option string)
    (inputs : list PageInput) (totalTime : number) :
  let out := main ocr_ready recognize inputs totalTime in
  pv_pageNumber <$> pages out.1 = seqZ 1 (Z.of_nat (length inputs))
  /\ forall i inp pv,
       inputs !! i = Some inp -> pages out.1 !! i = Some pv ->
       pv_pageNumber pv = Z.of_nat i + 1
       /\ pv_sourceImagePath pv = imagePath inp
       /\ pv_annotatedImagePath pv
          = "output/annotated_frames/page_" +:+ pretty (Z.of_nat i + 1) +:+ "_annotated.png"
       /\ pv_detectionsCount pv
          = Z.of_nat (length (List.filter survives (predictions inp)))
       /\ forall pd, pd ∈ pv_detections pv -> pd_pageNumber pd = Z.of_nat i + 1.
Proof.
  intros out. unfold out, main.
  destruct (save_views (process_pages ocr_ready recognize inputs) totalTime)
    as (_ & _ & -> & _).
  assert (forall i inp pv,
            inputs !! i = Some inp ->
            (page_view <$> process_pages ocr_ready recognize inputs) !! i = Some pv ->
            pv = page_view (processPage ocr_ready recognize inp (Z.of_nat i + 1)))
    as Hpage.
  { intros i inp pv Hinp. unfold process_pages.
    rewrite list_lookup_fmap, mapi_lookup, Hinp. by intros [= <-]. }
  split.
  - apply list_eq. intros i. rewrite !list_lookup_fmap.
    unfold process_pages. rewrite mapi_lookup.
    destruct (inputs !! i) as [inp|] eqn:E; simpl.
    + apply lookup_lt_Some in E. rewrite lookup_seqZ_lt by lia. f_equal. lia.
    + apply lookup_ge_None in E. by rewrite lookup_seqZ_ge by lia.
  - intros i inp pv Hinp Hpv. rewrite (Hpage i inp pv Hinp Hpv).
    split; [done|]. split; [done|]. split; [apply path_join_ANNOTATED_DIR|]. split.
    + cbn [page_view pv_detectionsCount processPage r_detections]. f_equal.
      rewrite mapi_length, Array_sort_length. apply candidates_length.
    + by intros pd (d & -> & _)%list_elem_of_fmap.
Qed.

(** ** The clean-up of a recognized text *)

Lemma trimStart_head (text : list Z) c :
  head (trimStart text) = Some c -> is_whitespace c = false.
Proof.
  induction text as [|x text IH]; simpl; [done|].
  destruct (is_whitespace x) eqn:E; [done|]. by intros [= <-].
Qed.

Lemma trimStart_last (text : list Z) :
  trimStart text <> [] -> last (trimStart text) = last text.
Proof.
  induction text as [|x text IH]; simpl; [done|].
  destruct (is_whitespace x); [|done]. intros Hne. rewrite (IH Hne).
  destruct text; [done|done].
Qed.

Lemma trimStart_letters (text : list Z) : letters (trimStart text) = letters text.
Proof.
  unfold letters. induction text as [|x text IH]; simpl; [done|].
  destruct (is_whitespace x) eqn:E; simpl; [done|]. by rewrite E.
Qed.

Lemma trimStart_whitespace (text : list Z) :
  Forall (fun c => is_whitespace c = true) text -> trimStart text = [].
Proof. induction 1 as [|x text Hx _ IH]; simpl; [done|]. by rewrite Hx. Qed.

Lemma letters_reverse (text : list Z) : letters (reverse text) = reverse (letters text).
Proof.
  unfold letters. induction text as [|x text IH]; simpl; [done|].
  rewrite reverse_cons, List.filter_app, IH. simpl.
  destruct (is_whitespace x); simpl; [by rewrite app_nil_r|by rewrite reverse_cons].
Qed.

Lemma trim_letters (text : list Z) : letters (trim text) = letters text.
Proof.
  unfold trim, trimEnd.
  by rewrite letters_reverse, trimStart_letters, letters_reverse, reverse_involutive,
    trimStart_letters.
Qed.

(** A trimmed text is empty, or starts and ends with code units that are
    not whitespace. *)
Lemma trim_ends (text : list Z) :
  (forall c, head (trim text) = Some c -> is_whitespace c = false)
  /\ (forall c, last (trim text) = Some c -> is_whitespace c = false).
Proof.
  unfold trim, trimEnd. split; intros c.
  - rewrite head_reverse. intros Hc.
    assert (trimStart (reverse (trimStart text)) <> []) as Hne by (by intros Heq; rewrite Heq in Hc).
    rewrite (trimStart_last _ Hne), last_reverse in Hc. by eapply trimStart_head.
  - rewrite last_reverse. apply trimStart_head.
Qed.

Lemma replace_whitespace_letters in_run (text : list Z) :
  letters (replace_whitespace in_run text) = letters text.
Proof.
  unfold letters. revert in_run. induction text as [|x text IH]; intros in_run; simpl; [done|].
  destruct (is_whitespace x) eqn:E; simpl.
  - rewrite List.filter_app, IH. by destruct in_run.
  - by rewrite E, IH.
Qed.

Lemma replace_whitespace_spaced in_run (text : list Z) :
  (text = [] -> in_run = false) ->
  (forall c, last text = Some c -> is_whitespace c = false) ->
  single_spaced (negb in_run) (replace_whitespace in_run text) = true.
Proof.
  revert in_run. induction text as [|x text IH]; intros in_run Hempty Hlast; simpl.
  - by rewrite Hempty.
  - assert (forall c, last text = Some c -> is_whitespace c = false) as Hlast'.
    { intros c Hc. apply Hlast. destruct text; [done|]. done. }
    destruct (is_whitespace x) eqn:E.
    + assert (text <> []) as Hne.
      { intros ->. specialize (Hlast x eq_refl). congruence. }
      pose proof (IH true ltac:(done) Hlast') as Hrest. simpl in Hrest.
      destruct in_run; simpl; [done|]. by rewrite Hrest.
    + simpl. rewrite E. by apply (IH false).
Qed.

Lemma single_spaced_lookup after_word (text : list Z) :
  single_spaced after_word text = true ->
  forall i c, text !! i = Some c -> is_whitespace c = true ->
    c = 32
    /\ (exists n, text !! S i = Some n /\ is_whitespace n = false)
    /\ (i = 0%nat -> after_word = true)
    /\ (forall j, i = S j -> exists p, text !! j = Some p /\ is_whitespace p = false).
Proof.
  revert after_word. induction text as [|x text IH]; intros after_word Hs i c Hi Hc; [done|].
  simpl in Hs. destruct i as [|i]; simpl in Hi.
  - injection Hi as ->. rewrite Hc in Hs.
    apply andb_true_iff in Hs as [[Ha Hx]%andb_true_iff Hrest].
    apply Z.eqb_eq in Hx. split; [done|]. split; [|split; [done|by intros j]].
    destruct text as [|n text]; [done|]. simpl in Hrest.
    destruct (is_whitespace n) eqn:En; [done|]. by exists n.
  - assert (single_spaced (negb (is_whitespace x)) text = true) as Hs'.
    { destruct (is_whitespace x); [|done].
      by apply andb_true_iff in Hs as [_ Hrest]. }
    destruct (IH _ Hs' i c Hi Hc) as (H32 & Hnext & Hfirst & Hprev).
    split; [done|]. split; [done|]. split; [done|].
    intros j [= <-]. destruct i as [|i].
    + exists x. split; [done|]. specialize (Hfirst eq_refl).
      by apply negb_true_iff in Hfirst.
    + destruct (Hprev i eq_refl) as (p & Hp & Hpw). by exists p.
Qed.

Lemma single_spaced_last after_word (text : list Z) c :
  single_spaced after_word text = true -> last text = Some c -> is_whitespace c = false.
Proof.
  revert after_word. induction text as [|x text IH]; intros after_word Hs Hc; [done|].
  simpl in Hs. destruct text as [|y text].
  - injection Hc as ->. destruct (is_whitespace c); [|done].
    by apply andb_true_iff in Hs as [_ Hrest].
  - destruct (is_whitespace x).
    + apply andb_true_iff in Hs as [_ Hrest]. by eapply IH.
    + by eapply IH.
Qed.

Lemma single_spaced_replace after_word (text : list Z) :
  single_spaced after_word text = true ->
  replace_whitespace (negb after_word) text = text.
Proof.
  revert after_word. induction text as [|x text IH]; intros after_word Hs; [done|].
  simpl in *. destruct (is_whitespace x) eqn:E.
  - apply andb_true_iff in Hs as [[-> Hx%Z.eqb_eq]%andb_true_iff Hrest]. subst x.
    simpl. f_equal. by apply (IH false).
  - f_equal. by apply (IH true).
Qed.

Lemma trimStart_word (text : list Z) c :
  head text = Some c -> is_whitespace c = false -> trimStart text = text.
Proof. destruct text as [|x text]; [done|]. intros [= ->] Hc. simpl. by rewrite Hc. Qed.

Lemma single_spaced_clean (text : list Z) :
  single_spaced false text = true -> cleanText text = text.
Proof.
  intros Hs. unfold cleanText.
  assert (trim text = text) as ->.
  { unfold trim, trimEnd.
    destruct (head text) as [x|] eqn:Hhead; [|by destruct text].
    assert (is_whitespace x = false) as Hx.
    { destruct text as [|y rest]; [done|]. injection Hhead as ->. simpl in Hs.
      by destruct (is_whitespace x). }
    rewrite (trimStart_word text x Hhead Hx).
    destruct (last text) as [c|] eqn:Hlast; [|by apply last_None in Hlast; subst text].
    rewrite (trimStart_word (reverse text) c).
    - apply reverse_involutive.
    - by rewrite head_reverse.
    - by eapply single_spaced_last. }
  destruct text as [|x text]; [done|]. simpl in *.
  destruct (is_whitespace x) eqn:E; [done|].
  f_equal. by apply (single_spaced_replace true).
Qed.

Lemma cleanText_spaced (text : list Z) :
  cleanText text <> [] -> single_spaced false (cleanText text) = true.
Proof.
  unfold cleanText. destruct (trim_ends text) as [Hhead Hlast].
  destruct (trim text) as [|x rest] eqn:Ht; [done|]. intros _.
  pose proof (replace_whitespace_spaced false (x :: rest) ltac:(done) Hlast) as Hs.
  pose proof (Hhead x eq_refl) as Hx. simpl in Hs. simpl. rewrite Hx in *.
  simpl in *. by rewrite Hx in *.
Qed.

(** The cleaned text keeps the code units of the recognized text that are
    not whitespace, in their order; it is empty exactly when the
    recognized text is whitespace only; every whitespace code unit of it
    is a space that stands between two code units that are not whitespace
    (there is no whitespace at either end and no two in a row); and
    cleaning a cleaned text changes nothing. *)
Theorem cleaned_text_is_single_spaced (text : list Z) :
  let cleaned := cleanText text in
  letters cleaned = letters text
  /\ (cleaned = [] <-> Forall (fun c => is_whitespace c = true) text)
  /\ (forall i c, cleaned !! i = Some c -> is_whitespace c = true ->
        c = 32
        /\ (exists j p, i = S j /\ cleaned !! j = Some p /\ is_whitespace p = false)
        /\ (exists n, cleaned !! S i = Some n /\ is_whitespace n = false))
  /\ cleanText cleaned = cleaned.
Proof.
  intros cleaned.
  assert (letters cleaned = letters text) as Hletters.
  { unfold cleaned, cleanText. by rewrite replace_whitespace_letters, trim_letters. }
  split; [done|]. split; [|split].
  - split.
    + intros Hempty. rewrite Hempty in Hletters. unfold letters in Hletters. simpl in Hletters.
      apply Forall_forall. intros c Hc%list_elem_of_In.
      destruct (is_whitespace c) eqn:E; [done|].
      assert (In c (List.filter (fun c => negb (is_whitespace c)) text)) as Hin.
      { apply filter_In. by rewrite E. }
      by rewrite <- Hletters in Hin.
    + intros Hall. unfold cleaned, cleanText, trim.
      by rewrite (trimStart_whitespace _ Hall).
  - intros i c Hi Hc.
    assert (cleaned <> []) as Hne by (by intros Heq; rewrite Heq in Hi).
    destruct (single_spaced_lookup false cleaned (cleanText_spaced text Hne) i c Hi Hc)
      as (H32 & Hnext & Hfirst & Hprev).
    split; [done|]. split; [|done].
    destruct i as [|j]; [by specialize (Hfirst eq_refl)|].
    destruct (Hprev j eq_refl) as (p & Hp & Hpw). by exists j, p.
  - destruct (decide (cleaned = [])) as [->|Hne]; [done|].
    by apply single_spaced_clean, cleanText_spaced.
Qed.

(** ** The annotated image *)

(** The annotated image shows one box for each detection, in the order of
    the list (the reading order), at the detection's corner and with its
    width and height; two boxes have the same colour only when their
    detections have the same label, and the boxes of the detections of
    a label outside the table are white. *)
Theorem annotation_boxes_follow_the_detections (detections : list Detection) :
  stroked (createAnnotatedImage detections)
  = (fun d => let '(xmin, ymin, xmax, ymax) := d_bbox d in
              (box_color d, (xmin, ymin, xmax - xmin, ymax - ymin)%float))
      <$> detections
  /\ (forall d d', box_color d = box_color d' <-> d_label d = d_label d')
  /\ (forall d, box_color d = "#FFFFFF" <-> d_label d = Unknown).
Proof.
  split; [|split].
  - unfold createAnnotatedImage. simpl.
    induction detections as [|d l IH]; [done|].
    rewrite bind_cons, fmap_cons. unfold stroked in *.
    rewrite omap_app, IH. unfold annotate, box_color.
    by destruct (d_bbox d) as [[[xmin ymin] xmax] ymax].
  - intros d d'. unfold box_color. split; [|by intros ->].
    by destruct (d_label d), (d_label d').
  - intros d. unfold box_color. by destruct (d_label d).
Qed.

(** ** Division by zero *)

(** A number divided by zero is NaN, Infinity or -Infinity. *)
Lemma div_zero_not_finite (x : number) : not_finite (x / 0)%float.
Proof.
  unfold not_finite. rewrite div_spec.
  change (Prim2SF 0) with (S754_zero false).
  by destruct (Prim2SF x) as [s|s| |s m e].
Qed.

Lemma sub_not_finite (y : number) : not_finite y -> not_finite (1 - y)%float.
Proof.
  unfold not_finite. rewrite sub_spec.
  change (Prim2SF 1) with (S754_finite false 4503599627370496 (-52)).
  by destruct (Prim2SF y) as [s|s| |s m e].
Qed.

(** ** The matching utilities *)

(** [fuzzyMatch("", "")] is never a finite number, whatever distance the
    library returns for two empty strings: the distance is divided by a
    maximal length of 0.  It is NaN when that distance is 0. *)
Theorem fuzzyMatch_of_empty_strings_is_not_finite
    (LevenshteinDistance : string -> string -> number) :
  not_finite (fuzzyMatch LevenshteinDistance "" "")
  /\ (LevenshteinDistance "" "" = 0%float ->
      Prim2SF (fuzzyMatch LevenshteinDistance "" "") = S754_nan).
Proof.
  unfold fuzzyMatch. simpl. change (of_integer 0) with 0%float. split.
  - apply sub_not_finite, div_zero_not_finite.
  - by intros ->.
Qed.

(** The vector of a text without tokens has magnitude 0. *)
Lemma fold_zero_squares (allTokens : list string) :
  fold_left (fun sum val => sum + val * val)%float
    (map (fun t => occurrences t []) allTokens) 0%float
  = 0%float.
Proof. induction allTokens as [|t l IH]; simpl; [done|]. exact IH. Qed.

(** [cosineSimilarity] is 0 as soon as one of the two texts has no token:
    the magnitude of its vector is 0, which is falsy. *)
Theorem cosineSimilarity_without_tokens
    (tokenize : string -> list string) (a b : string) :
  tokenize (toLowerCase a) = [] \/ tokenize (toLowerCase b) = [] ->
  cosineSimilarity tokenize a b = 0%float.
Proof.
  unfold cosineSimilarity. intros [Ha|Hb].
  - rewrite Ha, fold_zero_squares. done.
  - rewrite Hb, fold_zero_squares.
    change (truthy (sqrt 0)) with false. by rewrite andb_false_r.
Qed.

(** The theorem above with a tokenizer that splits at spaces. *)
Lemma cosineSimilarity_of_an_empty_text :
  (String.words (toLowerCase "") = [] \/ String.words (toLowerCase "layout analysis") = [])
  /\ cosineSimilarity String.words "" "layout analysis" = 0%float.
Proof.
  assert (String.words (toLowerCase "") = [] \/ String.words (toLowerCase "layout analysis") = [])
    as Hno by (by left).
  split; [exact Hno|].
  exact (cosineSimilarity_without_tokens String.words "" "layout analysis" Hno).
Defined.

(** ** The outline of the hierarchy *)

Lemma fmap_bind_subnodes (kids : list Node) :
  node_item <$> (kids ≫= subnodes) = kids ≫= flat.
Proof.
  induction kids as [|kid kids IH]; [done|].
  by rewrite !bind_cons, fmap_app, IH.
Qed.

Lemma flat_heading h kids : flat (Heading h kids) = ItemHeading h :: (kids ≫= flat).
Proof.
  unfold flat at 1.
  change (subnodes (Heading h kids)) with (Heading h kids :: (kids ≫= subnodes)).
  by rewrite fmap_cons, fmap_bind_subnodes.
Qed.

Lemma omap_bind_flat {A} (f : A -> option Node) (l : list A) :
  omap f l ≫= flat = l ≫= (fun x => from_option flat [] (f x)).
Proof.
  induction l as [|x l IH]; [done|]. csimpl.
  destruct (f x); csimpl; by rewrite IH.
Qed.

Lemma outline_read (b : Builder) :
  outline (read_hierarchy b)
  = hierarchy b ≫= (fun a => from_option flat [] (read_cells 0 (heap b) !! a)).
Proof.
  unfold outline, forest_nodes, read_hierarchy.
  by rewrite <- omap_bind_flat, fmap_bind_subnodes.
Qed.

(** The outline of the node read for a cell: the cell, then the outlines
    of its children. *)
Lemma read_flat_from cells base i info ch :
  cells !! i = Some (info, ch) ->
  exists node,
    read_cells base cells !! i = Some node
    /\ flat node
       = ItemHeading info
           :: (ch ≫= fun c =>
                 match c with
                 | ChildContent c => [ItemContent c]
                 | ChildHeading r =>
                     if decide (base + i < r)%nat
                     then from_option flat [] (read_cells base cells !! (r - base)%nat)
                     else []
                 end).
Proof.
  revert base i. induction cells as [|[info' ch'] rest IH]; intros base i; [done|].
  destruct i as [|i]; simpl.
  - intros [= -> ->]. eexists. split; [done|].
    rewrite flat_heading, omap_bind_flat. f_equal. apply list_bind_ext; [|done].
    intros [c|r]; [done|]. rewrite Nat.add_0_r.
    destruct (decide (base < r)%nat); [|done].
    by replace (r - base)%nat with (S (r - S base)) by lia.
  - intros Hcell. destruct (IH (S base) i Hcell) as (node & Hnode & Hflat).
    exists node. split; [done|]. rewrite Hflat. f_equal. apply list_bind_ext; [|done].
    intros [c|r]; [done|].
    destruct (decide (S base + i < r)%nat), (decide (base + S i < r)%nat); try lia; [|done].
    by replace (r - base)%nat with (S (r - S base)) by lia.
Qed.

Lemma read_flat hp a info ch :
  hp !! a = Some (info, ch) ->
  exists node,
    read_cells 0 hp !! a = Some node
    /\ flat node = ItemHeading info :: (ch ≫= kid_items (read_cells 0 hp) a).
Proof.
  intros Hcell. destruct (read_flat_from hp 0 a info ch Hcell) as (node & Hnode & Hflat).
  exists node. split; [done|]. rewrite Hflat. f_equal. apply list_bind_ext; [|done].
  intros [c|r]; [done|]. simpl. by rewrite Nat.sub_0_r.
Qed.

(** The nodes read for the cells after the one that changes are the
    same. *)
Lemma read_cells_alter_above (f : Cell -> Cell) cells base t i :
  (t < i)%nat ->
  read_cells base (alter f t cells) !! i = read_cells base cells !! i.
Proof.
  revert base t i. induction cells as [|[info ch] rest IH]; intros base t i Hti; [done|].
  destruct i as [|i]; [lia|]. destruct t as [|t]; simpl.
  - by destruct (f (info, ch)).
  - apply IH. lia.
Qed.

(** A cell appended to a heap whose references are all allocated leaves
    the nodes read for the other cells as they are. *)
Lemma read_cells_snoc cells base cell :
  (forall i info ch r, cells !! i = Some (info, ch) -> ChildHeading r ∈ ch ->
                       (r < base + length cells)%nat) ->
  read_cells base (cells ++ [cell])
  = read_cells base cells ++ read_cells (base + length cells) [cell].
Proof.
  revert base. induction cells as [|[info ch] rest IH]; intros base Hrefs; simpl.
  { by rewrite Nat.add_0_r. }
  rewrite IH.
  2:{ intros i info' ch' r Hi Hr. specialize (Hrefs (S i) info' ch' r Hi Hr).
      simpl in Hrefs. lia. }
  replace (S base + length rest)%nat with (base + S (length rest))%nat by lia.
  f_equal. f_equal. apply list_omap_ext, Forall2_same_length_lookup_2; [done|].
  intros i c c' Hc Hc'. rewrite Hc in Hc'. injection Hc' as <-.
  destruct c as [c|r]; [done|].
  destruct (decide (base < r)%nat); [|done].
  assert (r < base + S (length rest))%nat as Hr.
  { apply (Hrefs 0%nat info ch r eq_refl). by eapply list_elem_of_lookup_2. }
  rewrite lookup_app_l; [done|]. rewrite read_cells_length. lia.
Qed.

Lemma sorted_stack_lt (top : nat) (rest : list nat) (a : nat) :
  StronglySorted (fun x y => (y < x)%nat) (top :: rest) -> a ∈ rest -> (a < top)%nat.
Proof.
  intros Hs Ha. apply StronglySorted_inv in Hs as [_ Hall].
  rewrite Forall_forall in Hall. by apply Hall.
Qed.

(** A node of the stack other than the top has the node above it as its
    last child. *)
Lemma spine_child hp (a : nat) (stack : list nat) (top : nat) :
  spine hp (top :: stack) -> a ∈ stack ->
  exists child, child ∈ top :: stack /\ last_child hp a child.
Proof.
  revert top. induction stack as [|p stack IH]; intros top Hs Ha.
  { by apply elem_of_nil in Ha. }
  destruct Hs as [Hlast Hs]. apply elem_of_cons in Ha as [->|Ha].
  - exists top. split; [by left|done].
  - destruct (IH p Hs Ha) as (child & Hchild & Hlc).
    exists child. split; [by right|done].
Qed.

(** What a new last child of the top of the stack changes in the nodes
    read from the heap: the outline of the child is added at the end of
    the outline of every node of the stack, and the other nodes keep
    theirs. *)
Lemma push_child_flat hp hier (top : nat) (rest : list nat) (x : Child) :
  heap_wf hp ->
  spine_inv (mkBuilder hp hier (top :: rest)) ->
  (forall r, x = ChildHeading r -> (top < r)%nat) ->
  let nodes := read_cells 0 hp in
  let nodes' := read_cells 0 (push_child top x hp) in
  forall n a node,
    (length hp - a < n)%nat -> nodes !! a = Some node ->
    exists node',
      nodes' !! a = Some node'
      /\ flat node'
         = flat node ++ (if decide (a ∈ top :: rest) then kid_items nodes top x else []).
Proof.
  intros Hwf [Hsorted Hspine _ Hinner Hclosed _] Hx nodes nodes'.
  cbn [heap headingStack hierarchy] in Hsorted, Hspine, Hinner, Hclosed.
  set (X := kid_items nodes top x).
  set (extra := fun c => match c with
                         | ChildHeading r => if decide (r ∈ top :: rest) then X else []
                         | ChildContent _ => []
                         end).
  assert (forall r, (top < r)%nat -> nodes' !! r = nodes !! r) as Habove.
  { intros r Hr. unfold nodes', push_child. by apply read_cells_alter_above. }
  assert (forall s, s ∈ top :: rest -> (s <= top)%nat) as Hle.
  { intros s [->|Hs]%elem_of_cons; [done|].
    pose proof (sorted_stack_lt top rest s Hsorted Hs). lia. }
  induction n as [|n IH]; intros a node Hn Ha; [lia|].
  assert (a < length hp)%nat as Halloc.
  { apply lookup_lt_Some in Ha. unfold nodes in Ha. by rewrite read_cells_length in Ha. }
  destruct (lookup_lt_is_Some_2 hp a Halloc) as [[info ch] Hcell].
  destruct (read_flat hp a info ch Hcell) as (node0 & Hnode0 & Hflat).
  fold nodes in Hnode0, Hflat. rewrite Ha in Hnode0. injection Hnode0 as <-.
  destruct (Hwf a _ Hcell) as [_ Hrefs]. simpl in Hrefs.
  (* the children the cell already had *)
  assert (forall c, c ∈ ch -> (a <= top)%nat ->
            kid_items nodes' a c = kid_items nodes a c
                                   ++ (if decide (a = top) then [] else extra c)) as Hkid.
  { intros [c|r] Hc Hatop; [simpl; by destruct (decide _)|].
    destruct (Hrefs r Hc) as [[Har Hr] _].
    unfold kid_items. rewrite !decide_True by done.
    destruct (decide (a = top)) as [->|Hne].
    - by rewrite Habove, app_nil_r by done.
    - destruct (lookup_lt_is_Some_2 nodes r) as [nr Hnr].
      { unfold nodes. by rewrite read_cells_length. }
      destruct (IH r nr ltac:(lia) Hnr) as (nr' & Hnr' & Hflat').
      rewrite Hnr, Hnr'. simpl. exact Hflat'. }
  assert (push_child top x hp !! a
          = Some (info, if decide (top = a) then ch ++ [x] else ch)) as Hcell'.
  { rewrite push_child_lookup, Hcell. cbn [fmap option_fmap option_map fst snd].
    by destruct (decide (top = a)). }
  destruct (read_flat _ a _ _ Hcell') as (node' & Hnode' & Hflat').
  fold nodes' in Hnode', Hflat'.
  exists node'. split; [done|]. rewrite Hflat', Hflat.
  destruct (decide (top < a)%nat) as [Hgt|Hngt].
  { (* above the top: nothing changes *)
    rewrite decide_False by lia.
    rewrite decide_False by (intros Hin%Hle; lia). rewrite app_nil_r. f_equal.
    apply Forall_bind_ext, Forall_forall. intros [c|r] Hc; simpl; [done|].
    destruct (Hrefs r Hc) as [[Har Hr] _]. rewrite !decide_True by done.
    by rewrite Habove by lia. }
  destruct (decide (top = a)) as [<-|Hne].
  { (* the top *)
    rewrite decide_True by (by left).
    assert (ch ≫= kid_items nodes' top = ch ≫= kid_items nodes top) as Hold.
    { apply Forall_bind_ext, Forall_forall. intros c Hc.
      rewrite (Hkid c Hc ltac:(lia)), decide_True by done. by rewrite app_nil_r. }
    assert (kid_items nodes' top x = X) as Hnew.
    { unfold X. destruct x as [c|r]; simpl; [done|].
      pose proof (Hx r eq_refl). rewrite !decide_True by done. by rewrite Habove. }
    by rewrite bind_app, Hold, bind_singleton, Hnew. }
  destruct (decide (a ∈ top :: rest)) as [Hin|Hnin].
  - (* a node of the stack below the top *)
    apply elem_of_cons in Hin as [->|Hin]; [done|].
    destruct (spine_child hp a rest top Hspine Hin) as (child & Hchild & info' & ch0 & Hlc).
    rewrite Hcell in Hlc. injection Hlc as -> ->.
    assert (ch0 ≫= kid_items nodes' a = ch0 ≫= kid_items nodes a) as Hold.
    { apply Forall_bind_ext, Forall_forall. intros c Hc.
      rewrite (Hkid c) by (rewrite ?elem_of_app; auto with lia).
      rewrite decide_False by done.
      destruct c as [c|r]; [by rewrite app_nil_r|]. unfold extra.
      apply list_elem_of_split in Hc as (l1 & l2 & ->).
      rewrite decide_False; [by rewrite app_nil_r|].
      apply (Hinner a info' l1 r (l2 ++ [ChildHeading child])).
      - by rewrite Hcell, <- app_assoc.
      - by destruct l2. }
    assert (kid_items nodes' a (ChildHeading child)
            = kid_items nodes a (ChildHeading child) ++ X) as Hlast.
    { rewrite (Hkid (ChildHeading child))
        by (rewrite ?elem_of_app, ?list_elem_of_singleton; auto with lia).
      rewrite decide_False by done. unfold extra. by rewrite (decide_True _ _ Hchild). }
    rewrite !bind_app, Hold, !bind_singleton, Hlast.
    by rewrite app_comm_cons, !app_assoc.
  - (* a closed node *)
    rewrite app_nil_r. f_equal. apply Forall_bind_ext, Forall_forall. intros c Hc.
    rewrite (Hkid c Hc ltac:(lia)), decide_False by done.
    destruct c as [c|r]; [by rewrite app_nil_r|]. unfold extra.
    rewrite decide_False; [by rewrite app_nil_r|].
    by apply (Hclosed a info ch r).
Qed.

(** *** The invariant of the stack *)

Lemma empty_spine_inv : spine_inv empty_builder.
Proof.
  split; simpl; try done.
  - constructor.
  - intros h1 r h2 Heq. by destruct h1.
Qed.

Lemma snoc_inj_tail {A} (l1 l2 l : list A) (x y : A) :
  l ++ [x] = l1 ++ y :: l2 -> l2 <> [] -> y ∈ l.
Proof.
  intros Heq Hne. destruct (last l2) as [z|] eqn:Hlast; [|by apply last_None in Hlast].
  apply last_Some in Hlast as [l2' ->].
  rewrite app_comm_cons, app_assoc in Heq. apply app_inj_tail in Heq as [-> _].
  apply elem_of_app. right. by left.
Qed.

(** Popping the top of the stack keeps the invariant. *)
Lemma spine_inv_pop hp hier (s : nat) (rest : list nat) :
  heap_wf hp ->
  spine_inv (mkBuilder hp hier (s :: rest)) -> spine_inv (mkBuilder hp hier rest).
Proof.
  intros Hwf [Hsorted Hspine Hbottom Hinner Hclosed Htop].
  cbn [heap headingStack hierarchy] in *.
  split; cbn [heap headingStack hierarchy].
  - by apply StronglySorted_inv in Hsorted as [? _].
  - destruct rest; [done|]. by destruct Hspine.
  - intros x Hx. apply Hbottom. destruct rest; [done|]. by rewrite last_cons_cons.
  - intros a info ch1 r ch2 Ha Hne Hr. apply (Hinner a info ch1 r ch2 Ha Hne). by right.
  - intros a info ch r Ha Hnin Hr Hin. destruct (decide (a = s)) as [->|Hne].
    + destruct (Hwf s _ Ha) as [_ Hrefs]. destruct (Hrefs r Hr) as [[Hlt _] _].
      pose proof (sorted_stack_lt s rest r Hsorted Hin). lia.
    + apply (Hclosed a info ch r Ha); [|done|by right].
      intros [->|?]%elem_of_cons; done.
  - intros h1 r h2 Heq Hne Hr. apply (Htop h1 r h2 Heq Hne). by right.
Qed.

Lemma pop_headings_suffix hp lvl (stack : list nat) :
  exists popped, stack = popped ++ pop_headings hp lvl stack.
Proof.
  induction stack as [|s stack [popped IH]]; simpl; [by exists []|].
  destruct (num_ge _ _); [|by exists []]. exists (s :: popped). simpl. by f_equal.
Qed.

Lemma spine_inv_pop_headings hp hier lvl (stack : list nat) :
  heap_wf hp ->
  spine_inv (mkBuilder hp hier stack) ->
  spine_inv (mkBuilder hp hier (pop_headings hp lvl stack)).
Proof.
  intros Hwf. destruct (pop_headings_suffix hp lvl stack) as [popped Heq].
  rewrite Heq at 1. generalize (pop_headings hp lvl stack). clear Heq. intros kept.
  induction popped as [|s popped IH]; [done|]. intros Hinv.
  apply IH. apply (spine_inv_pop hp hier s); [done|exact Hinv].
Qed.

Lemma spine_other hp' hp (stack : list nat) (c : nat) :
  (forall s, s ∈ stack -> hp' !! s = hp !! s) ->
  spine hp (c :: stack) -> spine hp' (c :: stack).
Proof.
  revert c. induction stack as [|p stack IH]; intros c Hsame; [done|].
  intros [(info & ch & Hlast) Hs]. split.
  - exists info, ch. rewrite Hsame; [done|by left].
  - apply IH; [|done]. intros s Hs'. apply Hsame. by right.
Qed.

(** A cell without heading children, appended to the heap, keeps the
    invariant. *)
Lemma spine_inv_snoc hp hier (stack : list nat) info (cs : list ContentNode) :
  Forall (fun s => (s < length hp)%nat) stack ->
  spine_inv (mkBuilder hp hier stack) ->
  spine_inv (mkBuilder (hp ++ [(info, ChildContent <$> cs)]) hier stack).
Proof.
  intros Hvalid [Hsorted Hspine Hbottom Hinner Hclosed Htop].
  cbn [heap headingStack hierarchy] in *.
  assert (forall r, ChildHeading r ∉ ChildContent <$> cs) as Hnone.
  { by intros r (c & ? & _)%list_elem_of_fmap. }
  split; cbn [heap headingStack hierarchy]; try done.
  - destruct stack as [|c stack]; [done|]. apply (spine_other _ hp); [|done].
    intros s Hs. apply lookup_app_l. rewrite Forall_forall in Hvalid.
    apply Hvalid. by right.
  - intros a info' ch1 r ch2 [[_ Ha]|[_ [= _ Heq]]]%lookup_snoc_Some; [by eapply Hinner|].
    destruct (Hnone r). rewrite Heq. apply elem_of_app. right. by left.
  - intros a info' ch r [[_ Ha]|[_ [= _ Heq]]]%lookup_snoc_Some; [by eapply Hclosed|].
    intros _ Hr. destruct (Hnone r). by rewrite Heq.
Qed.

(** A content node pushed under the top keeps the invariant. *)
Lemma spine_inv_push_content hp hier (top : nat) (rest : list nat) (c : ContentNode) :
  heap_wf hp ->
  spine_inv (mkBuilder hp hier (top :: rest)) ->
  spine_inv (mkBuilder (push_child top (ChildContent c) hp) hier (top :: rest)).
Proof.
  intros Hwf [Hsorted Hspine Hbottom Hinner Hclosed Htop].
  cbn [heap headingStack hierarchy] in *.
  assert (forall r info ch, hp !! top = Some (info, ch) -> ChildHeading r ∈ ch ->
                            r ∉ top :: rest) as Hkids.
  { intros r info ch Hcell Hr Hin. destruct (Hwf top _ Hcell) as [_ Hrefs].
    destruct (Hrefs r Hr) as [[Hlt _] _].
    apply elem_of_cons in Hin as [->|Hin]; [lia|].
    pose proof (sorted_stack_lt top rest r Hsorted Hin). lia. }
  split; cbn [heap headingStack hierarchy]; try done.
  - apply (spine_other _ hp); [|done]. intros s Hs.
    rewrite push_child_lookup. pose proof (sorted_stack_lt top rest s Hsorted Hs).
    destruct (hp !! s); [|done]. simpl. by rewrite decide_False by lia.
  - intros a info ch1 r ch2 Ha Hne. rewrite push_child_lookup in Ha.
    destruct (hp !! a) as [[info0 ch0]|] eqn:Hcell; [|done]. simpl in Ha.
    destruct (decide (top = a)) as [<-|Hneq]; injection Ha as -> Heq.
    + apply (Hkids r info ch0 Hcell). by eapply snoc_inj_tail.
    + subst ch0. by eapply Hinner.
  - intros a info ch r Ha Hnin Hr. rewrite push_child_lookup in Ha.
    destruct (hp !! a) as [[info0 ch0]|] eqn:Hcell; [|done]. simpl in Ha.
    destruct (decide (top = a)) as [<-|Hneq]; [destruct Hnin; by left|].
    injection Ha as -> ->. by eapply Hclosed.
Qed.

(** The node allocated last, pushed under the top and on the stack, keeps
    the invariant. *)
Lemma spine_inv_push_heading hp hier (top : nat) (rest : list nat) (n : nat) :
  heap_wf hp ->
  (forall a info ch r, hp !! a = Some (info, ch) -> ChildHeading r ∈ ch -> (r < n)%nat) ->
  Forall (fun a => (a < n)%nat) hier ->
  Forall (fun s => (s < n)%nat) (top :: rest) ->
  (top < length hp)%nat ->
  spine_inv (mkBuilder hp hier (top :: rest)) ->
  spine_inv (mkBuilder (push_child top (ChildHeading n) hp) hier (n :: top :: rest)).
Proof.
  intros Hwf Hfresh Hhier Hstack Halloc [Hsorted Hspine Hbottom Hinner Hclosed Htop].
  cbn [heap headingStack hierarchy] in *.
  assert (forall r info ch, hp !! top = Some (info, ch) -> ChildHeading r ∈ ch ->
                            r ∉ n :: top :: rest) as Hkids.
  { intros r info ch Hcell Hr Hin. destruct (Hwf top _ Hcell) as [_ Hrefs].
    destruct (Hrefs r Hr) as [[Hlt _] _]. pose proof (Hfresh _ _ _ _ Hcell Hr).
    apply elem_of_cons in Hin as [->|Hin]; [lia|].
    apply elem_of_cons in Hin as [->|Hin]; [lia|].
    pose proof (sorted_stack_lt top rest r Hsorted Hin). lia. }
  assert (forall r, (r < n)%nat -> r ∉ top :: rest -> r ∉ n :: top :: rest) as Hold.
  { intros r Hr Hnin [->|Hin]%elem_of_cons; [lia|done]. }
  split; cbn [heap headingStack hierarchy].
  - by constructor.
  - split.
    + destruct (lookup_lt_is_Some_2 hp top Halloc) as [[info ch] Hcell].
      exists info, ch. rewrite push_child_lookup, Hcell. simpl.
      by rewrite decide_True by done.
    + apply (spine_other _ hp); [|done]. intros s Hs.
      rewrite push_child_lookup. pose proof (sorted_stack_lt top rest s Hsorted Hs).
      destruct (hp !! s); [|done]. simpl. by rewrite decide_False by lia.
  - intros x Hx. apply Hbottom. by rewrite last_cons_cons in Hx.
  - intros a info ch1 r ch2 Ha Hne. rewrite push_child_lookup in Ha.
    destruct (hp !! a) as [[info0 ch0]|] eqn:Hcell; [|done]. simpl in Ha.
    destruct (decide (top = a)) as [<-|Hneq]; injection Ha as -> Heq.
    + apply (Hkids r info ch0 Hcell). by eapply snoc_inj_tail.
    + subst ch0. apply Hold; [|by eapply Hinner].
      apply (Hfresh a info _ r Hcell). apply elem_of_app. right. by left.
  - intros a info ch r Ha Hnin Hr. rewrite push_child_lookup in Ha.
    destruct (hp !! a) as [[info0 ch0]|] eqn:Hcell; [|done]. simpl in Ha.
    destruct (decide (top = a)) as [<-|Hneq].
    { destruct Hnin. right. by left. }
    injection Ha as -> ->. apply Hold; [by eapply Hfresh|].
    apply (Hclosed a info ch r Hcell); [|done]. intros Hin. apply Hnin. by right.
  - intros h1 r h2 Heq Hne. apply Hold; [|by eapply Htop].
    rewrite Forall_forall in Hhier. apply Hhier. rewrite Heq.
    apply elem_of_app. right. by left.
Qed.

(** A node allocated at the top level, alone on the stack, gives the
    invariant. *)
Lemma spine_inv_top_level hp hier info (cs : list ContentNode) :
  heap_wf hp ->
  Forall (fun a => (a < length hp)%nat) hier ->
  spine_inv (mkBuilder (hp ++ [(info, ChildContent <$> cs)])
               (hier ++ [length hp]) [length hp]).
Proof.
  intros Hwf Hhier.
  assert (forall a info' ch r,
            (hp ++ [(info, ChildContent <$> cs)]) !! a = Some (info', ch) ->
            ChildHeading r ∈ ch -> r ∉ [length hp]) as Hrefs.
  { intros a info' ch r [[_ Ha]|[_ [= _ Heq]]]%lookup_snoc_Some Hr.
    - destruct (Hwf a _ Ha) as [_ Hch]. destruct (Hch r Hr) as [[_ Hlt] _].
      intros ->%list_elem_of_singleton. lia.
    - subst ch. by apply list_elem_of_fmap in Hr as (c & ? & _). }
  split; cbn [heap headingStack hierarchy].
  - repeat constructor.
  - done.
  - intros s [= <-]. apply last_snoc.
  - intros a info' ch1 r ch2 Ha _. apply (Hrefs a info' _ r Ha).
    apply elem_of_app. right. by left.
  - intros a info' ch r Ha _ Hr. by apply (Hrefs a info' ch r).
  - intros h1 r h2 Heq Hne ->%list_elem_of_singleton.
    assert (length hp ∈ hier) as Hin.
    { by apply snoc_inj_tail in Heq. }
    rewrite Forall_forall in Hhier. specialize (Hhier _ Hin). lia.
Qed.

(** *** What a step adds to the outline *)

Lemma outline_push_child hp hier (top : nat) (rest : list nat) (x : Child) stack0 stack1 :
  heap_wf hp ->
  Forall (fun a => (a < length hp)%nat) hier ->
  spine_inv (mkBuilder hp hier (top :: rest)) ->
  (forall r, x = ChildHeading r -> (top < r)%nat) ->
  outline (read_hierarchy (mkBuilder (push_child top x hp) hier stack1))
  = outline (read_hierarchy (mkBuilder hp hier stack0))
    ++ kid_items (read_cells 0 hp) top x.
Proof.
  intros Hwf Hhier Hinv Hx. rewrite !outline_read. cbn [heap hierarchy].
  pose proof (push_child_flat hp hier top rest x Hwf Hinv Hx) as Hflat.
  cbn zeta in Hflat.
  assert (forall a, (a < length hp)%nat ->
            from_option flat [] (read_cells 0 (push_child top x hp) !! a)
            = from_option flat [] (read_cells 0 hp !! a)
              ++ (if decide (a ∈ top :: rest)
                  then kid_items (read_cells 0 hp) top x else [])) as Hnode.
  { intros a Ha. destruct (lookup_lt_is_Some_2 (read_cells 0 hp) a) as [node Hnode].
    { by rewrite read_cells_length. }
    destruct (Hflat (S (length hp - a)) a node ltac:(lia) Hnode) as (node' & Hnode' & Heq).
    by rewrite Hnode, Hnode'. }
  destruct Hinv as [_ _ Hbottom _ _ Htop]. cbn [heap headingStack hierarchy] in *.
  destruct (last (top :: rest)) as [s|] eqn:Hlast; [|by apply last_None in Hlast].
  pose proof (Hbottom s eq_refl) as Hs. apply last_Some in Hs as [h0 ->].
  apply Forall_app in Hhier as [Hh0 Hs]. rewrite Forall_singleton in Hs.
  rewrite !bind_app, !bind_singleton, (Hnode s Hs).
  rewrite decide_True by (by eapply last_Some_elem_of). rewrite app_assoc. f_equal.
  f_equal. apply Forall_bind_ext, Forall_forall. intros a Ha.
  rewrite Forall_forall in Hh0. rewrite (Hnode a (Hh0 a Ha)).
  apply list_elem_of_split in Ha as (l1 & l2 & ->).
  rewrite decide_False; [by rewrite app_nil_r|].
  apply (Htop l1 a (l2 ++ [s])); [by rewrite <- app_assoc|by destruct l2].
Qed.

Lemma heap_wf_refs hp i info ch r :
  heap_wf hp -> hp !! i = Some (info, ch) -> ChildHeading r ∈ ch -> (r < length hp)%nat.
Proof.
  intros Hwf Hi Hr. destruct (Hwf i _ Hi) as [_ Hch]. by destruct (Hch r Hr) as [[_ ?] _].
Qed.

Lemma read_cells_snoc_lookup hp cell (a : nat) :
  heap_wf hp -> (a < length hp)%nat ->
  read_cells 0 (hp ++ [cell]) !! a = read_cells 0 hp !! a.
Proof.
  intros Hwf Ha. rewrite read_cells_snoc.
  - apply lookup_app_l. by rewrite read_cells_length.
  - intros i info ch r Hi Hr. simpl. by eapply heap_wf_refs.
Qed.

Lemma kid_items_contents nodes (a : nat) (cs : list ContentNode) :
  (ChildContent <$> cs) ≫= kid_items nodes a = ItemContent <$> cs.
Proof.
  induction cs as [|c cs IH]; [done|]. by rewrite !fmap_cons, bind_cons, IH.
Qed.

Lemma flat_new_cell hp info (cs : list ContentNode) :
  from_option flat []
    (read_cells 0 (hp ++ [(info, ChildContent <$> cs)]) !! length hp)
  = ItemHeading info :: (ItemContent <$> cs).
Proof.
  destruct (read_flat (hp ++ [(info, ChildContent <$> cs)]) (length hp) info
              (ChildContent <$> cs)) as (node & Hnode & Hflat).
  { by apply list_lookup_middle. }
  rewrite Hnode. simpl. by rewrite Hflat, kid_items_contents.
Qed.

Lemma outline_snoc hp hier cell stack0 stack1 :
  heap_wf hp ->
  Forall (fun a => (a < length hp)%nat) hier ->
  outline (read_hierarchy (mkBuilder (hp ++ [cell]) hier stack1))
  = outline (read_hierarchy (mkBuilder hp hier stack0)).
Proof.
  intros Hwf Hhier. rewrite !outline_read. cbn [heap hierarchy].
  apply Forall_bind_ext. eapply Forall_impl; [exact Hhier|].
  intros a Ha. simpl. by rewrite read_cells_snoc_lookup.
Qed.

Lemma outline_top_level hp hier info (cs : list ContentNode) stack0 stack1 :
  heap_wf hp ->
  Forall (fun a => (a < length hp)%nat) hier ->
  outline (read_hierarchy
             (mkBuilder (hp ++ [(info, ChildContent <$> cs)]) (hier ++ [length hp]) stack1))
  = outline (read_hierarchy (mkBuilder hp hier stack0))
    ++ ItemHeading info :: (ItemContent <$> cs).
Proof.
  intros Hwf Hhier.
  rewrite (outline_read (mkBuilder (hp ++ _) _ _)). cbn [heap hierarchy].
  rewrite bind_app, bind_singleton, flat_new_cell. f_equal.
  rewrite <- (outline_snoc hp hier (info, ChildContent <$> cs) stack0 stack1 Hwf Hhier).
  by rewrite outline_read.
Qed.

(** One step of the builder adds the node of the detection, after the
    default section it makes when the stack is empty, at the end of the
    outline, and keeps the invariant of the stack. *)
Lemma place_outline (b : Builder) (d : EnrichedDetection) :
  builder_wf b -> spine_inv b ->
  outline (read_hierarchy (place b d))
  = outline (read_hierarchy b) ++ placed_items b d
  /\ spine_inv (place b d).
Proof.
  intros [Hwf Hstack Hhier] Hinv.
  pose proof (below_valid _ _ _ Hstack) as Hvalid.
  destruct b as [hp hier stack]. cbn [heap headingStack hierarchy] in *.
  unfold place, placed_items, detection_item. cbn [heap headingStack hierarchy].
  destruct (headingLevels (d_label (e_detection d))) as [level|] eqn:Hl.
  - set (info := headingNode level d).
    change [(info, @nil Child)] with [(info, ChildContent <$> [])].
    set (hp1 := hp ++ [(info, ChildContent <$> [])]).
    assert (heap_wf hp1) as Hwf1.
    { apply heap_wf_snoc; [done| |by intros r ?%elem_of_nil].
      destruct (headingLevels_levelNum _ _ Hl) as (k & Hk & _). simpl. eauto. }
    assert (length hp1 = S (length hp)) as Hlen.
    { unfold hp1. rewrite length_app. simpl. lia. }
    pose proof (spine_inv_pop_headings hp1 hier (levelNum level) stack Hwf1
                  (spine_inv_snoc hp hier stack info [] Hvalid Hinv)) as Hkept.
    assert (forall a, a ∈ pop_headings hp1 (levelNum level) stack -> (a < length hp)%nat)
      as Hkept_valid.
    { intros a Ha%pop_headings_elem. rewrite Forall_forall in Hvalid. by apply Hvalid. }
    destruct (pop_headings hp1 (levelNum level) stack) as [|top rest].
    + split.
      * rewrite (outline_top_level hp hier info [] stack); [|done..].
        by destruct stack.
      * by apply spine_inv_top_level.
    + assert (top < length hp)%nat as Htop by (apply Hkept_valid; by left).
      split.
      * rewrite (outline_push_child hp1 hier top rest _ stack); [|done| |done|].
        -- unfold hp1. rewrite (outline_snoc hp hier _ stack stack Hwf Hhier). f_equal.
           cbn [kid_items]. rewrite decide_True by done.
           by rewrite flat_new_cell.
        -- eapply Forall_impl; [exact Hhier|]. simpl. lia.
        -- by intros r [= <-].
      * apply spine_inv_push_heading; [done| | | | |done].
        -- intros a info' ch r [[_ Ha]|[_ [= _ <-]]]%lookup_snoc_Some Hr.
           ++ by eapply heap_wf_refs.
           ++ by apply elem_of_nil in Hr.
        -- done.
        -- apply Forall_forall. exact Hkept_valid.
        -- lia.
  - destruct stack as [|top rest].
    + change [ChildContent (contentNode d)] with (ChildContent <$> [contentNode d]).
      split.
      * by rewrite (outline_top_level hp hier _ [contentNode d] []).
      * by apply spine_inv_top_level.
    + split.
      * by rewrite (outline_push_child hp hier top rest _ (top :: rest)).
      * by apply spine_inv_push_content.
Qed.

Lemma run_outline (l : list EnrichedDetection) (b : Builder) :
  builder_wf b -> spine_inv b -> headingStack b <> [] ->
  outline (read_hierarchy (fold_left place l b))
  = outline (read_hierarchy b) ++ (detection_item <$> l).
Proof.
  revert b. induction l as [|d l IH]; intros b Hwf Hinv Hne; simpl.
  { by rewrite app_nil_r. }
  destruct (place_outline b d Hwf Hinv) as [Hstep Hinv'].
  rewrite IH; [|by apply place_wf|done|apply place_stack_nonempty].
  rewrite Hstep, <- app_assoc. f_equal. unfold placed_items.
  destruct (headingLevels _); [done|]. by destruct (headingStack b).
Qed.

(** Read in the order of a reader (every heading before its children),
    the nodes of the hierarchy are the nodes of the detections, one for
    each detection, in the order of the sorted list; they come after the
    default section of the page of the first detection when that one is
    content, and the hierarchy has no other node. *)
Theorem hierarchy_outline_is_the_document_order (detections : list EnrichedDetection) :
  let sorted := (buildDocumentHierarchy detections).1 in
  let forest := (buildDocumentHierarchy detections).2 in
  outline forest
  = match sorted with
    | [] => []
    | first :: _ =>
        match headingLevels (d_label (e_detection first)) with
        | Some _ => []
        | None => [ItemHeading (defaultSection (e_pageNumber first))]
        end ++ (detection_item <$> sorted)
    end.
Proof.
  unfold buildDocumentHierarchy. cbn [fst snd].
  destruct (Array_sort document_before detections) as [|first rest]; [done|].
  cbn [fold_left].
  destruct (place_outline empty_builder first empty_builder_wf empty_spine_inv)
    as [Hfirst Hinv].
  rewrite run_outline;
    [|by apply place_wf, empty_builder_wf|done|apply place_stack_nonempty].
  rewrite Hfirst. unfold placed_items, detection_item. simpl.
  by destruct (headingLevels (d_label (e_detection first))).
Qed.

(** ** The top and the bottom of the hierarchy *)

(** A node of a forest is a root, or lies below a child of a heading of
    the forest. *)
Lemma forest_nodes_cases (forest : list Node) (m : Node) :
  m ∈ forest_nodes forest ->
  m ∈ forest
  \/ exists h kids kid,
       Heading h kids ∈ forest_nodes forest /\ kid ∈ kids /\ m ∈ subnodes kid.
Proof.
  intros (root & Hm & Hroot)%list_elem_of_bind.
  destruct root as [c|h kids].
  - simpl in Hm. apply list_elem_of_singleton in Hm as ->. by left.
  - apply subnodes_heading in Hm as [->|(kid & Hkid & Hm)]; [by left|].
    right. exists h, kids, kid. split; [|done].
    apply list_elem_of_bind. exists (Heading h kids). split; [apply subnodes_self|done].
Qed.

(** The node of a heading detection is in the hierarchy. *)
Lemma heading_node_in_forest (detections : list EnrichedDetection)
    (d : EnrichedDetection) (level : string) :
  d ∈ detections -> headingLevels (d_label (e_detection d)) = Some level ->
  exists kids,
    Heading (headingNode level d) kids
      ∈ forest_nodes (buildDocumentHierarchy detections).2.
Proof.
  intros Hd%(Array_sort_elem document_before) Hl. unfold buildDocumentHierarchy. simpl.
  set (sorted := Array_sort document_before detections) in *.
  assert (heap_attached empty_builder) as Hatt0 by (intros a Ha; simpl in Ha; lia).
  destruct (run_places sorted empty_builder empty_builder_wf Hatt0) as [Hatt Hplaced].
  pose proof (run_wf sorted empty_builder empty_builder_wf) as Hwf.
  specialize (Hplaced d Hd). unfold placed_in in Hplaced. rewrite Hl in Hplaced.
  destruct Hplaced as (a & ch & Ha).
  destruct (attached_in_forest _ Hwf Hatt a) as (node & Hnode & Hforest).
  { by apply lookup_lt_Some in Ha. }
  destruct (read_cells_kids _ 0 _ _ _ Ha) as (kids & Hread & _).
  rewrite Hread in Hnode. injection Hnode as <-. by exists kids.
Qed.

(** The level number of every heading of a hierarchy is 1, 2, 3 or 4. *)
Lemma forest_levels (detections : list EnrichedDetection) h kids :
  Heading h kids ∈ forest_nodes (buildDocumentHierarchy detections).2 ->
  exists k, levelNum (h_level h) = Some k /\ 1 <= k <= 4.
Proof.
  intros Hh%(hierarchy_provenance (fun _ => True)); [|done]. simpl in Hh.
  destruct Hh as [[p ->]|(d & level & _ & Hl & ->)].
  - by exists 1.
  - by apply (headingLevels_levelNum (d_label (e_detection d))).
Qed.

(** Every node at the top level of the hierarchy is a heading (content
    that comes before any heading is held by a default section); the node
    of every Title is at the top level; and the children of a node of
    level H4 (a Caption) are content nodes only. *)
Theorem titles_on_top_captions_at_the_bottom (detections : list EnrichedDetection) :
  let forest := (buildDocumentHierarchy detections).2 in
  (forall n, n ∈ forest -> exists h kids, n = Heading h kids)
  /\ (forall d, d ∈ detections -> d_label (e_detection d) = Title ->
        exists kids, Heading (headingNode "H1" d) kids ∈ forest)
  /\ (forall h kids kid,
        Heading h kids ∈ forest_nodes forest -> h_level h = "H4" -> kid ∈ kids ->
        exists c, kid = ContentLeaf c).
Proof.
  intros forest.
  assert (builder_wf (fold_left place (Array_sort document_before detections)
                        empty_builder)) as Hwf.
  { apply run_wf, empty_builder_wf. }
  split; [|split].
  - intros n (a & _ & Hn)%list_elem_of_omap.
    destruct (read_cells_lookup _ _ _ _ Hn) as (info & ch & kids & _ & -> & _).
    by exists info, kids.
  - intros d Hd Hl.
    destruct (heading_node_in_forest detections d "H1" Hd) as [kids Hin].
    { by rewrite Hl. }
    exists kids.
    apply forest_nodes_cases in Hin as [Htop|(h & kids0 & kid & Hh & Hkid & Hsub)]; [done|].
    destruct (forest_nesting _ h kids0 kid _ kids Hwf Hh Hkid Hsub)
      as (k & k' & Hk & Hk' & Hlt).
    destruct (forest_levels detections h kids0 Hh) as (k0 & Hk0 & Hrange).
    rewrite Hk in Hk0. injection Hk0 as <-. simpl in Hk'. injection Hk' as <-. lia.
  - intros h kids kid Hh Hlevel Hkid. destruct kid as [c|h' kids']; [by exists c|].
    destruct (forest_nesting _ h kids _ h' kids' Hwf Hh Hkid (subnodes_self _))
      as (k & k' & Hk & Hk' & Hlt).
    assert (Heading h' kids' ∈ forest_nodes forest) as Hh'.
    { apply list_elem_of_bind in Hh as (root & Hsub & Hroot).
      apply list_elem_of_bind. exists root. split; [|done].
      apply (subnodes_trans _ _ _ Hsub). apply subnodes_heading. right.
      exists (Heading h' kids'). split; [done|apply subnodes_self]. }
    destruct (forest_levels detections h' kids' Hh') as (k0 & Hk0 & Hrange).
    rewrite Hk' in Hk0. injection Hk0 as <-.
    rewrite Hlevel in Hk. injection Hk as <-. lia.
Qed.

(** ** Content comes first among the children *)

Lemma content_first_push_heading (ch : list Child) (n : nat) :
  content_first ch -> content_first (ch ++ [ChildHeading n]).
Proof.
  intros (cs & rs & ->). exists cs, (rs ++ [n]). by rewrite fmap_app, app_assoc.
Qed.

Lemma place_content_first (b : Builder) (d : EnrichedDetection) :
  builder_wf b -> content_first_inv b -> content_first_inv (place b d).
Proof.
  intros [_ Hstack _] [Hcells Htop]. unfold place.
  destruct (headingLevels (d_label (e_detection d))) as [level|].
  - set (hp := heap b ++ [(headingNode level d, [])]).
    assert (forall a info ch, hp !! a = Some (info, ch) -> content_first ch) as Hcells'.
    { intros a info ch [[_ Ha]|[_ [= _ <-]]]%lookup_snoc_Some; [by eapply Hcells|].
      by exists [], []. }
    assert (hp !! length (heap b) = Some (headingNode level d, [])) as Hnew.
    { by apply list_lookup_middle. }
    destruct (pop_headings hp (levelNum level) (headingStack b)) as [|top rest] eqn:Hp.
    + split; cbn [heap headingStack]; [done|].
      intros top info ch [= <-]. rewrite Hnew. intros [= _ <-]. by exists [].
    + assert (top < length (heap b))%nat as Hlt.
      { apply below_valid in Hstack. rewrite Forall_forall in Hstack.
        apply Hstack, (pop_headings_elem hp (levelNum level)). rewrite Hp. by left. }
      split; cbn [heap headingStack].
      * intros a info ch. rewrite push_child_lookup.
        destruct (hp !! a) as [[info0 ch0]|] eqn:Ha; [|done]. simpl.
        destruct (decide (top = a)); intros [= _ <-]; [|by eapply Hcells'].
        apply content_first_push_heading. by eapply Hcells'.
      * intros top' info ch [= <-]. rewrite push_child_lookup, Hnew. simpl.
        rewrite decide_False by lia. intros [= _ <-]. by exists [].
  - destruct (headingStack b) as [|top rest] eqn:Hs.
    + split; cbn [heap headingStack].
      * intros a info ch [[_ Ha]|[_ [= _ <-]]]%lookup_snoc_Some; [by eapply Hcells|].
        by exists [contentNode d], [].
      * intros top info ch [= <-]. rewrite (list_lookup_middle (heap b) [] _ _ eq_refl).
        intros [= _ <-]. by exists [contentNode d].
    + split; cbn [heap headingStack].
      * intros a info ch. rewrite push_child_lookup.
        destruct (heap b !! a) as [[info0 ch0]|] eqn:Ha; [|done]. simpl.
        destruct (decide (top = a)) as [<-|]; intros [= _ <-]; [|by eapply Hcells].
        destruct (Htop top info0 ch0 eq_refl Ha) as [cs ->].
        exists (cs ++ [contentNode d]), []. by rewrite fmap_app, app_nil_r.
      * intros top' info ch [= <-]. rewrite push_child_lookup.
        destruct (heap b !! top) as [[info0 ch0]|] eqn:Ha; [|done]. simpl.
        rewrite decide_True by done. intros [= _ <-].
        destruct (Htop top info0 ch0 eq_refl Ha) as [cs ->].
        exists (cs ++ [contentNode d]). by rewrite fmap_app.
Qed.

Lemma run_content_first (l : list EnrichedDetection) (b : Builder) :
  builder_wf b -> content_first_inv b -> content_first_inv (fold_left place l b).
Proof.
  revert b. induction l as [|d l IH]; intros b Hwf Hinv; simpl; [done|].
  apply IH; [by apply place_wf|by apply place_content_first].
Qed.

(** The children of the node read for a cell, one for each child of the
    cell that can be read: the content nodes as they are, and heading
    nodes for the references. *)
Lemma read_cells_children cells base i info ch :
  cells !! i = Some (info, ch) ->
  exists f,
    read_cells base cells !! i = Some (Heading info (omap f ch))
    /\ (forall c, f (ChildContent c) = Some (ContentLeaf c))
    /\ (forall r n, f (ChildHeading r) = Some n -> is_heading n).
Proof.
  revert base i. induction cells as [|[info' ch'] rest IH]; intros base i; [done|].
  destruct i as [|i]; simpl; [|by apply IH].
  intros [= -> ->]. eexists. split; [done|]. split; [done|].
  intros r n. simpl. destruct (decide (base < r)%nat); [|done].
  intros Hn. by destruct (read_cells_lookup _ _ _ _ Hn) as (? & ? & ? & _ & -> & _).
Qed.

Lemma omap_contents_first (f : Child -> option Node) (ch : list Child) :
  (forall c, f (ChildContent c) = Some (ContentLeaf c)) ->
  (forall r n, f (ChildHeading r) = Some n -> is_heading n) ->
  content_first ch -> contents_first (omap f ch).
Proof.
  intros Hc Hh (cs & rs & ->). exists cs, (omap f (ChildHeading <$> rs)).
  rewrite omap_app. split.
  - f_equal. induction cs as [|c cs IH]; [done|]. csimpl. by rewrite Hc, IH.
  - apply Forall_forall. intros n (c & (r & -> & _)%list_elem_of_fmap & Hn)%list_elem_of_omap.
    by eapply Hh.
Qed.

(** Among the children of every heading of the hierarchy, the content
    nodes come before the heading nodes: a heading holds the content that
    follows it up to the next heading, and content that follows one of its
    sub-headings is never attached to it. *)
Theorem content_children_come_first
    (detections : list EnrichedDetection) (h : HeadingInfo) (kids : list Node) :
  Heading h kids ∈ forest_nodes (buildDocumentHierarchy detections).2 ->
  contents_first kids.
Proof.
  unfold buildDocumentHierarchy. cbn [snd].
  set (b := fold_left place (Array_sort document_before detections) empty_builder).
  intros (root & Hsub & (a & _ & Hroot)%list_elem_of_omap)%list_elem_of_bind.
  destruct (subnodes_read (heap b) (S (length (heap b) - a)) a root _ h kids
              ltac:(lia) Hroot Hsub eq_refl) as [a' Ha'].
  assert (content_first_inv b) as [Hcells _].
  { apply run_content_first; [apply empty_builder_wf|]. split; [done|]. by intros top. }
  destruct (read_cells_lookup _ _ _ _ Ha') as (info & ch & kids0 & Hcell & _ & _).
  destruct (read_cells_children _ 0 _ _ _ Hcell) as (f & Hread & Hc & Hh).
  rewrite Hread in Ha'. injection Ha' as <- <-.
  apply omap_contents_first; [done|done|]. by eapply Hcells.
Qed.

(** The theorem above on the title of [sample_page] followed by a
    text. *)
Lemma sample_title_holds_a_text :
  let kids := [ContentLeaf (contentNode sample_flat_enriched)] in
  Heading (headingNode "H1" sample_title_enriched) kids
    ∈ forest_nodes
        (buildDocumentHierarchy [sample_title_enriched; sample_flat_enriched]).2
  /\ contents_first kids.
Proof.
  intros kids.
  assert (Heading (headingNode "H1" sample_title_enriched) kids
            ∈ forest_nodes
                (buildDocumentHierarchy
                   [sample_title_enriched; sample_flat_enriched]).2) as Hin.
  { vm_compute. left. }
  split; [exact Hin|].
  exact (content_children_come_first _ _ _ Hin).
Defined.

(** ** A run without pages *)

(** Given no page result, [saveBoundingBoxesToJson] writes an empty
    hierarchy, an empty flat view, no page, no CSV row and the four
    suggestion lists, all empty; the total time is then divided by 0
    pages, so that [averageTimePerPage] is never a decimal: it is "NaN",
    "Infinity" or "-Infinity". *)
Theorem empty_run_exports_empty_views (totalTime : number) :
  let out := saveBoundingBoxesToJson [] totalTime in
  documentStructure out.1 = []
  /\ allDetections out.1 = []
  /\ pages out.1 = []
  /\ ocrProcessingSuggestions out.1 = mkSuggestions [] [] [] []
  /\ totalDetections (metadata out.1) = 0
  /\ out.2 = []
  /\ match averageTimePerPage (metadata out.1) with
     | FixedNaN | FixedInfinity _ => True
     | _ => False
     end.
Proof.
  repeat split. cbn [saveBoundingBoxesToJson fst metadata averageTimePerPage].
  simpl. change (of_integer (Z.of_nat 0)) with 0%float.
  pose proof (div_zero_not_finite totalTime) as Hdiv. unfold not_finite in Hdiv.
  unfold toFixed. by destruct (Prim2SF (totalTime / 0)).
Qed.

(** ** Regions that are too small *)

(** Without Jimp, a region less than 10 pixels wide or high is never
    read: the canvas method refuses it at both attempts, and a run with a
    worker exports the detection with the text
    "[<label> content (Page)]" (a Picture keeps its own placeholder). *)
Theorem small_regions_are_not_read_without_jimp
    (canvas_ok jimp_ok : string -> array4 -> nat -> bool)
    (worker_text : string -> array4 -> nat -> option string)
    (inputs : list PageInput) (totalTime : number) (e : EnrichedDetection) :
  let recognize := recognize_region false canvas_ok jimp_ok worker_text in
  e ∈ allDetections (main true recognize inputs totalTime).1 ->
  too_small (d_bbox (e_detection e)) = true ->
  d_label (e_detection e) <> Picture ->
  d_extractedText (e_detection e)
  = "[" +:+ label_name (d_label (e_detection e)) +:+ " content (Page)]".
Proof.
  intros recognize He Hsmall Hl.
  apply main_allDetections, exported_text in He. rewrite He.
  assert (forall attempt,
            rejected (recognize (e_sourceImagePath e) (d_bbox (e_detection e))
                        (d_label (e_detection e)) attempt)) as Hrej.
  { intros attempt. unfold recognize, recognize_region, crop_region.
    by rewrite Hsmall. }
  unfold extractTextWithRetry. simpl.
  fold (usable (extractTextFromRegion true recognize (e_sourceImagePath e)
                  (d_bbox (e_detection e)) (d_label (e_detection e)) 1)).
  fold (usable (extractTextFromRegion true recognize (e_sourceImagePath e)
                  (d_bbox (e_detection e)) (d_label (e_detection e)) 2)).
  by rewrite !extractTextFromRegion_rejected.
Qed.

(** The theorem above on the text without width of [sample_page]. *)
Lemma flat_text_is_not_read_without_jimp :
  sample_flat_unread
    ∈ allDetections
        (main true
           (recognize_region false (fun _ _ _ => true) (fun _ _ _ => true)
              (fun _ _ _ => Some "lorem"))
           [sample_page] 3%float).1
  /\ too_small (d_bbox (e_detection sample_flat_unread)) = true
  /\ d_label (e_detection sample_flat_unread) <> Picture
  /\ d_extractedText (e_detection sample_flat_unread) = "[Text content (Page)]".
Proof.
  assert (sample_flat_unread
            ∈ allDetections
                (main true
                   (recognize_region false (fun _ _ _ => true) (fun _ _ _ => true)
                      (fun _ _ _ => Some "lorem"))
                   [sample_page] 3%float).1) as Hin.
  { vm_compute. right. right. left. }
  assert (d_label (e_detection sample_flat_unread) <> Picture) as Hl by discriminate.
  split; [exact Hin|]. split; [reflexivity|]. split; [exact Hl|].
  exact (small_regions_are_not_read_without_jimp
           (fun _ _ _ => true) (fun _ _ _ => true) (fun _ _ _ => Some "lorem")
           [sample_page] 3%float sample_flat_unread Hin eq_refl Hl).
Defined.

(** ** C10: the confidence that is stored *)

Section OwnPrediction.
Variable ocr_ready : bool.
Variable recognize : string -> array4 -> Label -> nat -> option string.

(** The array of the loop holds, at rank [k], what [normalize] makes of
    the survivor of rank [k]. *)
Lemma push_fold_ranks inp pageNumber ps acc :
  Some <$> fold_left (push_detection ocr_ready recognize inp pageNumber) ps acc
  = (Some <$> acc)
      ++ imap (fun k p => normalize ocr_ready recognize inp pageNumber
                            (length acc + k) p)
              (List.filter survives ps).
Proof.
  revert acc. induction ps as [|p ps IH]; intros acc; simpl.
  { by rewrite app_nil_r. }
  rewrite IH. unfold push_detection.
  destruct (normalize ocr_ready recognize inp pageNumber (length acc) p) as [d0|] eqn:E.
  - assert (survives p = true) as ->
      by (apply (proj1 (normalize_kept ocr_ready recognize inp pageNumber
                          (length acc) p)); eauto).
    rewrite fmap_app, <- app_assoc. f_equal. simpl.
    rewrite Nat.add_0_r, E. f_equal.
    apply imap_ext. intros k q _. simpl. rewrite length_app. simpl.
    f_equal. lia.
  - apply normalize_dropped in E as ->. done.
Qed.

Lemma candidates_ranks inp pageNumber (k : nat) :
  Some <$> candidates ocr_ready recognize inp pageNumber !! k
  = normalize ocr_ready recognize inp pageNumber k <$> survivors inp !! k.
Proof.
  pose proof (push_fold_ranks inp pageNumber (predictions inp) []) as H.
  apply (f_equal (fun l => l !! k)) in H.
  rewrite list_lookup_fmap in H. simpl in H.
  rewrite list_lookup_imap in H. fold (survivors inp) in H.
  unfold candidates.
  destruct (fold_left _ _ _ !! k) as [d|]; destruct (survivors inp !! k) as [p|];
    simpl in *; congruence.
Qed.

Lemma normalize_stores inp pageNumber (k : nat) p d0 (ro : Z) :
  survivors inp !! k = Some p ->
  normalize ocr_ready recognize inp pageNumber k p = Some d0 ->
  stores_rounded_score inp pageNumber k p (set_reading_order d0 ro).
Proof.
  intros Hk Hn. unfold stores_rounded_score. unfold normalize in Hn.
  destruct (p_score p <? CONFIDENCE_THRESHOLD)%float eqn:Hscore; [done|].
  injection Hn as <-. done.
Qed.

(** Every detection of a page stores what the loop computed from one
    survivor, whose rank its id carries. *)
Lemma page_detection_stores inp pageNumber d :
  d ∈ r_detections (processPage ocr_ready recognize inp pageNumber) ->
  exists k p, stores_rounded_score inp pageNumber k p d.
Proof.
  simpl. intros [j Hj]%list_elem_of_lookup. rewrite mapi_lookup in Hj.
  destruct (Array_sort reading_before _ !! j) as [d0|] eqn:E; [|done].
  injection Hj as <-.
  apply list_elem_of_lookup_2, Array_sort_elem, list_elem_of_lookup in E as [k Hk].
  pose proof (candidates_ranks inp pageNumber k) as Hr.
  fold (candidates ocr_ready recognize inp pageNumber) in Hk.
  rewrite Hk in Hr. destruct (survivors inp !! k) as [p|] eqn:Ep; [|done].
  simpl in Hr. injection Hr as Hr. exists k, p. by apply normalize_stores.
Qed.

(** Every survivor of a page has its detection among those of the
    page. *)
Lemma survivor_has_detection inp pageNumber (k : nat) p :
  survivors inp !! k = Some p ->
  exists d, d ∈ r_detections (processPage ocr_ready recognize inp pageNumber)
            /\ stores_rounded_score inp pageNumber k p d.
Proof.
  intros Hk. pose proof (candidates_ranks inp pageNumber k) as Hr.
  rewrite Hk in Hr. simpl in Hr.
  destruct (candidates ocr_ready recognize inp pageNumber !! k) as [d0|] eqn:E; [|done].
  injection Hr as Hn.
  apply list_elem_of_lookup_2, (Array_sort_elem reading_before), list_elem_of_lookup
    in E as [j Hj].
  exists (set_reading_order d0 (Z.of_nat j + 1)). split.
  - simpl. apply list_elem_of_lookup. exists j. rewrite mapi_lookup.
    unfold candidates in Hj. by rewrite Hj.
  - by apply normalize_stores.
Qed.
End OwnPrediction.

(** C10: every detection of a run stores the raw score of its own
    prediction, printed with three fraction digits and read back: the
    detection with the id "page<n>_detection<k+1>" has the box, the label
    and the rounded score of the survivor of rank [k] of page [n], whose
    raw score is not below the threshold, and every survivor has its
    detection; the pages view, the CSV row and the nodes of the hierarchy
    copy the stored value; whether a prediction is dropped depends on its
    raw score alone (0.4996 is dropped although it rounds to 0.5); and
    the three digits [toFixed] prints for a finite score [m * 2^e] are
    those of the integer closest to [m * 2^e * 10^3]. *)
Theorem confidence_is_raw_score_rounded_to_3
    (ocr_ready : bool) (recognize : string -> array4 -> Label -> nat -> option string)
    (inputs : list PageInput) (totalTime : number) :
  let out := main ocr_ready recognize inputs totalTime in
  let rounded_score pageNumber d :=
    exists i inp k p,
      inputs !! i = Some inp /\ pageNumber = Z.of_nat i + 1
      /\ stores_rounded_score inp pageNumber k p d in
  (forall e, e ∈ allDetections out.1 ->
             rounded_score (e_pageNumber e) (e_detection e))
  /\ (forall i inp k p,
        inputs !! i = Some inp -> survivors inp !! k = Some p ->
        exists e, e ∈ allDetections out.1 /\ e_pageNumber e = Z.of_nat i + 1
                  /\ stores_rounded_score inp (Z.of_nat i + 1) k p (e_detection e))
  /\ (forall pv pd, pv ∈ pages out.1 -> pd ∈ pv_detections pv ->
                    rounded_score (pd_pageNumber pd) (pd_detection pd))
  /\ (forall e level,
        csv_confidence (csv_row e) = d_confidence (e_detection e)
        /\ c_confidence (contentNode e) = d_confidence (e_detection e)
        /\ h_confidence (headingNode level e) = Some (d_confidence (e_detection e)))
  /\ (forall inp pageNumber count p,
        normalize ocr_ready recognize inp pageNumber count p = None
        <-> (p_score p <? CONFIDENCE_THRESHOLD)%float = true)
  /\ (parseFloat (toFixed 0.4996%float 3) = CONFIDENCE_THRESHOLD
      /\ (0.4996 <? CONFIDENCE_THRESHOLD)%float = true)
  /\ (forall q s m e,
        Prim2SF q = S754_finite s m e ->
        (1e21 <=? Math_abs q)%float = false ->
        exists n, toFixed q 3 = FixedDigits s n 3 /\ closest_digits n m e 3).
Proof.
  intros out rounded_score.
  destruct (save_views (process_pages ocr_ready recognize inputs) totalTime)
    as (Hall & _ & Hpages & _).
  assert (forall r d, r ∈ process_pages ocr_ready recognize inputs ->
                      d ∈ r_detections r -> rounded_score (r_pageNumber r) d) as Hpage.
  { intros r d (i & inp & Hinp & ->)%process_pages_elem Hd.
    apply page_detection_stores in Hd as (k & p & Hd).
    exists i, inp, k, p. done. }
  split; [|split; [|split; [|split; [|split; [|split]]]]].
  - intros e He. apply main_allDetections in He.
    apply list_elem_of_bind in He as (r & (d & -> & Hd)%list_elem_of_fmap & Hr).
    by apply Hpage.
  - intros i inp k p Hinp Hk.
    destruct (survivor_has_detection ocr_ready recognize inp (Z.of_nat i + 1) k p Hk)
      as (d & Hd & Hs).
    exists (enrich (processPage ocr_ready recognize inp (Z.of_nat i + 1)) d).
    split; [|done].
    apply main_allDetections, list_elem_of_bind.
    exists (processPage ocr_ready recognize inp (Z.of_nat i + 1)). split.
    + apply list_elem_of_fmap. by exists d.
    + apply list_elem_of_lookup. exists i. unfold process_pages.
      by rewrite mapi_lookup, Hinp.
  - intros pv pd Hpv Hpd. unfold out, main in Hpv. rewrite Hpages in Hpv.
    apply list_elem_of_fmap in Hpv as (r & -> & Hr).
    apply list_elem_of_fmap in Hpd as (d & -> & Hd).
    by apply Hpage.
  - done.
  - intros inp pageNumber count p. rewrite normalize_dropped. unfold survives.
    by destruct (p_score p <? CONFIDENCE_THRESHOLD)%float.
  - split; vm_compute; reflexivity.
  - intros q s m e Hq Hsmall. exists (fixed_digits m e 3). split.
    + by apply toFixed_finite.
    + apply fixed_digits_closest.
Qed.

(** C10 on [sample_page]: its title, the second detection pushed, stores
    0.875, the score of the second survivor of the page. *)
Lemma sample_title_confidence :
  sample_title_enriched
    ∈ allDetections (main true sample_recognize [sample_page] 3%float).1
  /\ stores_rounded_score sample_page 1 1
       (mkPrediction 10 10 100 30 0.875 10)%float sample_title
  /\ d_confidence sample_title = 0.875%float.
Proof.
  assert (sample_title_enriched
            ∈ allDetections (main true sample_recognize [sample_page] 3%float).1)
    as Hin by (vm_compute; left).
  split; [exact Hin|]. split; [|reflexivity].
  destruct (proj1 (confidence_is_raw_score_rounded_to_3
                     true sample_recognize [sample_page] 3%float)
              sample_title_enriched Hin)
    as (i & inp & k & p & Hinp & Hpage & Hs).
  change (e_pageNumber sample_title_enriched) with 1 in *.
  change (e_detection sample_title_enriched) with sample_title in *.
  assert (i = 0%nat) as -> by lia. injection Hinp as <-.
  assert (k = 1%nat) as ->.
  { destruct Hs as (_ & _ & Hid & _).
    change (d_id sample_title) with (detection_id 1 2) in Hid.
    apply detection_id_inj in Hid as [_ Hid]. lia. }
  assert (p = (mkPrediction 10 10 100 30 0.875 10)%float) as <-; [|exact Hs].
  destruct Hs as (Hk & _). vm_compute in Hk. by injection Hk as <-.
Defined.

(** ** C5: the order of a page and the comparator *)

Lemma StronglySorted_lookup_1 {A} (R : relation A) (l : list A) (i j : nat) (x y : A) :
  StronglySorted R l -> (i < j)%nat -> l !! i = Some x -> l !! j = Some y -> R x y.
Proof.
  intros Hl. revert i j. induction Hl as [|a l Hl IH Ha]; intros i j Hij Hi Hj; [done|].
  destruct j as [|j]; [lia|]. destruct i as [|i]; simpl in *.
  - injection Hi as <-. rewrite Forall_forall in Ha.
    by apply Ha, list_elem_of_lookup_2 with j.
  - apply (IH i j); [lia|done..].
Qed.

Section Consistent.
Context {A : Type} (cmp : A -> A -> number) (l : list A).
Hypothesis Hconsistent : consistent cmp l = true.

Lemma consistent_pair (a b : A) :
  a ∈ l -> b ∈ l ->
  (0 <? cmp a b)%float = (cmp b a <? 0)%float
  /\ ((cmp a b <? 0)%float = true -> (cmp b a <? 0)%float = false)
  /\ forall c, c ∈ l ->
       (cmp b a <? 0)%float = false -> (cmp c b <? 0)%float = false ->
       (cmp c a <? 0)%float = false.
Proof.
  intros Ha%list_elem_of_In Hb%list_elem_of_In.
  unfold consistent in Hconsistent. rewrite forallb_forall in Hconsistent.
  specialize (Hconsistent a Ha). rewrite forallb_forall in Hconsistent.
  specialize (Hconsistent b Hb).
  apply andb_true_iff in Hconsistent as [[Hsign Hasym]%andb_true_iff Htrans].
  split; [by apply Bool.eqb_prop|]. split.
  - intros Hab. rewrite Hab in Hasym. simpl in Hasym. by apply negb_true_iff.
  - intros c Hc%list_elem_of_In Hba Hcb. rewrite forallb_forall in Htrans.
    specialize (Htrans c Hc). rewrite Hba, Hcb in Htrans. simpl in Htrans.
    by apply negb_true_iff.
Qed.
End Consistent.

(** A number further than 20 from zero that is not positive is
    negative. *)
Lemma far_from_zero (x : number) :
  (20 <? Math_abs x)%float = true -> (0 <? x)%float = false -> (x <? 0)%float = true.
Proof.
  unfold Math_abs. rewrite !ltb_spec, abs_spec.
  change (Prim2SF 20) with (S754_finite false 5629499534213120 (-48)).
  change (Prim2SF 0) with (S754_zero false).
  destruct (Prim2SF x) as [s|s| |s m e]; simpl; try done; by destruct s.
Qed.

(** The comparator looks at the centres only. *)
Lemma reading_cmp_set_reading_order (a b : Detection) (ra rb : Z) :
  reading_cmp (set_reading_order a ra) (set_reading_order b rb) = reading_cmp a b.
Proof. done. Qed.

(** Among elements of which each is put before another one, in a cycle,
    every arrangement has one that comes after an element it is put
    before. *)
Lemma cycle_has_inversion {A : Type} (before : A -> A -> bool) (a b c : A) (l : list A) :
  before a a = false -> before b b = false -> before c c = false ->
  before b a = true -> before c b = true -> before a c = true ->
  a ∈ l -> b ∈ l -> c ∈ l ->
  exists i j x y,
    (i < j)%nat /\ l !! i = Some x /\ l !! j = Some y /\ before y x = true.
Proof.
  intros Haa Hbb Hcc Hba Hcb Hac
         [ia Ha]%list_elem_of_lookup [ib Hb]%list_elem_of_lookup
         [ic Hc]%list_elem_of_lookup.
  destruct (lt_eq_lt_dec ia ib) as [[Hlt|Heq]|Hlt].
  - exists ia, ib, a, b. done.
  - subst ib. rewrite Ha in Hb. injection Hb as <-. congruence.
  - destruct (lt_eq_lt_dec ib ic) as [[Hlt'|Heq]|Hlt'].
    + exists ib, ic, b, c. done.
    + subst ic. rewrite Hb in Hc. injection Hc as <-. congruence.
    + exists ic, ia, c, a. split; [lia|done].
Qed.

Section PageOrder.
Variable ocr_ready : bool.
Variable recognize : string -> array4 -> Label -> nat -> option string.

Lemma candidate_in_page inp pageNumber (x : Detection) :
  x ∈ candidates ocr_ready recognize inp pageNumber ->
  exists r, set_reading_order x r
              ∈ r_detections (processPage ocr_ready recognize inp pageNumber).
Proof.
  intros [j Hj]%(Array_sort_elem reading_before)%list_elem_of_lookup.
  exists (Z.of_nat j + 1). simpl. apply list_elem_of_lookup. exists j.
  rewrite mapi_lookup. unfold candidates in Hj. by rewrite Hj.
Qed.

(** On a page where the comparator is a consistent ordering, the sort
    leaves no detection after one the comparator puts it before. *)
Lemma page_sorted inp pageNumber (i j : nat) (a b : Detection) :
  consistent reading_cmp (r_detections (processPage ocr_ready recognize inp pageNumber))
  = true ->
  (i < j)%nat ->
  r_detections (processPage ocr_ready recognize inp pageNumber) !! i = Some a ->
  r_detections (processPage ocr_ready recognize inp pageNumber) !! j = Some b ->
  reading_before b a = false /\ (0 <? reading_cmp a b)%float = false.
Proof.
  intros Hc Hij Ha Hb.
  set (cands := candidates ocr_ready recognize inp pageNumber).
  assert (forall x y, x ∈ cands -> y ∈ cands ->
            (0 <? reading_cmp x y)%float = (reading_cmp y x <? 0)%float
            /\ ((reading_cmp x y <? 0)%float = true -> (reading_cmp y x <? 0)%float = false)
            /\ forall z, z ∈ cands ->
                 (reading_cmp y x <? 0)%float = false ->
                 (reading_cmp z y <? 0)%float = false ->
                 (reading_cmp z x <? 0)%float = false) as Hpair.
  { intros x y [rx Hx]%candidate_in_page [ry Hy]%candidate_in_page.
    destruct (consistent_pair reading_cmp _ Hc _ _ Hx Hy) as (Hsign & Hasym & Htrans).
    rewrite !reading_cmp_set_reading_order in Hsign, Hasym.
    split; [done|]. split; [done|].
    intros z [rz Hz]%candidate_in_page. apply (Htrans _ Hz). }
  simpl in Ha, Hb. rewrite mapi_lookup in Ha, Hb.
  fold (candidates ocr_ready recognize inp pageNumber) in Ha, Hb. fold cands in Ha, Hb.
  destruct (Array_sort reading_before cands !! i) as [a0|] eqn:Ea; [|done].
  destruct (Array_sort reading_before cands !! j) as [b0|] eqn:Eb; [|done].
  injection Ha as <-. injection Hb as <-.
  assert (StronglySorted (fun x y => reading_before y x = false)
            (Array_sort reading_before cands)) as Hsorted.
  { apply (Array_sort_ordered reading_before _ (fun x => x ∈ cands)).
    - intros x y z Hx Hy Hz Hxy Hyz.
      by apply (proj2 (proj2 (Hpair x y Hx Hy)) z).
    - intros x y Hx Hy Hxy. by apply (proj1 (proj2 (Hpair x y Hx Hy))).
    - done.
    - by apply Forall_forall. }
  pose proof (StronglySorted_lookup_1 _ _ i j a0 b0 Hsorted Hij Ea Eb) as Hle.
  cbn beta in Hle.
  apply list_elem_of_lookup_2, Array_sort_elem in Ea, Eb.
  unfold reading_before. rewrite !reading_cmp_set_reading_order.
  split; [exact Hle|].
  rewrite (proj1 (Hpair a0 b0 Ea Eb)). exact Hle.
Qed.
End PageOrder.




(** ** The text the hierarchy of a run displays *)

(** The text the retry loop returns is never the empty string, so within
    a run the hierarchy never displays the fallback: every node of the
    hierarchy of a run other than a default section is the node of a
    detection of the run, and the text it displays is the extracted text
    of that detection, which is the text the retry loop returned for the
    detection's box and label and is not empty. *)
Theorem extracted_text_is_never_empty
    (ocr_ready : bool) (recognize : string -> array4 -> Label -> nat -> option string) :
  (forall path bbox elementType,
     extractTextWithRetry ocr_ready recognize path bbox elementType <> "")
  /\ forall inputs totalTime m,
       let out := main ocr_ready recognize inputs totalTime in
       let displays (text : string) (e : EnrichedDetection) :=
         text = d_extractedText (e_detection e)
         /\ text = extractTextWithRetry ocr_ready recognize (e_sourceImagePath e)
                     (d_bbox (e_detection e)) (d_label (e_detection e))
         /\ text <> "" in
       m ∈ forest_nodes (documentStructure out.1) ->
       match m with
       | ContentLeaf c =>
           exists e, e ∈ allDetections out.1 /\ is_content e /\ c = contentNode e
                     /\ displays (c_content c) e
       | Heading h _ =>
           (exists pageNumber, h = defaultSection pageNumber)
           \/ exists e level,
                e ∈ allDetections out.1
                /\ headingLevels (d_label (e_detection e)) = Some level
                /\ h = headingNode level e
                /\ displays (h_title h) e
       end.
Proof.
  split; [intros path bbox elementType; apply extractText_attempts_nonempty|].
  intros inputs totalTime m out displays Hm.
  set (results := process_pages ocr_ready recognize inputs).
  assert (forall e (fallback : string),
            e ∈ collected results ->
            e ∈ allDetections out.1
            /\ displays (or_fallback (d_extractedText (e_detection e)) fallback) e)
    as Hrun.
  { intros e fallback He. split; [by apply main_allDetections|].
    pose proof (exported_text ocr_ready recognize inputs e He) as Htext.
    assert (d_extractedText (e_detection e) <> "") as Hne
      by (rewrite Htext; apply extractText_attempts_nonempty).
    rewrite (proj1 (or_fallback_spec _ fallback) Hne). by split. }
  unfold out, main in Hm.
  destruct (save_views results totalTime) as (_ & Hdoc & _).
  fold results in Hm. rewrite Hdoc in Hm.
  apply (hierarchy_provenance (fun e => e ∈ collected results)) in Hm; [|done].
  destruct m as [c|h kids]; simpl in Hm.
  - destruct Hm as (e & He & Hc & ->). exists e.
    destruct (Hrun e (label_name (d_label (e_detection e))
                        +:+ " content (Page " +:+ pretty (e_pageNumber e) +:+ ")") He)
      as [Hin Hd].
    done.
  - destruct Hm as [?|(e & level & He & Hl & ->)]; [by left|]. right.
    exists e, level.
    destruct (Hrun e (label_name (d_label (e_detection e))
                        +:+ " (Page " +:+ pretty (e_pageNumber e) +:+ ")") He)
      as [Hin Hd].
    done.
Qed.
